(** * The chat interface of the app builder: code-block extraction,
      file naming, typing replay and the submission handlers.

    Two versions of the chat component are embedded, each in a module of
    its own: [V0] is the component with [parseCodeBlocks], [makeAPICall]
    and the staged progress display; [V1] is the component with
    [generateFileName], [useRetry], [isCodeGenerationRequest] and the
    cancel token.

    JavaScript strings are sequences of UTF-16 code units; a string is
    modelled as [list N].  Regular expressions are modelled by a small
    backtracking matcher that follows the priority order of the
    ECMAScript matcher (greedy and lazy repetition, alternation in
    source order, capture groups). *)

From Stdlib Require Import String Ascii DecimalString.
From Stdlib Require Import NArith ZArith QArith Qround Qpower Bool Lia Lqa Arith
  List.
From Stdlib Require DecimalNat DecimalFacts.
Import ListNotations.
Close Scope Q_scope.
Close Scope Z_scope.
Close Scope N_scope.
Open Scope nat_scope.

(* ================================================================== *)
(** ** JavaScript strings *)
(* ================================================================== *)

Module Js.

Definition jsstring := list N.

(** A literal of the source, code unit by code unit (ASCII literals). *)
Definition str (s : string) : jsstring :=
  map N_of_ascii (list_ascii_of_string s).

(** One code unit written in the source as a character. *)
Definition chr (a : ascii) : N := N_of_ascii a.

Definition NL : N := 10%N.
Definition QUOTE : N := 34%N.

Fixpoint eqs (a b : jsstring) : bool :=
  match a, b with
  | [], [] => true
  | x :: a', y :: b' => N.eqb x y && eqs a' b'
  | _, _ => false
  end.

(** [s.startsWith(p)] *)
Fixpoint startsWith (p s : jsstring) : bool :=
  match p with
  | [] => true
  | x :: p' =>
      match s with
      | [] => false
      | y :: s' => N.eqb x y && startsWith p' s'
      end
  end.

(** [s.includes(needle)] *)
Fixpoint includes (needle s : jsstring) : bool :=
  startsWith needle s ||
  match s with
  | [] => false
  | _ :: s' => includes needle s'
  end.

(** [s.split(sep)] for a separator of one code unit: the pieces between
    the separators, an empty string giving one empty piece. *)
Fixpoint split (sep : N) (s : jsstring) : list jsstring :=
  match s with
  | [] => [[]]
  | x :: s' =>
      if N.eqb x sep then [] :: split sep s'
      else match split sep s' with
           | l :: ls => (x :: l) :: ls
           | [] => [[x]]
           end
  end.

(** White space and line terminators of ECMAScript: what [trim] strips
    and what [\s] matches. *)
Definition isSpace (c : N) : bool :=
  ((9 <=? c) && (c <=? 13) || (c =? 32) || (c =? 160) || (c =? 5760)
   || (8192 <=? c) && (c <=? 8202) || (c =? 8232) || (c =? 8233)
   || (c =? 8239) || (c =? 8287) || (c =? 12288) || (c =? 65279))%N.

Fixpoint trimStart (s : jsstring) : jsstring :=
  match s with
  | x :: s' => if isSpace x then trimStart s' else s
  | [] => []
  end.

Definition trimEnd (s : jsstring) : jsstring := rev (trimStart (rev s)).

Definition trim (s : jsstring) : jsstring := trimEnd (trimStart s).

(** [\w] *)
Definition isWord (c : N) : bool :=
  ((48 <=? c) && (c <=? 57) || (65 <=? c) && (c <=? 90)
   || (97 <=? c) && (c <=? 122) || (c =? 95))%N.

(** [[a-zA-Z0-9]] *)
Definition isAlnum (c : N) : bool :=
  ((48 <=? c) && (c <=? 57) || (65 <=? c) && (c <=? 90)
   || (97 <=? c) && (c <=? 122))%N.

(** [[a-zA-Z0-9._-]] *)
Definition isNameChar (c : N) : bool :=
  (isAlnum c || (c =? 46) || (c =? 95) || (c =? 45))%N.

(** [[\s\S]] *)
Definition anyChar (_ : N) : bool := true.

(** [toLowerCase] on one code unit.  Upper-case ASCII letters go to
    lower case.  Two code units outside ASCII have a lower case that
    contains an ASCII letter: U+212A (Kelvin sign) gives [k] and U+0130
    gives [i] followed by U+0307.  Every other code unit outside ASCII
    is sent by the Unicode tables to code units outside ASCII; it is
    kept as it is here, which changes no comparison with an ASCII
    literal. *)
Definition lowerUnit (c : N) : jsstring :=
  if ((65 <=? c) && (c <=? 90))%N then [(c + 32)%N]
  else if (c =? 8490)%N then [107%N]
  else if (c =? 304)%N then [105%N; 775%N]
  else [c].

Definition toLowerCase (s : jsstring) : jsstring := flat_map lowerUnit s.

(** A number of the source put in a template literal: its decimal
    digits. *)
Definition ofNat (n : nat) : jsstring :=
  str (NilZero.string_of_uint (Nat.to_uint n)).

(** [a || b] on strings: the empty string is falsy. *)
Definition orElse (a : option jsstring) (b : jsstring) : jsstring :=
  match a with
  | Some (x :: l) => x :: l
  | _ => b
  end.

(** *** Numbers

    A JavaScript Number is an IEEE 754 binary64 value, and [x / y] and
    [x * y] are the exact quotient and product rounded to the nearest
    double, ties to the even significand.  A finite double is a
    rational, so the numbers are modelled by [Q] and the rounding by
    [fl]: the unit in the last place of [q] is [2 ^ (e - 52)] for the
    binade [2 ^ e <= |q| < 2 ^ (e + 1)], and [2 ^ -1074] below the
    normal range.  Overflow to [Infinity] is left out: the operands of
    the source are lengths of strings, positions inside them and
    100. *)
Definition pow2 (z : Z) : Q := Qpower 2%Q z.

(** The exponent [e] with [2 ^ e <= q < 2 ^ (e + 1)], for [0 < q]. *)
Definition ilog2 (q : Q) : Z :=
  let a := (Z.log2 (Qnum q) - Z.log2 (Zpos (Qden q)))%Z in
  if Qle_bool (pow2 a) q then a else (a - 1)%Z.

(** The nearest integer, the even one of two at the same distance. *)
Definition roundEven (q : Q) : Z :=
  let f := Qfloor q in
  match Qcompare (q - inject_Z f)%Q (1 # 2)%Q with
  | Lt => f
  | Gt => (f + 1)%Z
  | Eq => if Z.even f then f else (f + 1)%Z
  end.

Definition ulp (q : Q) : Q := pow2 (Z.max (ilog2 q - 52) (-1074)).

Definition flPos (q : Q) : Q := (inject_Z (roundEven (q / ulp q)) * ulp q)%Q.

(** The double nearest to [q]. *)
Definition fl (q : Q) : Q :=
  match Qcompare q 0%Q with
  | Eq => 0%Q
  | Gt => flPos q
  | Lt => (- flPos (- q))%Q
  end.

(** [x / y] and [x * y] on Numbers. *)
Definition numDiv (x y : Q) : Q := fl (x / y)%Q.
Definition numMul (x y : Q) : Q := fl (x * y)%Q.

(** A length or an index as a Number. *)
Definition ofIndex (n : nat) : Q := inject_Z (Z.of_nat n).

(** [Math.round]: the nearest integer, the greater one of two at the
    same distance. *)
Definition mathRound (q : Q) : Z := Qfloor (q + (1 # 2))%Q.

(** [Math.min] *)
Definition mathMin (a b : Q) : Q := if Qle_bool a b then a else b.

End Js.

Import Js.

(* ================================================================== *)
(** ** Regular expressions *)
(* ================================================================== *)

Module Re.

(** The expressions of the source use: literals, classes, sequence,
    alternation, [?] on a group, [*] and [+] on a class (greedy), [*?]
    on a class (lazy), capture groups and [$]. *)
Inductive regex : Type :=
| Eps
| Cls (p : N -> bool)
| Cat (r1 r2 : regex)
| Alt (r1 r2 : regex)
| Opt (r : regex)
| Star (p : N -> bool)
| StarLazy (p : N -> bool)
| Grp (i : nat) (r : regex)
| Eos.

Definition Plus (p : N -> bool) : regex := Cat (Cls p) (Star p).

Fixpoint Lit (l : jsstring) : regex :=
  match l with
  | [] => Eps
  | x :: l' => Cat (Cls (N.eqb x)) (Lit l')
  end.

(** Canonical form of a code unit under the [i] flag (no [u] flag): the
    upper case of an ASCII letter.  A code unit outside ASCII never has
    an ASCII canonical form, so for an ASCII pattern character only the
    ASCII part matters. *)
Definition canon (c : N) : N :=
  if ((97 <=? c) && (c <=? 122))%N then (c - 32)%N else c.

Fixpoint LitI (l : jsstring) : regex :=
  match l with
  | [] => Eps
  | x :: l' => Cat (Cls (fun y => N.eqb (canon y) (canon x))) (LitI l')
  end.

Definition caps := list (nat * jsstring).

Fixpoint getCap (i : nat) (c : caps) : option jsstring :=
  match c with
  | [] => None
  | (j, v) :: c' => if Nat.eqb i j then Some v else getCap i c'
  end.

Definition result := option (jsstring * caps).
Definition cont := jsstring -> caps -> result.

(** The matcher: [run r s c k] matches [r] at the front of [s] with the
    captures [c] so far and hands what is left to the continuation [k];
    a failure of [k] makes the matcher try its next choice. *)
Fixpoint run (r : regex) (s : jsstring) (c : caps) (k : cont) : result :=
  match r with
  | Eps => k s c
  | Cls p =>
      match s with
      | x :: s' => if p x then k s' c else None
      | [] => None
      end
  | Cat r1 r2 => run r1 s c (fun s' c' => run r2 s' c' k)
  | Alt r1 r2 =>
      match run r1 s c k with
      | Some y => Some y
      | None => run r2 s c k
      end
  | Opt r1 =>
      match run r1 s c
              (fun s' c' =>
                 if length s' <? length s then k s' c' else None) with
      | Some y => Some y
      | None => k s c
      end
  | Star p =>
      (fix loop (s : jsstring) : result :=
         match s with
         | x :: s' =>
             if p x then
               match loop s' with
               | Some y => Some y
               | None => k s c
               end
             else k s c
         | [] => k s c
         end) s
  | StarLazy p =>
      (fix loop (s : jsstring) : result :=
         match k s c with
         | Some y => Some y
         | None =>
             match s with
             | x :: s' => if p x then loop s' else None
             | [] => None
             end
         end) s
  | Grp i r1 =>
      run r1 s c
        (fun s' c' =>
           k s' ((i, firstn (length s - length s') s) :: c'))
  | Eos =>
      match s with
      | [] => k s c
      | _ :: _ => None
      end
  end.

(** A match: the text before it, the matched text, the captures and the
    text after it. *)
Record rmatch : Type := mkMatch {
  m_pre : jsstring;
  m_all : jsstring;
  m_caps : caps;
  m_rest : jsstring
}.

Definition matchAt (r : regex) (s : jsstring) : result :=
  run r s [] (fun s' c => Some (s', c)).

(** The leftmost match of [r] in [s]; [pre] is the text already passed. *)
Fixpoint exec (r : regex) (pre s : jsstring) : option rmatch :=
  match matchAt r s with
  | Some (rest, c) =>
      Some (mkMatch pre (firstn (length s - length rest) s) c rest)
  | None =>
      match s with
      | [] => None
      | x :: s' => exec r (pre ++ [x]) s'
      end
  end.

(** [s.match(r)] for [r] without the [g] flag. *)
Definition matchFirst (r : regex) (s : jsstring) : option rmatch :=
  exec r [] s.

(** [s.match(r)] for [r] with the [g] flag: the matched texts, each
    search starting where the last match ended.  The fuel bounds the
    number of matches; [S (length s)] is enough when no match is empty. *)
Fixpoint matchAllFrom (fuel : nat) (r : regex) (s : jsstring)
  : list jsstring :=
  match fuel with
  | 0 => []
  | S f =>
      match exec r [] s with
      | None => []
      | Some mt => m_all mt :: matchAllFrom f r (m_rest mt)
      end
  end.

Definition matchAll (r : regex) (s : jsstring) : list jsstring :=
  matchAllFrom (S (length s)) r s.

(** [s.replace(r, '')] for [r] without the [g] flag: the leftmost match
    is removed. *)
Definition replaceFirstEmpty (r : regex) (s : jsstring) : jsstring :=
  match exec r [] s with
  | None => s
  | Some mt => m_pre mt ++ m_rest mt
  end.

End Re.

Import Re.

Declare Scope re_scope.
Delimit Scope re_scope with re.
Infix "+++" := Cat (at level 60, right associativity) : re_scope.


(* ================================================================== *)
(** ** Handlers: effects, failures and the network *)
(* ================================================================== *)

Module Eff.

Inductive Sender : Type := user | ai.

Inductive MsgType : Type := TAnalysis | TCode | TNormal | TError | TSystem.

Inductive LogKind : Type := success | failure | info.

(** What a handler can throw. *)
Inductive exn : Type :=
| HttpError (status : N)          (* [!response.ok] *)
| Rejection (message : jsstring)  (* [fetch] or [response.json()] rejects *)
| RequestCancelled                (* ['Request cancelled'] *)
| MaxRetries                      (* ['Max retries exceeded'] *)
| Thrown (message : option jsstring).
                                  (* thrown by a callback: an [Error]
                                     with its message, or a value
                                     that is no [Error] *)

(** The text of a console line: a fixed text, the count of files to
    process, the line built around the message of an error, or the
    line built around the name of a file that was not processed. *)
Inductive LogMsg : Type :=
| Say (text : string)
| SayCount (files : nat)
| SayError (e : exn)
| SayFile (fileName : jsstring).

(** What the backend does with one request: the request fails, the
    status is not 2xx, the body is no JSON, or the body is read and its
    field [response] is the given text ([None] when the field is
    missing). *)
Inductive NetOutcome : Type :=
| NetDown (message : jsstring)
| Status (status : N)
| Malformed (message : jsstring)
| Reply (response : option jsstring).

(** The surroundings of a session: the backend's answer to the n-th
    request, whether the user presses Cancel during the n-th
    suspension of a handler (only the second version has the button),
    and what the n-th call of the callback [onFileGenerated] throws,
    if it throws.  (The other callback, [onConsoleLog], is the
    [addToConsole] of the panel, which sets a state and does not
    throw.) *)
Record Env : Type := mkSurroundings {
  net : nat -> NetOutcome;
  click : nat -> bool;
  raises : nat -> option exn
}.

(** The surroundings in which [onFileGenerated] never throws. *)
Definition mkEnv (net : nat -> NetOutcome) (click : nat -> bool) : Env :=
  mkSurroundings net click (fun _ => None).

(** What a handler carries along: the requests sent so far, the
    suspensions so far, the field [cancelled] of the cancel token of
    the running submission, whether the Cancel button is on the
    screen (it is while [isLoading] holds), and the calls of
    [onFileGenerated] so far. *)
Record World : Type := mkWorld {
  fetches : nat;
  awaits : nat;
  cancelled : bool;
  button : bool;
  calls : nat
}.

Inductive outcome (A : Type) : Type :=
| Done (a : A)
| Threw (e : exn).

Arguments Done {A} a.
Arguments Threw {A} e.

(** A handler with events [E]: from the world, the events in order,
    the world after, and the value returned or the error thrown. *)
Definition M (E A : Type) : Type := World -> list E * World * outcome A.

Definition ret {E A} (a : A) : M E A := fun w => ([], w, Done a).

Definition bind {E A B} (m : M E A) (f : A -> M E B) : M E B :=
  fun w =>
    match m w with
    | (t1, w1, Done a) =>
        match f a w1 with
        | (t2, w2, r) => (t1 ++ t2, w2, r)
        end
    | (t1, w1, Threw e) => (t1, w1, Threw e)
    end.

Definition emit {E} (e : E) : M E unit := fun w => ([e], w, Done tt).

Definition throw {E A} (e : exn) : M E A := fun w => ([], w, Threw e).

(** [try { m } catch (e) { h e }] *)
Definition catch {E A} (m : M E A) (h : exn -> M E A) : M E A :=
  fun w =>
    match m w with
    | (t1, w1, Done a) => (t1, w1, Done a)
    | (t1, w1, Threw e) =>
        match h e w1 with
        | (t2, w2, r) => (t1 ++ t2, w2, r)
        end
    end.

(** [try { m } finally { f }], for a block [f] that does not throw. *)
Definition finally {E A} (m : M E A) (f : M E unit) : M E A :=
  fun w =>
    match m w with
    | (t1, w1, r) =>
        match f w1 with
        | (t2, w2, _) => (t1 ++ t2, w2, r)
        end
    end.

Definition getWorld {E} : M E World := fun w => ([], w, Done w).

Definition setWorld {E} (w' : World) : M E unit :=
  fun _ => ([], w', Done tt).

(** The events of a handler started in the world [w]. *)
Definition traceOf {E A} (m : M E A) (w : World) : list E :=
  fst (fst (m w)).

Definition resultOf {E A} (m : M E A) (w : World) : outcome A :=
  snd (m w).

Definition worldOf {E A} (m : M E A) (w : World) : World :=
  snd (fst (m w)).

(** A property of event lists holds of a handler when it holds of its
    events from every world. *)
Definition holds {E A} (Q : list E -> Prop) (m : M E A) : Prop :=
  forall w, Q (traceOf m w).

(** The events of a handler begin with [pre], from every world. *)
Definition prefixed {E A} (pre : list E) (m : M E A) : Prop :=
  forall w, exists rest, traceOf m w = pre ++ rest.

(** The handler returns from every world: it does not throw. *)
Definition returns {E A} (m : M E A) : Prop :=
  forall w, exists a, resultOf m w = Done a.

(** The body of the callback [onFileGenerated], once the handler has
    called it: the call is counted, and it returns or throws. *)
Definition callback {E} (env : Env) : M E unit :=
  fun w =>
    ([],
     mkWorld (fetches w) (awaits w) (cancelled w) (button w) (S (calls w)),
     match raises env (calls w) with
     | Some e => Threw e
     | None => Done tt
     end).

Definition world0 : World := mkWorld 0 0 false false 0.

End Eff.

Import Eff.

Declare Scope eff_scope.
Delimit Scope eff_scope with eff.
Notation "x <- m ;; k" := (bind m (fun x => k))
  (at level 61, m at next level, right associativity) : eff_scope.
Notation "m ;; k" := (bind m (fun _ => k))
  (at level 61, right associativity) : eff_scope.
(* ================================================================== *)
(** ** The first version of the component: [parseCodeBlocks] *)
(* ================================================================== *)

Module V0.

Record CodeBlock : Type := mkBlock {
  language : jsstring;
  code : jsstring;
  fileName : jsstring
}.

(** The own keys of the object [extensions] of
    [getLanguageExtension]. *)
Definition extensions : list (jsstring * jsstring) :=
  [ (str "javascript", str "js"); (str "typescript", str "ts");
    (str "python", str "py"); (str "css", str "css");
    (str "html", str "html"); (str "json", str "json");
    (str "jsx", str "jsx"); (str "tsx", str "tsx");
    (str "scss", str "scss"); (str "less", str "less");
    (str "sql", str "sql"); (str "yaml", str "yml");
    (str "markdown", str "md") ].

Fixpoint lookup (k : jsstring) (t : list (jsstring * jsstring))
  : option jsstring :=
  match t with
  | [] => None
  | (k', v) :: t' => if eqs k k' then Some v else lookup k t'
  end.

(** [extensions] is an object literal, so [extensions[language]] also
    finds the members of [Object.prototype].  These are the methods
    below, the property [constructor], which is the function [Object],
    and the accessor [__proto__], which gives [Object.prototype]
    itself.  Each of them is truthy, and the template literal of
    [parseCodeBlocks] turns it into a text: that of a built-in
    function (as V8 prints it), or [[object Object]]. *)
Definition prototypeMethods : list string :=
  [ "hasOwnProperty"; "isPrototypeOf"; "propertyIsEnumerable";
    "toLocaleString"; "toString"; "valueOf"; "__defineGetter__";
    "__defineSetter__"; "__lookupGetter__"; "__lookupSetter__" ]%string.

Definition nativeFunction (name : jsstring) : jsstring :=
  str "function " ++ name ++ str "() { [native code] }".

Definition inherited (k : jsstring) : option jsstring :=
  if eqs k (str "constructor") then Some (nativeFunction (str "Object"))
  else if eqs k (str "__proto__") then Some (str "[object Object]")
  else if existsb (fun name => eqs k (str name)) prototypeMethods
       then Some (nativeFunction k)
       else None.

(** [extensions[language] || 'txt'], as the text it gives in a
    template literal. *)
Definition getLanguageExtension (language : jsstring) : jsstring :=
  match lookup language extensions with
  | Some extension => orElse (Some extension) (str "txt")
  | None => orElse (inherited language) (str "txt")
  end.

(** [/```(\w+)?\n([\s\S]*?)```/g] *)
Definition codeBlockRegex : regex :=
  (Lit (str "```") +++ Opt (Grp 1 (Plus isWord)) +++ Cls (N.eqb NL)
   +++ Grp 2 (StarLazy anyChar) +++ Lit (str "```"))%re.

(** A capture group that took part in the match. *)
Definition group (i : nat) (mt : rmatch) : jsstring :=
  match getCap i (m_caps mt) with
  | Some v => v
  | None => []
  end.

(** The [while] loop of [parseCodeBlocks]: [content] is the text from
    [lastIndex] on, [index] the counter of the loop. *)
Fixpoint parseLoop (fuel : nat) (content : jsstring) (index : nat)
  : list CodeBlock :=
  match fuel with
  | 0 => []
  | S fuel' =>
      match exec codeBlockRegex [] content with
      | None => []
      | Some mt =>
          let language := orElse (getCap 1 (m_caps mt)) (str "text") in
          let code := trim (group 2 mt) in
          let extension := getLanguageExtension language in
          let fileName :=
            str "generated_file_" ++ ofNat (index + 1) ++ str "."
            ++ extension in
          mkBlock language code fileName
          :: parseLoop fuel' (m_rest mt) (S index)
      end
  end.

Definition parseCodeBlocks (content : jsstring) : list CodeBlock :=
  parseLoop (S (length content)) content 0.

(** *** The session of the first version *)

(** The content of a message: a text as it stands, [undefined], or one
    of the two templates of the component (the completion text built
    from the number of files and the signed-in user, the error text
    built around [error.message]).  The fields [id] and [timestamp]
    come from the clock and are left out. *)
Inductive Content : Type :=
| Text (s : jsstring)
| NoText
| Completion (files : nat) (signedIn : bool)
| ErrorNote (e : exn).

Record ChatMessage : Type := mkMessage {
  sender : Sender;
  content : Content;
  type : MsgType;
  filesGenerated : option (list jsstring)
}.

Record GenerationStage : Type := mkStage {
  id : string;
  name : string;
  description : string;
  progress : nat
}.

Record LiveCodingState : Type := mkLive {
  lc_fileName : jsstring;
  lc_content : jsstring;
  lc_isActive : bool;
  lc_language : jsstring;
  lc_progress : Z
}.

Definition INITIAL_MESSAGE : ChatMessage :=
  mkMessage ai
    (Text (str "I create complete applications with 13+ files in multiple programming languages. Describe what you want to build and I'll generate a comprehensive project structure."))
    TNormal None.

Definition GENERATION_STAGES : list GenerationStage :=
  [ mkStage "analyze" "Analyzing Requirements"
      "Understanding your project needs" 0;
    mkStage "design" "Designing Architecture"
      "Creating multi-language structure" 25;
    mkStage "generate" "Generating Files"
      "Creating comprehensive codebase" 50;
    mkStage "optimize" "Optimizing Code" "Applying best practices" 75;
    mkStage "finalize" "Finalizing Project" "Completing setup" 100 ].

Definition TYPING_SPEED : N := 8%N.
Definition CHUNK_SIZE : nat := 15.

(** The state of the component. *)
Record State : Type := mkState {
  messages : list ChatMessage;
  inputValue : jsstring;
  isLoading : bool;
  currentStageIndex : nat;
  liveCoding : LiveCodingState;
  isGenerationMode : bool;
  generationComplete : bool;
  error : option exn
}.

Definition initialState : State :=
  mkState [INITIAL_MESSAGE] [] false 0 (mkLive [] [] false [] 0%Z)
          true false None.

(** What the component is given: the signed-in user of [useAuth], the
    optional callback [onFileGenerated], and what [createProject] does
    ([Some e]: it rejects with [e]). *)
Record Props : Type := mkProps {
  signedIn : bool;
  hasOnFileGenerated : bool;
  createProjectFails : option exn
}.

(** The events of a handler: the calls of the state setters, of the
    callbacks [onConsoleLog] and [onFileGenerated], of [createProject],
    of [console.error], the requests and the timers awaited. *)
Inductive Event : Type :=
| SetIsLoading (b : bool)
| SetError (e : option exn)
| SetCurrentStageIndex (i : nat)
| SetLiveActive (b : bool)
| SetLiveTyped (fileName content language : jsstring) (progress : Z)
| SetGenerationComplete (b : bool)
| SetIsGenerationMode (b : bool)
| AppendMessage (m : ChatMessage)
| SetInputValue (s : jsstring)
| Log (kind : LogKind) (msg : LogMsg)
| ConsoleError (e : exn)
| Fetch (endpoint : string) (prompt : jsstring)
| Wait (ms : N)
| FileGenerated (fileName content language : jsstring)
| CreateProject (files : list (jsstring * (jsstring * jsstring)))
                (prompt : jsstring).

(** The state after a call of a setter; the other events leave the
    state as it is. *)
Definition applyEvent (st : State) (e : Event) : State :=
  match e with
  | SetIsLoading b =>
      mkState (messages st) (inputValue st) b (currentStageIndex st)
              (liveCoding st) (isGenerationMode st) (generationComplete st)
              (error st)
  | SetError x =>
      mkState (messages st) (inputValue st) (isLoading st)
              (currentStageIndex st) (liveCoding st) (isGenerationMode st)
              (generationComplete st) x
  | SetCurrentStageIndex i =>
      mkState (messages st) (inputValue st) (isLoading st) i
              (liveCoding st) (isGenerationMode st) (generationComplete st)
              (error st)
  | SetLiveActive b =>
      let lc := liveCoding st in
      mkState (messages st) (inputValue st) (isLoading st)
              (currentStageIndex st)
              (mkLive (lc_fileName lc) (lc_content lc) b (lc_language lc)
                      (lc_progress lc))
              (isGenerationMode st) (generationComplete st) (error st)
  | SetLiveTyped f c l p =>
      mkState (messages st) (inputValue st) (isLoading st)
              (currentStageIndex st) (mkLive f c true l p)
              (isGenerationMode st) (generationComplete st) (error st)
  | SetGenerationComplete b =>
      mkState (messages st) (inputValue st) (isLoading st)
              (currentStageIndex st) (liveCoding st) (isGenerationMode st)
              b (error st)
  | SetIsGenerationMode b =>
      mkState (messages st) (inputValue st) (isLoading st)
              (currentStageIndex st) (liveCoding st) b
              (generationComplete st) (error st)
  | AppendMessage m =>
      mkState (messages st ++ [m]) (inputValue st) (isLoading st)
              (currentStageIndex st) (liveCoding st) (isGenerationMode st)
              (generationComplete st) (error st)
  | SetInputValue s =>
      mkState (messages st) s (isLoading st) (currentStageIndex st)
              (liveCoding st) (isGenerationMode st) (generationComplete st)
              (error st)
  | _ => st
  end.

Definition applyEvents (st : State) (t : list Event) : State :=
  fold_left applyEvent t st.

Local Open Scope eff_scope.

Definition H := M Event.

(** [fetch] followed by the reading of the body: the request is
    counted and its outcome is the backend's. *)
Definition request (env : Env) (endpoint : string) (prompt : jsstring)
  : H NetOutcome :=
  fun w =>
    ([Fetch endpoint prompt],
     mkWorld (S (fetches w)) (awaits w) (cancelled w) (button w)
             (calls w),
     Done (net env (fetches w))).

(** The [for] loop of [makeAPICall]: [remaining] iterations are left,
    the next one is [attempt]. *)
Fixpoint apiLoop (env : Env) (endpoint : string) (data : jsstring)
         (retries remaining attempt : nat) : H (option jsstring) :=
  match remaining with
  | 0 => throw MaxRetries
  | S remaining' =>
      catch
        (r <- request env endpoint data ;;
         match r with
         | NetDown m => throw (Rejection m)
         | Status s => throw (HttpError s)
         | Malformed m => throw (Rejection m)
         | Reply response => ret response
         end)
        (fun e =>
           if attempt =? retries then throw e
           else
             emit (Wait (1000 * N.of_nat attempt)) ;;
             apiLoop env endpoint data retries remaining' (S attempt))
  end.

(** [makeAPICall(endpoint, data)], with the default [retries = 3]; the
    value is the field [response] of the result. *)
Definition makeAPICall (env : Env) (endpoint : string) (data : jsstring)
  : H (option jsstring) :=
  apiLoop env endpoint data 3 3 1.

(** [chunks.slice(i, j)] *)
Definition slice (i j : nat) (l : jsstring) : jsstring :=
  firstn (j - i) (skipn i l).

(** [Math.round], as the source names it. *)
Definition mathRound (q : Q) : Z := Js.mathRound q.

(** [(i / chunks.length) * 100]: the quotient is rounded to a double,
    and so is the product.  (Called with [i < len] only; JavaScript
    gives [NaN] for 0 / 0.) *)
Definition percent (i len : nat) : Q :=
  numMul (numDiv (ofIndex i) (ofIndex len)) (inject_Z 100).

(** The loop of [simulateTyping]; the fuel bounds the iterations and
    the length of the text is enough. *)
Fixpoint typingLoop (fuel i : nat) (chunks currentContent : jsstring)
         (fileName language : jsstring) : H unit :=
  match fuel with
  | 0 => ret tt
  | S fuel' =>
      if i <? length chunks then
        let currentContent' :=
          currentContent ++ slice i (i + CHUNK_SIZE) chunks in
        let progress := mathRound (percent i (length chunks)) in
        emit (SetLiveTyped fileName currentContent' language progress) ;;
        emit (Wait TYPING_SPEED) ;;
        typingLoop fuel' (i + CHUNK_SIZE) chunks currentContent'
                   fileName language
      else ret tt
  end.

Definition simulateTyping (code fileName language : jsstring) : H unit :=
  typingLoop (length code) 0 code [] fileName language.

(** The call [onFileGenerated(fileName, code, language)]. *)
Definition onFileGenerated (env : Env) (fileName code language : jsstring)
  : H unit :=
  emit (FileGenerated fileName code language) ;; callback env.

(** The body of the loop of [processGeneratedFiles], with the names
    pushed to [filesCreated] so far: the [try] with its [catch].  A
    block whose processing throws is reported to the console. *)
Definition processBlock (env : Env) (props : Props) (block : CodeBlock)
           (filesCreated : list jsstring) : H (list jsstring) :=
  catch
    ((if hasOnFileGenerated props
      then onFileGenerated env (fileName block) (code block) (language block)
      else ret tt) ;;
     let filesCreated' := filesCreated ++ [fileName block] in
     simulateTyping (code block) (fileName block) (language block) ;;
     emit (Wait 100) ;;
     ret filesCreated')
    (fun e =>
       emit (ConsoleError e) ;;
       emit (Log failure (SayFile (fileName block))) ;;
       ret filesCreated).

(** The loop of [processGeneratedFiles] over the blocks; it goes on
    with the next block whatever happened to the one before. *)
Fixpoint processLoop (env : Env) (props : Props) (blocks : list CodeBlock)
         (filesCreated : list jsstring) : H (list jsstring) :=
  match blocks with
  | [] => ret filesCreated
  | block :: rest =>
      filesCreated' <- processBlock env props block filesCreated ;;
      processLoop env props rest filesCreated'
  end.

Definition processGeneratedFiles (env : Env) (props : Props)
           (response userInput : jsstring) : H (list jsstring) :=
  let codeBlocks := parseCodeBlocks response in
  match codeBlocks with
  | [] =>
      emit (Log info (Say "No code blocks found in response")) ;;
      ret []
  | _ :: _ =>
      emit (Log info (SayCount (length codeBlocks))) ;;
      processLoop env props codeBlocks []
  end.

(** The files of [saveProject]: the block at each position where a
    file was created. *)
Fixpoint projectFiles (filesCreated : list jsstring)
         (codeBlocks : list CodeBlock)
  : list (jsstring * (jsstring * jsstring)) :=
  match codeBlocks, filesCreated with
  | block :: blocks, f :: files =>
      (f, (code block, language block)) :: projectFiles files blocks
  | _, _ => []
  end.

Definition saveProject (props : Props) (filesCreated : list jsstring)
           (codeBlocks : list CodeBlock) (userInput : jsstring) : H unit :=
  if negb (signedIn props) || (length filesCreated =? 0) then ret tt
  else
    catch
      (emit (CreateProject (projectFiles filesCreated codeBlocks)
                           userInput) ;;
       match createProjectFails props with
       | Some e => throw e
       | None =>
           emit (Log success (Say "Project automatically saved to dashboard"))
       end)
      (fun e =>
         emit (ConsoleError e) ;;
         emit (Log failure (Say "Failed to save project"))).

(** The scripted stages: all but the last, each followed by its delay. *)
Fixpoint stageLoop (stages : list GenerationStage) (i : nat) : H unit :=
  match stages with
  | [] => ret tt
  | stage :: rest =>
      emit (SetCurrentStageIndex i) ;;
      emit (Log info (Say (description stage))) ;;
      emit (Wait 800) ;;
      stageLoop rest (S i)
  end.

Definition fallbackResponse : jsstring :=
  str "I'd be happy to help! Could you provide more specific details about what you want me to build?".

(** [handleAIResponse]; [st] holds the values of the state the
    callback closes over. *)
Definition handleAIResponse (env : Env) (props : Props) (st : State)
           (userInput : jsstring) : H unit :=
  emit (SetIsLoading true) ;;
  emit (SetError None) ;;
  emit (SetCurrentStageIndex 0) ;;
  finally
    (catch
       ((if isGenerationMode st && negb (generationComplete st) then
           stageLoop (removelast GENERATION_STAGES) 0 ;;
           emit (SetCurrentStageIndex (length GENERATION_STAGES - 1)) ;;
           emit (SetLiveActive true) ;;
           response <- makeAPICall env "/api/ask" userInput ;;
           let aiResponse := orElse response fallbackResponse in
           let codeBlocks := parseCodeBlocks aiResponse in
           filesCreated <- processGeneratedFiles env props aiResponse userInput ;;
           emit (SetLiveActive false) ;;
           (if isGenerationMode st then
              emit (SetGenerationComplete true) ;;
              emit (SetIsGenerationMode false) ;;
              saveProject props filesCreated codeBlocks userInput ;;
              emit (AppendMessage
                      (mkMessage ai
                         (Completion (length filesCreated) (signedIn props))
                         TAnalysis (Some filesCreated))) ;;
              emit (Log success
                      (Say "Switched to chat mode for follow-up questions"))
            else ret tt)
         else
           response <- makeAPICall env "/api/chat" userInput ;;
           emit (AppendMessage
                   (mkMessage ai
                      match response with
                      | Some r => Text r
                      | None => NoText
                      end
                      TNormal None))) ;;
        emit (Log success (Say "Processing completed successfully!")))
       (fun e =>
          emit (ConsoleError e) ;;
          emit (SetError (Some e)) ;;
          emit (AppendMessage (mkMessage ai (ErrorNote e) TError None)) ;;
          emit (Log failure (SayError e))))
    (emit (SetIsLoading false) ;;
     emit (SetCurrentStageIndex 0) ;;
     emit (SetLiveActive false)).

(** [handleSubmit(message)]; [st] holds the values of the state the
    callback closes over. *)
Definition handleSubmit (env : Env) (props : Props) (st : State)
           (message : jsstring) : H unit :=
  match trim message with
  | [] => ret tt
  | _ :: _ =>
      if isLoading st then ret tt
      else
        emit (AppendMessage
                (mkMessage user (Text (trim message)) TNormal None)) ;;
        emit (SetInputValue []) ;;
        handleAIResponse env props st (trim message)
  end.

(** One submission, from the state [st] in the world [w]: the state
    once the handler has run and the setters are applied, the events,
    and the world after. *)
Definition submit (env : Env) (props : Props) (st : State) (w : World)
           (message : jsstring) : State * list Event * World :=
  let '(t, w', _) := handleSubmit env props st message w in
  (applyEvents st t, t, w').

(** A session: the submissions one after the other, each started when
    the one before is over. *)
Fixpoint session (env : Env) (props : Props) (st : State) (w : World)
         (inputs : list jsstring) : State * list Event * World :=
  match inputs with
  | [] => (st, [], w)
  | message :: rest =>
      let '(st1, t1, w1) := submit env props st w message in
      let '(st2, t2, w2) := session env props st1 w1 rest in
      (st2, t1 ++ t2, w2)
  end.

(** *** What is read off the events *)

(** The progress reported by the chunk updates, in order. *)
Definition typedProgress (t : list Event) : list Z :=
  flat_map (fun e => match e with
                     | SetLiveTyped _ _ _ p => [p]
                     | _ => []
                     end) t.

(** The files handed to [onFileGenerated], in order. *)
Definition filesOf (t : list Event)
  : list (jsstring * jsstring * jsstring) :=
  flat_map (fun e => match e with
                     | FileGenerated f c l => [(f, c, l)]
                     | _ => []
                     end) t.

(** The error messages appended to the log. *)
Definition errorsOf (t : list Event) : list ChatMessage :=
  flat_map (fun e => match e with
                     | AppendMessage m =>
                         match type m with TError => [m] | _ => [] end
                     | _ => []
                     end) t.

(** The requests sent and the delays awaited, in order. *)
Definition fetchesOf (t : list Event) : list string :=
  flat_map (fun e => match e with Fetch ep _ => [ep] | _ => [] end) t.

Definition waitsOf (t : list Event) : list N :=
  flat_map (fun e => match e with Wait ms => [ms] | _ => [] end) t.

(** The events before the first request. *)
Fixpoint untilFetch (t : list Event) : list Event :=
  match t with
  | [] => []
  | Fetch _ _ :: _ => []
  | e :: rest => e :: untilFetch rest
  end.

End V0.

(* ================================================================== *)
(** ** The second version of the component: file names and extraction *)
(* ================================================================== *)

Module V1.

(** [/(?:\/\/|\/\*|\#|<!--)\s*(?:filename:|file:)?\s*([a-zA-Z0-9._-]+\.[a-zA-Z0-9]+)/i] *)
Definition commentMarker : regex :=
  Alt (LitI (str "//"))
    (Alt (LitI (str "/*")) (Alt (LitI (str "#")) (LitI (str "<!--")))).

Definition fileWord : regex :=
  Alt (LitI (str "filename:")) (LitI (str "file:")).

Definition fileNameRegex : regex :=
  (commentMarker +++ Star isSpace +++ Opt fileWord +++ Star isSpace
   +++ Grp 1 (Plus isNameChar +++ Cls (N.eqb 46) +++ Plus isAlnum))%re.

(** [line.match(...)] and, on a match, [fileMatch[1]]. *)
Definition fileMatch (line : jsstring) : option jsstring :=
  match matchFirst fileNameRegex line with
  | Some mt => Some (V0.group 1 mt)
  | None => None
  end.

(** The [for ... of lines.slice(0, 5)] loop: the first line that
    matches returns. *)
Fixpoint firstFileMatch (lines : list jsstring) : option jsstring :=
  match lines with
  | [] => None
  | line :: rest =>
      match fileMatch line with
      | Some f => Some f
      | None => firstFileMatch rest
      end
  end.

Definition quoted (s : string) : jsstring := QUOTE :: str s ++ [QUOTE].

Definition generateFileName (codeBlock : jsstring) (index : nat)
  : jsstring :=
  let lines := split NL codeBlock in
  match firstFileMatch (firstn 5 lines) with
  | Some f => f
  | None =>
      if includes (str "<!DOCTYPE html") codeBlock
         || includes (str "<html") codeBlock
      then str "index.html"
      else if includes (str "package.json") codeBlock
              || includes (quoted "name") codeBlock
                 && includes (quoted "version") codeBlock
      then str "package.json"
      else if includes (str "body {") codeBlock
              || includes (str "@media") codeBlock
              || includes (str "font-family:") codeBlock
      then str "style.css"
      else if includes (str "const express") codeBlock
              || includes (str "app.listen") codeBlock
      then str "server.js"
      else if includes (str "class ") codeBlock
              && includes (str "constructor") codeBlock
      then str "app.js"
      else if includes (str "function ") codeBlock
              || includes (str "const ") codeBlock
              || includes (str "let ") codeBlock
      then str "script" ++ ofNat (index + 1) ++ str ".js"
      else str "file" ++ ofNat (index + 1) ++ str ".txt"
  end.

(** [/```(\w+)/] *)
Definition languageRegex : regex :=
  (Lit (str "```") +++ Grp 1 (Plus isWord))%re.

(** [/```\w*\n/] *)
Definition openerRegex : regex :=
  (Lit (str "```") +++ Star isWord +++ Cls (N.eqb NL))%re.

(** [/```$/] *)
Definition closerRegex : regex := (Lit (str "```") +++ Eos)%re.

(** A file handed to [onFileGenerated]. *)
Record GeneratedFile : Type := mkFile {
  gf_fileName : jsstring;
  gf_code : jsstring;
  gf_language : jsstring
}.

(** The body of the loop of [handleFileGeneration] for the block
    [codeBlocks[i]]. *)
Definition extractFile (block : jsstring) (i : nat) : GeneratedFile :=
  let language :=
    match matchFirst languageRegex block with
    | Some mt => V0.group 1 mt
    | None => str "text"
    end in
  let code :=
    replaceFirstEmpty closerRegex (replaceFirstEmpty openerRegex block) in
  let fileName := generateFileName code i in
  mkFile fileName code language.

(** [aiResponse.match(/```(\w+)?\n([\s\S]*?)```/g) || []] *)
Definition codeBlocksOf (aiResponse : jsstring) : list jsstring :=
  matchAll V0.codeBlockRegex aiResponse.

Fixpoint extractFrom (i : nat) (blocks : list jsstring)
  : list GeneratedFile :=
  match blocks with
  | [] => []
  | block :: rest => extractFile block i :: extractFrom (S i) rest
  end.

(** *** The session of the second version *)

Inductive Content : Type :=
| Text (s : jsstring)
| ErrorNote (e : exn).

(** The metadata of a message that reports files (the field
    [technologies] is a constant of the source and is left out). *)
Record Metadata : Type := mkMetadata {
  filesGenerated : list jsstring;
  estimatedLines : nat
}.

Record ChatMessage : Type := mkMessage {
  sender : Sender;
  content : Content;
  type : MsgType;
  metadata : option Metadata
}.

Record LiveCodingState : Type := mkLive {
  lc_fileName : jsstring;
  lc_content : jsstring;
  lc_isActive : bool;
  lc_language : jsstring;
  lc_progress : Q;
  lc_complexity : jsstring;
  lc_patterns : list jsstring
}.

Record State : Type := mkState {
  messages : list ChatMessage;
  inputValue : jsstring;
  isLoading : bool;
  currentStage : string;
  liveCoding : LiveCodingState;
  isGenerationMode : bool;
  generationComplete : bool;
  errorAlerts : list exn;
  hasCancelToken : bool;
  retryCount : nat
}.

(** The greeting the log starts with (its first sentence stands for
    the whole text here; no handler reads it). *)
Definition WELCOME : ChatMessage :=
  mkMessage ai
    (Text (str "Hey! What do you want to make today?"))
    TSystem None.

Definition initialState : State :=
  mkState [WELCOME] [] false "" (mkLive [] [] false [] 0%Q [] [])
          true false [] false 0.

Inductive Event : Type :=
| SetIsLoading (b : bool)
| ClearErrorAlerts
| AppendErrorAlert (e : exn)
| SetCancelToken (present : bool)
| SetCurrentStage (s : string)
| SetRetryCount (i : nat)
| SetLiveActive (b : bool)
| SetLiveBegin (fileName language : jsstring)
| SetLiveChunk (content : jsstring) (progress : Q)
| SetGenerationComplete (b : bool)
| SetIsGenerationMode (b : bool)
| AppendMessage (m : ChatMessage)
| SetInputValue (s : jsstring)
| Log (kind : LogKind) (msg : LogMsg)
| ConsoleError (e : exn)
| Fetch (endpoint : string) (prompt : jsstring)
| Wait (ms : N)
| FileGenerated (file : GeneratedFile)
| Abort.

Definition withLive (st : State) (lc : LiveCodingState) : State :=
  mkState (messages st) (inputValue st) (isLoading st) (currentStage st)
          lc (isGenerationMode st) (generationComplete st)
          (errorAlerts st) (hasCancelToken st) (retryCount st).

Definition applyEvent (st : State) (e : Event) : State :=
  match e with
  | SetIsLoading b =>
      mkState (messages st) (inputValue st) b (currentStage st)
              (liveCoding st) (isGenerationMode st) (generationComplete st)
              (errorAlerts st) (hasCancelToken st) (retryCount st)
  | ClearErrorAlerts =>
      mkState (messages st) (inputValue st) (isLoading st)
              (currentStage st) (liveCoding st) (isGenerationMode st)
              (generationComplete st) [] (hasCancelToken st)
              (retryCount st)
  | AppendErrorAlert x =>
      mkState (messages st) (inputValue st) (isLoading st)
              (currentStage st) (liveCoding st) (isGenerationMode st)
              (generationComplete st) (errorAlerts st ++ [x])
              (hasCancelToken st) (retryCount st)
  | SetCancelToken b =>
      mkState (messages st) (inputValue st) (isLoading st)
              (currentStage st) (liveCoding st) (isGenerationMode st)
              (generationComplete st) (errorAlerts st) b (retryCount st)
  | SetCurrentStage s =>
      mkState (messages st) (inputValue st) (isLoading st) s
              (liveCoding st) (isGenerationMode st) (generationComplete st)
              (errorAlerts st) (hasCancelToken st) (retryCount st)
  | SetRetryCount i =>
      mkState (messages st) (inputValue st) (isLoading st)
              (currentStage st) (liveCoding st) (isGenerationMode st)
              (generationComplete st) (errorAlerts st) (hasCancelToken st)
              i
  | SetLiveActive b =>
      let lc := liveCoding st in
      withLive st
        (mkLive (lc_fileName lc) (lc_content lc) b (lc_language lc)
                (lc_progress lc) (lc_complexity lc) (lc_patterns lc))
  | SetLiveBegin f l =>
      let lc := liveCoding st in
      withLive st
        (mkLive f [] true l (lc_progress lc) (lc_complexity lc)
                (lc_patterns lc))
  | SetLiveChunk c p =>
      let lc := liveCoding st in
      withLive st
        (mkLive (lc_fileName lc) c (lc_isActive lc) (lc_language lc) p
                (lc_complexity lc) (lc_patterns lc))
  | SetGenerationComplete b =>
      mkState (messages st) (inputValue st) (isLoading st)
              (currentStage st) (liveCoding st) (isGenerationMode st) b
              (errorAlerts st) (hasCancelToken st) (retryCount st)
  | SetIsGenerationMode b =>
      mkState (messages st) (inputValue st) (isLoading st)
              (currentStage st) (liveCoding st) b (generationComplete st)
              (errorAlerts st) (hasCancelToken st) (retryCount st)
  | AppendMessage m =>
      mkState (messages st ++ [m]) (inputValue st) (isLoading st)
              (currentStage st) (liveCoding st) (isGenerationMode st)
              (generationComplete st) (errorAlerts st) (hasCancelToken st)
              (retryCount st)
  | SetInputValue s =>
      mkState (messages st) s (isLoading st) (currentStage st)
              (liveCoding st) (isGenerationMode st) (generationComplete st)
              (errorAlerts st) (hasCancelToken st) (retryCount st)
  | _ => st
  end.

Definition applyEvents (st : State) (t : list Event) : State :=
  fold_left applyEvent t st.

Local Open Scope eff_scope.

Definition H := M Event.

(** [cancelGeneration], run by a press of the Cancel button while a
    submission is in flight: the token and the abort controller of the
    submission are there. *)
Definition cancelGeneration : H unit :=
  w <- getWorld ;;
  setWorld (mkWorld (fetches w) (awaits w) true false (calls w)) ;;
  emit (Log info (Say "Generation cancelled by user")) ;;
  emit Abort ;;
  emit (SetIsLoading false) ;;
  emit (SetCurrentStage "") ;;
  emit (SetLiveActive false).

(** A suspension of the handler ([await]): the user may press Cancel
    while the button is on the screen. *)
Definition suspend (env : Env) : H unit :=
  w <- getWorld ;;
  setWorld (mkWorld (fetches w) (S (awaits w)) (cancelled w) (button w)
                    (calls w)) ;;
  if button w && click env (awaits w) then cancelGeneration else ret tt.

(** [await new Promise(resolve => setTimeout(resolve, ms))] *)
Definition sleep (env : Env) (ms : N) : H unit :=
  emit (Wait ms) ;; suspend env.

(** [await fetch(...)], the test of [response.ok] and
    [await response.json()]; the value is the field [response]. *)
Definition request (env : Env) (endpoint : string) (prompt : jsstring)
  : H (option jsstring) :=
  w <- getWorld ;;
  setWorld (mkWorld (S (fetches w)) (awaits w) (cancelled w) (button w)
             (calls w)) ;;
  emit (Fetch endpoint prompt) ;;
  suspend env ;;
  match net env (fetches w) with
  | NetDown m => throw (Rejection m)
  | Status s => throw (HttpError s)
  | Malformed m => suspend env ;; throw (Rejection m)
  | Reply response => suspend env ;; ret response
  end.

(** The loop of [retry]: [remaining] iterations are left, the next one
    is [i]. *)
Fixpoint retryLoop (env : Env) (maxRetries remaining i : nat)
         (fn : H unit) : H unit :=
  match remaining with
  | 0 => ret tt
  | S remaining' =>
      catch
        (emit (SetRetryCount i) ;; fn)
        (fun e =>
           if i =? maxRetries then throw e
           else
             sleep env (1000 * 2 ^ N.of_nat i) ;;
             retryLoop env maxRetries remaining' (S i) fn)
  end.

(** [retry(fn)] of [useRetry(maxRetries)] *)
Definition retry (env : Env) (maxRetries : nat) (fn : H unit) : H unit :=
  retryLoop env maxRetries (S maxRetries) 0 fn.

Definition codeKeywords : list string :=
  [ "create"; "build"; "make"; "generate"; "develop"; "write"; "code";
    "app"; "application"; "website"; "web"; "function"; "component";
    "class"; "module"; "script"; "program"; "todo"; "calculator"; "game";
    "dashboard"; "form"; "login"; "signup"; "api"; "database"; "add";
    "implement"; "design"; "setup"; "configure" ]%string.

Definition isCodeGenerationRequest (input : jsstring) : bool :=
  let lowerInput := trim (toLowerCase input) in
  existsb (fun keyword => includes (str keyword) lowerInput) codeKeywords.

Definition fallbackGeneration : jsstring :=
  str "I'd be happy to help! Could you provide more specific details?".

Definition fallbackChat : jsstring :=
  str "I received your message but couldn't generate a response. Please try again.".

(** The call [onFileGenerated(fileName, code, language)]. *)
Definition onFileGenerated (env : Env) (file : GeneratedFile) : H unit :=
  emit (FileGenerated file) ;; callback env.

(** The loop of [handleFileGeneration] over [codeBlocks], from the
    position [i]; the value is [filesCreated]. *)
Fixpoint fileLoop (env : Env) (hasOnFileGenerated : bool) (i : nat)
         (blocks : list jsstring) : H (list jsstring) :=
  match blocks with
  | [] => ret []
  | block :: rest =>
      w <- getWorld ;;
      if cancelled w then ret []
      else
        let file := extractFile block i in
        (if hasOnFileGenerated then onFileGenerated env file else ret tt) ;;
        created <- fileLoop env hasOnFileGenerated (S i) rest ;;
        ret (gf_fileName file :: created)
  end.

(** [codeBlocks.reduce((acc, block) => acc + block.split('\n').length, 0)] *)
Definition lineCount (blocks : list jsstring) : nat :=
  fold_left (fun acc block => acc + length (split NL block)) blocks 0.

Definition handleFileGeneration (env : Env) (hasOnFileGenerated : bool)
           (userInput : jsstring) : H unit :=
  emit (SetCurrentStage "Generating code...") ;;
  emit (Log info (Say "Generating code locally...")) ;;
  response <- request env "/api/claude-proxy" userInput ;;
  emit (Log success (Say "Response received successfully")) ;;
  let aiResponse := orElse response fallbackGeneration in
  let codeBlocks := codeBlocksOf aiResponse in
  filesCreated <- fileLoop env hasOnFileGenerated 0 codeBlocks ;;
  emit (AppendMessage
          (mkMessage ai (Text aiResponse)
             (match codeBlocks with [] => TNormal | _ :: _ => TCode end)
             (match filesCreated with
              | [] => None
              | _ :: _ =>
                  Some (mkMetadata filesCreated (lineCount codeBlocks))
              end))) ;;
  match filesCreated with
  | [] => ret tt
  | _ :: _ =>
      emit (SetGenerationComplete true) ;;
      emit (SetIsGenerationMode false)
  end.

Definition handleChatResponse (env : Env) (userInput : jsstring) : H unit :=
  emit (Log info (Say "Generating chat response...")) ;;
  response <- request env "/api/claude-proxy" userInput ;;
  emit (Log success (Say "Chat response received successfully")) ;;
  emit (AppendMessage
          (mkMessage ai (Text (orElse response fallbackChat)) TNormal None)).

(** The function handed to [retry] by [handleAIResponse]. *)
Definition attempt (env : Env) (hasOnFileGenerated : bool)
           (userInput : jsstring) : H unit :=
  w <- getWorld ;;
  if cancelled w then throw RequestCancelled
  else if isCodeGenerationRequest userInput
       then handleFileGeneration env hasOnFileGenerated userInput
       else handleChatResponse env userInput.

(** [handleAIResponse]: a new token and a new abort controller, the
    retried function, and the handling of what it throws. *)
Definition handleAIResponse (env : Env) (hasOnFileGenerated : bool)
           (userInput : jsstring) : H unit :=
  emit (SetIsLoading true) ;;
  emit ClearErrorAlerts ;;
  w <- getWorld ;;
  setWorld (mkWorld (fetches w) (awaits w) false true (calls w)) ;;
  emit (SetCancelToken true) ;;
  emit (Log info (Say "AI processing your request...")) ;;
  finally
    (catch
       (retry env 3 (attempt env hasOnFileGenerated userInput) ;;
        emit (Log success (Say "Processing completed successfully!")))
       (fun e =>
          emit (ConsoleError e) ;;
          emit (AppendErrorAlert e) ;;
          emit (AppendMessage (mkMessage ai (ErrorNote e) TError None)) ;;
          emit (Log failure (SayError e))))
    (emit (SetIsLoading false) ;;
     emit (SetCurrentStage "") ;;
     emit (SetLiveActive false) ;;
     emit (SetCancelToken false) ;;
     w' <- getWorld ;;
     setWorld (mkWorld (fetches w') (awaits w') (cancelled w') false
                       (calls w'))).

Definition handleSubmit (env : Env) (hasOnFileGenerated : bool)
           (st : State) (message : jsstring) : H unit :=
  match trim message with
  | [] => ret tt
  | _ :: _ =>
      if isLoading st then ret tt
      else
        emit (AppendMessage
                (mkMessage user (Text (trim message)) TNormal None)) ;;
        emit (SetInputValue []) ;;
        handleAIResponse env hasOnFileGenerated (trim message)
  end.

Definition submit (env : Env) (hasOnFileGenerated : bool) (st : State)
           (w : World) (message : jsstring) : State * list Event * World :=
  let '(t, w', _) := handleSubmit env hasOnFileGenerated st message w in
  (applyEvents st t, t, w').

Fixpoint session (env : Env) (hasOnFileGenerated : bool) (st : State)
         (w : World) (inputs : list jsstring)
  : State * list Event * World :=
  match inputs with
  | [] => (st, [], w)
  | message :: rest =>
      let '(st1, t1, w1) := submit env hasOnFileGenerated st w message in
      let '(st2, t2, w2) := session env hasOnFileGenerated st1 w1 rest in
      (st2, t1 ++ t2, w2)
  end.

(** [(i / chunks.length) * 100] of [Math.min((i / chunks.length) * 100,
    100)]: the quotient is rounded to a double, and so is the product.
    (Called with [i < len] only.) *)
Definition percent (i len : nat) : Q :=
  numMul (numDiv (ofIndex i) (ofIndex len)) (inject_Z 100).

Definition mathMin (a b : Q) : Q := Js.mathMin a b.

(** The loop of [simulateTyping]; the fuel bounds the iterations and
    the length of the text is enough. *)
Fixpoint typingLoop (env : Env) (fuel i : nat)
         (chunks currentContent : jsstring) : H unit :=
  match fuel with
  | 0 => ret tt
  | S fuel' =>
      if i <? length chunks then
        let currentContent' :=
          currentContent ++ V0.slice i (i + 20) chunks in
        let progress :=
          mathMin (percent i (length chunks)) (inject_Z 100) in
        emit (SetLiveChunk currentContent' progress) ;;
        sleep env 5 ;;
        typingLoop env fuel' (i + 20) chunks currentContent'
      else ret tt
  end.

Definition simulateTyping (env : Env) (code fileName language : jsstring)
  : H unit :=
  emit (SetLiveBegin fileName language) ;;
  typingLoop env (length code) 0 code [].

(** *** What is read off the events *)

(** The progress and the buffer written by the chunk updates. *)
Definition chunkProgress (t : list Event) : list Q :=
  flat_map (fun e => match e with SetLiveChunk _ p => [p] | _ => [] end) t.

Definition chunkContents (t : list Event) : list jsstring :=
  flat_map (fun e => match e with SetLiveChunk c _ => [c] | _ => [] end) t.

Definition filesOf (t : list Event) : list GeneratedFile :=
  flat_map (fun e => match e with FileGenerated f => [f] | _ => [] end) t.

Definition errorsOf (t : list Event) : list ChatMessage :=
  flat_map (fun e => match e with
                     | AppendMessage m =>
                         match type m with TError => [m] | _ => [] end
                     | _ => []
                     end) t.

Definition fetchesOf (t : list Event) : list string :=
  flat_map (fun e => match e with Fetch ep _ => [ep] | _ => [] end) t.

Definition waitsOf (t : list Event) : list N :=
  flat_map (fun e => match e with Wait ms => [ms] | _ => [] end) t.

(** The attempts made: the values given to [setRetryCount]. *)
Definition attemptsOf (t : list Event) : list nat :=
  flat_map (fun e => match e with SetRetryCount i => [i] | _ => [] end) t.

(** *** The helpers of the component outside the handlers *)

Record GenerationStage : Type := mkStage {
  gs_id : string;
  gs_name : string;
  gs_description : string;
  gs_progress : nat;
  gs_estimatedTime : nat
}.

Definition GENERATION_STAGES : list GenerationStage :=
  [ mkStage "analysis" "Analyzing Requirements"
            "Understanding project scope and complexity" 0 2;
    mkStage "architecture" "Designing Architecture"
            "Creating system design and patterns" 15 3;
    mkStage "structure" "Setting Up Structure"
            "Creating file structure and configurations" 30 2;
    mkStage "frontend" "Building Frontend"
            "Generating UI components and styles" 45 8;
    mkStage "backend" "Creating Backend"
            "Implementing server logic and APIs" 70 6;
    mkStage "integration" "Integration & Testing"
            "Connecting components and testing" 85 4;
    mkStage "optimization" "Final Optimization"
            "Performance tuning and cleanup" 95 2;
    mkStage "complete" "Generation Complete" "Ready for deployment" 100 0 ].

(** [useProgress(stages, currentStage)]: the progress of the stage
    whose [id] is [currentStage], 0 when there is none. *)
Definition useProgress (stages : list GenerationStage)
           (currentStage : string) : nat :=
  match find (fun s => String.eqb (gs_id s) currentStage) stages with
  | Some stage => gs_progress stage
  | None => 0
  end.

(** [currentProgress], as the component computes it from its state. *)
Definition currentProgress (st : State) : nat :=
  useProgress GENERATION_STAGES (currentStage st).

(** [isVisible] of the progress indicator. *)
Definition progressVisible (st : State) : bool :=
  isLoading st && negb (String.eqb (currentStage st) "").

(** [getLanguageFromFileName]: [fileName.split('.').pop()] in lower
    case, then the [switch]. *)
Definition getLanguageFromFileName (fileName : jsstring) : jsstring :=
  let ext := toLowerCase (last (split 46 fileName) []) in
  if eqs ext (str "js") then str "javascript"
  else if eqs ext (str "ts") then str "typescript"
  else if eqs ext (str "tsx") then str "tsx"
  else if eqs ext (str "jsx") then str "jsx"
  else if eqs ext (str "html") then str "html"
  else if eqs ext (str "css") then str "css"
  else if eqs ext (str "py") then str "python"
  else if eqs ext (str "json") then str "json"
  else str "text".

End V1.
(* ================================================================== *)
(** ** The right panel: the console the chat writes to *)
(* ================================================================== *)

Module Panel.

(** A line of the console (the time of day it carries is left out). *)
Record ConsoleEntry : Type := mkEntry {
  ce_message : LogMsg;
  ce_type : LogKind
}.

(** The initial value of [consoleOutput]. *)
Definition initialConsole : list ConsoleEntry :=
  [ mkEntry (Say "$ Ready") success ].

(** [handleClearConsole] *)
Definition handleClearConsole (prev : list ConsoleEntry)
  : list ConsoleEntry :=
  [ mkEntry (Say "$ Console cleared") info ].

(** [addToConsole(message, type = 'info')] *)
Definition addToConsole (message : LogMsg) (type : option LogKind)
           (prev : list ConsoleEntry) : list ConsoleEntry :=
  prev ++ [ mkEntry message
                    match type with Some k => k | None => info end ].

(** What the user and the chat do to the console. *)
Inductive ConsoleOp : Type :=
| Clear
| Add (message : LogMsg) (type : option LogKind).

Definition step (c : list ConsoleEntry) (op : ConsoleOp)
  : list ConsoleEntry :=
  match op with
  | Clear => handleClearConsole c
  | Add message type => addToConsole message type c
  end.

Definition run (ops : list ConsoleOp) : list ConsoleEntry :=
  fold_left step ops initialConsole.

(** The calls of [addToConsole] for the given messages, and the lines
    they add. *)
Definition adding (lines : list (LogMsg * option LogKind))
  : list ConsoleOp :=
  map (fun l => Add (fst l) (snd l)) lines.

Definition entries (lines : list (LogMsg * option LogKind))
  : list ConsoleEntry :=
  map (fun l => mkEntry (fst l)
                        match snd l with Some k => k | None => info end)
      lines.

(** The panel mounts the chat with [project] and [onConsoleLog] only:
    no [onFileGenerated]. *)
Definition hasOnFileGenerated : bool := false.

(** The calls of [onConsoleLog = addToConsole] a chat of the second
    version makes, read off its events. *)
Definition consoleOps (t : list V1.Event) : list ConsoleOp :=
  flat_map (fun e => match e with
                     | V1.Log k m => [Add m (Some k)]
                     | _ => []
                     end) t.

End Panel.

(* ================================================================== *)
(** ** Shapes of texts the properties speak about *)
(* ================================================================== *)

Module Shape.

Definition TICK : N := 96%N.

(** The triple backtick. *)
Definition fence : jsstring := str "```".

(** What stops a greedy repetition of the class [p]: the end of the
    text or a code unit outside [p]. *)
Definition stops (p : N -> bool) (s : jsstring) : Prop :=
  match s with
  | [] => True
  | x :: _ => p x = false
  end.

Definition noFence (s : jsstring) : Prop := includes fence s = false.

Definition noTickEnd (s : jsstring) : Prop := last s 0%N <> TICK.

(** A well-formed fenced block with the text that precedes it: the
    text [gap] holds no fence; the tag is made of word characters and
    may be empty; the content [body] holds no fence and does not end in
    a backtick, so that the closer is the first fence after the opener. *)
Record Fenced : Type := mkFenced {
  gap : jsstring;
  tag : jsstring;
  body : jsstring
}.

Definition wellFormed (b : Fenced) : Prop :=
  noFence (gap b) /\ forallb isWord (tag b) = true
  /\ noFence (body b) /\ noTickEnd (body b).

Definition blockText (b : Fenced) : jsstring :=
  fence ++ tag b ++ NL :: body b ++ fence.

Definition render (b : Fenced) : jsstring := gap b ++ blockText b.

(** A text after the last block: no fence at all, or a single opener
    (fence, tag, newline) that no fence closes before the end. *)
Definition openEnded (tail : jsstring) : Prop :=
  noFence tail \/
  exists g t junk,
    tail = g ++ fence ++ t ++ NL :: junk
    /\ noFence g /\ forallb isWord t = true /\ noFence junk.

Definition document (bs : list Fenced) (tail : jsstring) : jsstring :=
  flat_map render bs ++ tail.

(** The language of a block: the tag, or the sentinel. *)
Definition languageOf (b : Fenced) : jsstring :=
  match tag b with
  | [] => str "text"
  | _ :: _ => tag b
  end.

(** What the first version is to return for the blocks [bs]: language
    and trimmed content, in order. *)
Definition expectedBlocks (bs : list Fenced) : list (jsstring * jsstring) :=
  map (fun b => (languageOf b, trim (body b))) bs.

(** What the loop of the second version hands on for the blocks [bs],
    the first of them at position [i]: the content as it stands. *)
Fixpoint expectedFiles (i : nat) (bs : list Fenced)
  : list V1.GeneratedFile :=
  match bs with
  | [] => []
  | b :: rest =>
      V1.mkFile (V1.generateFileName (body b) i) (body b) (languageOf b)
      :: expectedFiles (S i) rest
  end.

(** *** Lines that carry a file name *)

Definition DOT : N := 46%N.

Definition markers : list jsstring :=
  [str "//"; str "/*"; str "#"; str "<!--"].

Definition fileWords : list jsstring := [[]; str "filename:"; str "file:"].

(** The code units a comment marker can begin with: [/], [#] and [<]. *)
Definition markerStart (c : N) : bool :=
  ((c =? 47) || (c =? 35) || (c =? 60))%N.

(** A line made of: a text [before] the marker, a comment marker, white
    space, an optional [filename:] or [file:], white space, a token
    [stem.ext] and what follows the token. *)
Record NamedLine : Type := mkNamedLine {
  before : jsstring;
  marker : jsstring;
  ws1 : jsstring;
  word : jsstring;
  ws2 : jsstring;
  stem : jsstring;
  ext : jsstring;
  after : jsstring
}.

Definition nameOf (l : NamedLine) : jsstring := stem l ++ DOT :: ext l.

Definition lineText (l : NamedLine) : jsstring :=
  before l ++ marker l ++ ws1 l ++ word l ++ ws2 l ++ nameOf l ++ after l.

(** The parts are what they are called; the token ends where the name
    characters end. *)
Definition namedLine (l : NamedLine) : Prop :=
  In (marker l) markers /\ forallb isSpace (ws1 l) = true
  /\ In (word l) fileWords /\ forallb isSpace (ws2 l) = true
  /\ stem l <> [] /\ forallb isNameChar (stem l) = true
  /\ ext l <> [] /\ forallb isAlnum (ext l) = true
  /\ stops isNameChar (after l).

(** *** Sequences of progress values *)

Fixpoint nondecreasingQ (ps : list Q) : Prop :=
  match ps with
  | p :: (q :: _) as rest => Qle p q /\ nondecreasingQ rest
  | _ => True
  end.

Fixpoint nondecreasingZ (ps : list Z) : Prop :=
  match ps with
  | p :: (q :: _) as rest => Z.le p q /\ nondecreasingZ rest
  | _ => True
  end.

(** The positions at which the loop of [simulateTyping] writes a chunk:
    [i], [i + step], ... below [len], at most [fuel] of them. *)
Fixpoint positions (fuel i step len : nat) : list nat :=
  match fuel with
  | 0 => []
  | S fuel' =>
      if i <? len then i :: positions fuel' (i + step) step len else []
  end.

(** The buffers the loop of the second version's [simulateTyping]
    writes, one per chunk. *)
Fixpoint buffers (fuel i : nat) (chunks cur : jsstring) : list jsstring :=
  match fuel with
  | 0 => []
  | S fuel' =>
      if i <? length chunks then
        let cur' := cur ++ V0.slice i (i + 20) chunks in
        cur' :: buffers fuel' (i + 20) chunks cur'
      else []
  end.

(** The events of a submission of the first version in generation mode
    up to its request: the three setters of [handleAIResponse], the
    four scripted stages with their delays, the last stage and the
    live display. *)
Definition scripted : list V0.Event :=
  [ V0.SetIsLoading true; V0.SetError None; V0.SetCurrentStageIndex 0;
    V0.SetCurrentStageIndex 0;
    V0.Log info (Say "Understanding your project needs"); V0.Wait 800;
    V0.SetCurrentStageIndex 1;
    V0.Log info (Say "Creating multi-language structure"); V0.Wait 800;
    V0.SetCurrentStageIndex 2;
    V0.Log info (Say "Creating comprehensive codebase"); V0.Wait 800;
    V0.SetCurrentStageIndex 3;
    V0.Log info (Say "Applying best practices"); V0.Wait 800;
    V0.SetCurrentStageIndex 4; V0.SetLiveActive true ].

(** *** The events of a submission of the first version *)

(** No event takes the session back to generation mode. *)
Definition keepsMode0 (e : V0.Event) : Prop :=
  match e with
  | V0.SetIsGenerationMode b => b = false
  | V0.SetGenerationComplete b => b = true
  | _ => True
  end.

(** The events of the chat branch: no stage, no live display switched
    on, no typing, no file, no project, no change of mode, no request
    to the generation endpoint. *)
Definition chatEvent0 (e : V0.Event) : Prop :=
  match e with
  | V0.SetCurrentStageIndex i => i = 0
  | V0.SetLiveActive b => b = false
  | V0.Fetch ep _ => ep = "/api/chat"%string
  | V0.SetLiveTyped _ _ _ _ | V0.SetGenerationComplete _
  | V0.SetIsGenerationMode _ | V0.FileGenerated _ _ _
  | V0.CreateProject _ _ => False
  | _ => True
  end.

(** The events after the reply is read: no request, no error message. *)
Definition localEvent0 (e : V0.Event) : Prop :=
  match e with
  | V0.Fetch _ _ => False
  | V0.AppendMessage m => V0.type m <> TError
  | _ => True
  end.

(** The events of [makeAPICall]: requests and backoff delays. *)
Definition apiEvent0 (e : V0.Event) : Prop :=
  match e with
  | V0.Fetch _ _ | V0.Wait _ => True
  | _ => False
  end.

(** What [onFileGenerated] is given for a block. *)
Definition blockFile (b : V0.CodeBlock) : jsstring * jsstring * jsstring :=
  (V0.fileName b, V0.code b, V0.language b).

(** The backoff delays of [makeAPICall] after [k] failed attempts, the
    first of them being [attempt]. *)
Definition backoff0 (attempt k : nat) : list N :=
  map (fun a => (1000 * N.of_nat a)%N) (seq attempt k).

(** The events of the [finally] and of the [catch] of the first
    version's [handleAIResponse]. *)
Definition closing0 : list V0.Event :=
  [ V0.SetIsLoading false; V0.SetCurrentStageIndex 0; V0.SetLiveActive false ].

Definition errorMessage0 (e : exn) : V0.ChatMessage :=
  V0.mkMessage ai (V0.ErrorNote e) TError None.

Definition failureEvents0 (e : exn) : list V0.Event :=
  [ V0.ConsoleError e; V0.SetError (Some e);
    V0.AppendMessage (errorMessage0 e); V0.Log failure (SayError e) ].

(** The events of the first version's [handleAIResponse] before its
    request, the endpoint of the request, and what is known of the
    events [tl] between the request and the [finally]: in generation
    mode the setters, the stages and the live display come first and
    the reply is turned into files; in chat mode three setters come
    first and the reply is shown. *)
Definition intro0 (gen : bool) : list V0.Event :=
  if gen then scripted
  else [V0.SetIsLoading true; V0.SetError None; V0.SetCurrentStageIndex 0].

Definition endpoint0 (gen : bool) : string :=
  if gen then "/api/ask"%string else "/api/chat"%string.

Definition afterReply0 (props : V0.Props) (gen : bool)
           (r : option jsstring) (tl : list V0.Event) : Prop :=
  Forall localEvent0 tl
  /\ if gen then
       In (V0.SetGenerationComplete true) tl
       /\ In (V0.SetIsGenerationMode false) tl
       /\ V0.filesOf tl
          = if V0.hasOnFileGenerated props
            then map blockFile
                     (V0.parseCodeBlocks (orElse r V0.fallbackResponse))
            else []
     else V0.filesOf tl = [] /\ Forall chatEvent0 tl.

(** The events of the first version's [handleSubmit] before it calls
    [handleAIResponse] with the trimmed message. *)
Definition userEvents0 (message : jsstring) : list V0.Event :=
  [ V0.AppendMessage (V0.mkMessage user (V0.Text (trim message)) TNormal None);
    V0.SetInputValue [] ].

(** *** The events of a submission of the second version *)

(** The events of an attempt before a reply is read: the stage text,
    the console lines, the request and what [cancelGeneration] does. *)
Definition attemptEvent (e : V1.Event) : bool :=
  match e with
  | V1.SetCurrentStage _ | V1.Log _ _ | V1.Fetch _ _ | V1.Abort => true
  | V1.SetIsLoading b | V1.SetLiveActive b => negb b
  | _ => false
  end.

(** The events of the network phase of a submission: those of the
    attempts, the retry counter and the backoff. *)
Definition netEvent (e : V1.Event) : bool :=
  match e with
  | V1.SetRetryCount _ | V1.Wait _ => true
  | _ => attemptEvent e
  end.

(** A call of [onFileGenerated]. *)
Definition handedOn (e : V1.Event) : bool :=
  match e with
  | V1.FileGenerated _ => true
  | _ => false
  end.

(** The events of an attempt that throws, whatever throws: the request
    fails, or the reply is read and a call of [onFileGenerated]
    throws. *)
Definition triedEvent (e : V1.Event) : bool :=
  attemptEvent e || handedOn e.

(** The events of the attempts that throw, with the retry counter and
    the backoff between them. *)
Definition retryEvent (e : V1.Event) : bool :=
  netEvent e || handedOn e.

(** A backend outcome that makes the request fail. *)
Definition failing (o : NetOutcome) : Prop :=
  match o with
  | Reply _ => False
  | _ => True
  end.

(** No call of [onFileGenerated] throws: the callback is not given, or
    it never throws. *)
Definition noThrow (env : Env) (hasOnFileGenerated : bool) : Prop :=
  hasOnFileGenerated = false \/ forall n, raises env n = None.

(** An attempt can only throw in its network phase: no call of
    [onFileGenerated] throws, or no request is answered. *)
Definition networkOnly (env : Env) (hasOnFileGenerated : bool) : Prop :=
  noThrow env hasOnFileGenerated \/ forall n, failing (net env n).

(** The backoff delays after [k] failed attempts, the first of them
    being attempt [i]: 1000 * 2^i, 1000 * 2^(i+1), ... *)
Definition backoff (i k : nat) : list N :=
  map (fun j => (1000 * 2 ^ N.of_nat j)%N) (seq i k).

(** The files the loop of [handleFileGeneration] creates from the
    reply [r]; none when the token is cancelled. *)
Definition filesFor (r : option jsstring) (isCancelled : bool)
  : list V1.GeneratedFile :=
  if isCancelled then []
  else V1.extractFrom 0 (V1.codeBlocksOf (orElse r V1.fallbackGeneration)).

Definition generationMessage (r : option jsstring) (isCancelled : bool)
  : V1.ChatMessage :=
  let aiResponse := orElse r V1.fallbackGeneration in
  let codeBlocks := V1.codeBlocksOf aiResponse in
  let filesCreated := map V1.gf_fileName (filesFor r isCancelled) in
  V1.mkMessage ai (V1.Text aiResponse)
    (match codeBlocks with [] => TNormal | _ :: _ => TCode end)
    (match filesCreated with
     | [] => None
     | _ :: _ => Some (V1.mkMetadata filesCreated (V1.lineCount codeBlocks))
     end).

(** The events of [handleFileGeneration] once the reply [r] is read:
    the local phase. *)
Definition generationLocal (hasOnFileGenerated : bool)
           (r : option jsstring) (isCancelled : bool) : list V1.Event :=
  [V1.Log success (Say "Response received successfully")]
  ++ (if hasOnFileGenerated
      then map V1.FileGenerated (filesFor r isCancelled) else [])
  ++ [V1.AppendMessage (generationMessage r isCancelled)]
  ++ match filesFor r isCancelled with
     | [] => []
     | _ :: _ => [V1.SetGenerationComplete true; V1.SetIsGenerationMode false]
     end.

(** The events of [handleChatResponse] once the reply [r] is read. *)
Definition chatLocal (r : option jsstring) : list V1.Event :=
  [ V1.Log success (Say "Chat response received successfully");
    V1.AppendMessage
      (V1.mkMessage ai (V1.Text (orElse r V1.fallbackChat)) TNormal None) ].

Definition localPhase (hasOnFileGenerated : bool) (userInput : jsstring)
           (r : option jsstring) (isCancelled : bool) : list V1.Event :=
  if V1.isCodeGenerationRequest userInput
  then generationLocal hasOnFileGenerated r isCancelled
  else chatLocal r.

(** The events of [handleAIResponse] before the attempts, after them,
    and in its [catch]. *)
Definition opening : list V1.Event :=
  [ V1.SetIsLoading true; V1.ClearErrorAlerts; V1.SetCancelToken true;
    V1.Log info (Say "AI processing your request...") ].

Definition closing : list V1.Event :=
  [ V1.SetIsLoading false; V1.SetCurrentStage ""; V1.SetLiveActive false;
    V1.SetCancelToken false ].

Definition errorMessage (e : exn) : V1.ChatMessage :=
  V1.mkMessage ai (V1.ErrorNote e) TError None.

Definition failureEvents (e : exn) : list V1.Event :=
  [ V1.ConsoleError e; V1.AppendErrorAlert e;
    V1.AppendMessage (errorMessage e); V1.Log failure (SayError e) ].

Definition successEvents : list V1.Event :=
  [ V1.Log success (Say "Processing completed successfully!") ].

(** The two ways a submission of the second version goes: every
    attempt throws and the error is reported, or an attempt reads the
    reply [r] and the local phase runs to its end, after [k] attempts
    that threw.  The attempts that throw hold events of the network
    phase only, unless a call of [onFileGenerated] throws. *)
Definition failedRun (env : Env) (hasOnFileGenerated : bool)
           (t : list V1.Event) : Prop :=
  exists e tn,
    t = opening ++ tn ++ failureEvents e ++ closing
    /\ forallb retryEvent tn = true
    /\ (networkOnly env hasOnFileGenerated -> forallb netEvent tn = true)
    /\ V1.waitsOf tn = backoff 0 3
    /\ V1.attemptsOf tn = [0; 1; 2; 3].

Definition succeededRun (env : Env) (hasOnFileGenerated : bool)
           (userInput : jsstring) (t : list V1.Event) : Prop :=
  exists t1 r c k,
    t = opening ++ t1
        ++ localPhase hasOnFileGenerated userInput r c
        ++ successEvents ++ closing
    /\ forallb retryEvent t1 = true
    /\ (networkOnly env hasOnFileGenerated -> forallb netEvent t1 = true)
    /\ (exists n, net env n = Reply r)
    /\ V1.waitsOf t1 = backoff 0 k
    /\ V1.attemptsOf t1 = seq 0 (S k)
    /\ k <= 3.

(** The two setters of the mode. *)
Definition flipEvent (e : V1.Event) : bool :=
  match e with
  | V1.SetGenerationComplete _ | V1.SetIsGenerationMode _ => true
  | _ => false
  end.

(** No event takes the session back to generation mode. *)
Definition keepsMode (e : V1.Event) : Prop :=
  match e with
  | V1.SetIsGenerationMode b => b = false
  | V1.SetGenerationComplete b => b = true
  | _ => True
  end.

(** A message that reports at least one created file. *)
Definition reportsFiles (e : V1.Event) : bool :=
  match e with
  | V1.AppendMessage m =>
      match V1.metadata m with
      | Some md => match V1.filesGenerated md with
                   | [] => false
                   | _ :: _ => true
                   end
      | None => false
      end
  | _ => false
  end.

(** The events of the local phase and after: no request, no backoff,
    no further attempt. *)
Definition settled (e : V1.Event) : bool :=
  match e with
  | V1.Fetch _ _ | V1.Wait _ | V1.SetRetryCount _ => false
  | _ => true
  end.

(** The events of the attempts that throw and before: no message of
    the assistant, no change of mode. *)
Definition unsettled (e : V1.Event) : bool :=
  match e with
  | V1.AppendMessage _
  | V1.SetGenerationComplete _ | V1.SetIsGenerationMode _ => false
  | _ => true
  end.

(** The events of [handleSubmit] before it calls [handleAIResponse]
    with the trimmed message: the message of the user and the cleared
    input. *)
Definition userEvents (message : jsstring) : list V1.Event :=
  [ V1.AppendMessage (V1.mkMessage user (V1.Text (trim message)) TNormal None);
    V1.SetInputValue [] ].

(** The events hold the flip: both fields are set, generation complete
    and chat mode, and neither is set again after. *)
Definition flipped (t : list V1.Event) : Prop :=
  exists a b,
    t = a ++ [V1.SetGenerationComplete true; V1.SetIsGenerationMode false] ++ b
    /\ existsb flipEvent b = false.

(** *** Content signatures, in the order of the rules *)

(** No line among the first five carries a match of the file-name
    expression. *)
Definition noFileComment (codeBlock : jsstring) : Prop :=
  forall line, In line (firstn 5 (split NL codeBlock)) ->
               V1.fileMatch line = None.

Definition htmlSig (c : jsstring) : bool :=
  includes (str "<!DOCTYPE html") c || includes (str "<html") c.

(** The manifest rule of the specification: both fields. *)
Definition manifestFields (c : jsstring) : bool :=
  includes (V1.quoted "name") c && includes (V1.quoted "version") c.

(** The manifest rule of the source: the literal [package.json], or
    both fields. *)
Definition manifestSig (c : jsstring) : bool :=
  includes (str "package.json") c || manifestFields c.

Definition cssSig (c : jsstring) : bool :=
  includes (str "body {") c || includes (str "@media") c
  || includes (str "font-family:") c.

Definition serverSig (c : jsstring) : bool :=
  includes (str "const express") c || includes (str "app.listen") c.

Definition classSig (c : jsstring) : bool :=
  includes (str "class ") c && includes (str "constructor") c.

Definition scriptSig (c : jsstring) : bool :=
  includes (str "function ") c || includes (str "const ") c
  || includes (str "let ") c.

End Shape.

Import Shape.
(* ================================================================== *)
(** ** Shapes used by the further properties *)
(* ================================================================== *)

(** [[0-9]] *)
Definition isDigit (c : N) : bool := ((48 <=? c) && (c <=? 57))%N.

(** The name [generateFileName] gives the block is one of those that
    carry no number: a file comment in the first five lines, or one of
    the first five content signatures. *)
Definition fixedName (codeBlock : jsstring) : bool :=
  match V1.firstFileMatch (firstn 5 (split NL codeBlock)) with
  | Some _ => true
  | None =>
      htmlSig codeBlock || manifestSig codeBlock || cssSig codeBlock
      || serverSig codeBlock || classSig codeBlock
  end.

(** The error a failing outcome of the backend makes the request
    throw: the status of a response that is not ok, or the reason
    [fetch] or [response.json()] rejects with. *)
Definition rejection (o : NetOutcome) : exn :=
  match o with
  | Status s => HttpError s
  | NetDown m | Malformed m => Rejection m
  | Reply _ => MaxRetries
  end.

(** What the events of [handleAIResponse] are in the second version:
    the stage text is one of two texts, the retry counter stays within
    the budget, the live display is only ever switched off and never
    written to, the mode only goes to chat, every message is one of
    the assistant, the input is not touched. *)
Definition roundEvent (e : V1.Event) : Prop :=
  match e with
  | V1.SetCurrentStage s => s = ""%string \/ s = "Generating code..."%string
  | V1.SetRetryCount i => i <= 3
  | V1.SetLiveActive b => b = false
  | V1.SetGenerationComplete b => b = true
  | V1.SetIsGenerationMode b => b = false
  | V1.AppendMessage m => V1.sender m = ai
  | V1.SetInputValue _ | V1.SetLiveBegin _ _ | V1.SetLiveChunk _ _ => False
  | _ => True
  end.

(** What the events of a session of the second version are: the stage
    text is one of two texts, the retry counter stays within the
    budget, the live display is only ever switched off and never
    written to, the mode only goes to chat, the input is only
    cleared. *)
Definition sessionEvent (e : V1.Event) : Prop :=
  match e with
  | V1.SetCurrentStage s => s = ""%string \/ s = "Generating code..."%string
  | V1.SetRetryCount i => i <= 3
  | V1.SetLiveActive b => b = false
  | V1.SetGenerationComplete b => b = true
  | V1.SetIsGenerationMode b => b = false
  | V1.SetInputValue s => s = []
  | V1.SetLiveBegin _ _ | V1.SetLiveChunk _ _ => False
  | _ => True
  end.

(** What holds of the state of the second version all along a
    session. *)
Definition sessionState (st : V1.State) : Prop :=
  (V1.currentStage st = ""%string
   \/ V1.currentStage st = "Generating code..."%string)
  /\ V1.lc_isActive (V1.liveCoding st) = false
  /\ V1.lc_content (V1.liveCoding st) = []
  /\ V1.retryCount st <= 3.

(** The events of the first version's [handleAIResponse] append
    messages of the assistant only and leave the input alone. *)
Definition roundEvent0 (e : V0.Event) : Prop :=
  match e with
  | V0.AppendMessage m => V0.sender m = ai
  | V0.SetInputValue _ => False
  | _ => True
  end.

(** The messages of the user appended to the log, in order. *)
Definition usersOf0 (t : list V0.Event) : list V0.Content :=
  flat_map (fun e => match e with
                     | V0.AppendMessage m =>
                         match V0.sender m with
                         | user => [V0.content m]
                         | ai => []
                         end
                     | _ => []
                     end) t.

Definition usersOf (t : list V1.Event) : list V1.Content :=
  flat_map (fun e => match e with
                     | V1.AppendMessage m =>
                         match V1.sender m with
                         | user => [V1.content m]
                         | ai => []
                         end
                     | _ => []
                     end) t.

(** [!message.trim()] is false. *)
Definition nonblank (message : jsstring) : bool :=
  match trim message with
  | [] => false
  | _ :: _ => true
  end.

(** The calls of [createProject], with the files they save. *)
Definition createsOf (t : list V0.Event)
  : list (list (jsstring * (jsstring * jsstring))) :=
  flat_map (fun e => match e with
                     | V0.CreateProject files _ => [files]
                     | _ => []
                     end) t.

(** The message that ends a generation round of the first version,
    for the names in [filesCreated]. *)
Definition completionMessage (props : V0.Props)
           (filesCreated : list jsstring) : V0.ChatMessage :=
  V0.mkMessage ai (V0.Completion (length filesCreated) (V0.signedIn props))
               TAnalysis (Some filesCreated).

(** The buffers the chunk updates of the first version's
    [simulateTyping] write, in order. *)
Definition typedContents (t : list V0.Event) : list jsstring :=
  flat_map (fun e => match e with
                     | V0.SetLiveTyped _ c _ _ => [c]
                     | _ => []
                     end) t.

(** The names [processGeneratedFiles] pushes to [filesCreated] when
    the callback is given and its calls are counted from [n]: those of
    the blocks whose call does not throw. *)
Fixpoint createdFrom (env : Env) (n : nat) (blocks : list V0.CodeBlock)
  : list jsstring :=
  match blocks with
  | [] => []
  | b :: rest =>
      match raises env n with
      | Some _ => createdFrom env (S n) rest
      | None => V0.fileName b :: createdFrom env (S n) rest
      end
  end.

(** The names pushed to [filesCreated] for the blocks, from the world
    [w]. *)
Definition createdNames (env : Env) (props : V0.Props) (w : World)
           (blocks : list V0.CodeBlock) : list jsstring :=
  if V0.hasOnFileGenerated props then createdFrom env (calls w) blocks
  else map V0.fileName blocks.

(** The world after [k] more calls of [onFileGenerated]. *)
Definition called (k : nat) (w : World) : World :=
  mkWorld (fetches w) (awaits w) (cancelled w) (button w) (k + calls w).


(* ================================================================== *)
(** ** Sample inputs *)
(* ================================================================== *)

Module Sample.

Definition line (s : string) : jsstring := str s ++ [NL].

(** Two blocks, the second without tag, and an opener left open. *)
Definition twoBlocks : list Fenced :=
  [ mkFenced (str "Here it is: ") (str "js")
      (line "  let x = 1;");
    mkFenced (line "" ++ str "and a `note`: ") []
      (str "plain text  ") ].

Definition openTail : jsstring := str " then " ++ fence ++ line "py" ++ str "x = 1".

(** One block whose content has white space around it. *)
Definition padded : Fenced := mkFenced [] (str "js") (line "  let x = 1;").

(** A block with a file comment on its second line and HTML around it. *)
Definition commented : jsstring :=
  line "<!DOCTYPE html>" ++ line "  // filename: foo.py" ++ str "<html></html>".

Definition commentLine : NamedLine :=
  mkNamedLine (str "  ") (str "//") (str " ") (str "filename:") (str " ")
              (str "foo") (str "py") [].

(** A block whose first line holds an address and whose second line
    holds the file comment. *)
Definition addressFirst : jsstring :=
  line "const u = 'http://cdn.io/x';" ++ str "// filename: foo.py".

(** A line with an address in the middle. *)
Definition addressLine : NamedLine :=
  mkNamedLine (str "see http:") (str "//") [] [] []
              (str "example") (str "com") (str "/x").

(** A style sheet that mentions the manifest by name. *)
Definition styleWithNote : jsstring :=
  line "see package.json" ++ str "body { margin: 0 }".

Definition htmlPage : jsstring := str "<!DOCTYPE html><html></html>".

(** A backend that answers every request with an empty body and a
    user who never presses Cancel. *)
Definition quiet : Env := mkEnv (fun _ => Reply None) (fun _ => false).

(** A signed-in user, the callback [onFileGenerated] given, and a
    [createProject] that resolves. *)
Definition props : V0.Props := V0.mkProps true true None.

Definition todo : jsstring := str "build a todo app".


Definition text46 : jsstring :=
  str "0123456789012345678901234567890123456789012345".

(** A backend that is down, and one that answers the third request,
    after two server errors. *)
Definition down : Env := mkEnv (fun _ => NetDown (str "Failed to fetch")) (fun _ => false).

Definition answer : jsstring :=
  line "Here it is:" ++ fence ++ line "js" ++ line "let x = 1;" ++ fence.


(** A backend that answers every request with a block of code. *)
Definition coder : Env := mkEnv (fun _ => Reply (Some answer)) (fun _ => false).

Definition game : jsstring := str "build a game".




(** A backend whose replies hold one block with no code. *)
Definition hollow : Env :=
  mkEnv (fun _ => Reply (Some (line "Here it is:" ++ fence ++ line "js"
                               ++ fence)))
        (fun _ => false).

End Sample.

(* ================================================================== *)
(** ** Facts about strings and the matcher *)
(* ================================================================== *)

#[local] Arguments N.eqb : simpl never.
#[local] Arguments N.leb : simpl never.

Section StringFacts.

Lemma startsWith_app (p s : jsstring) : startsWith p (p ++ s) = true.
Proof.
  induction p as [|x p IH]; simpl; [reflexivity|].
  now rewrite N.eqb_refl, IH.
Qed.

Lemma startsWith_split (p s : jsstring) :
  startsWith p s = true -> s = p ++ skipn (length p) s.
Proof.
  revert s; induction p as [|x p IH]; intros s H; simpl in *; [reflexivity|].
  destruct s as [|y s]; [discriminate|].
  apply andb_true_iff in H as [Hxy Hp].
  apply N.eqb_eq in Hxy; subst y.
  simpl. f_equal. now apply IH.
Qed.

Lemma includes_false_head (p s : jsstring) :
  includes p s = false -> startsWith p s = false.
Proof.
  destruct s; simpl; intros H; apply orb_false_iff in H; tauto.
Qed.

Lemma includes_false_tail (p : jsstring) (x : N) (s : jsstring) :
  includes p (x :: s) = false -> includes p s = false.
Proof.
  simpl; intros H; apply orb_false_iff in H; tauto.
Qed.

Lemma includes_false_suffix (p s1 s2 : jsstring) :
  includes p (s1 ++ s2) = false -> includes p s2 = false.
Proof.
  induction s1 as [|x s1 IH]; simpl; [tauto|].
  intros H; apply orb_false_iff in H as [_ H]. now apply IH.
Qed.

Lemma startsWith_prefix_app (p s t : jsstring) :
  startsWith p s = true -> startsWith p (s ++ t) = true.
Proof.
  revert s; induction p as [|x p IH]; intros s H; simpl in *; [reflexivity|].
  destruct s as [|y s]; [discriminate|]. simpl.
  apply andb_true_iff in H as [-> Hp]. simpl. now apply IH.
Qed.

Lemma includes_app_l (p s t : jsstring) :
  includes p s = true -> includes p (s ++ t) = true.
Proof.
  induction s as [|x s IH]; simpl; intros H.
  - rewrite orb_false_r in H. destruct p; [|discriminate].
    destruct t; reflexivity.
  - apply orb_true_iff in H as [H|H].
    + change (x :: s ++ t) with ((x :: s) ++ t).
      rewrite (startsWith_prefix_app _ _ t H). reflexivity.
    + rewrite (IH H). apply orb_true_r.
Qed.

Lemma includes_false_prefix (p s t : jsstring) :
  includes p (s ++ t) = false -> includes p s = false.
Proof.
  intros H. destruct (includes p s) eqn:E; [|reflexivity].
  now rewrite (includes_app_l _ _ t E) in H.
Qed.

End StringFacts.

Section MatcherFacts.

Variable k : cont.
Variable c : caps.

Lemma run_Lit (l s : jsstring) :
  run (Lit l) s c k
  = if startsWith l s then k (skipn (length l) s) c else None.
Proof.
  revert s; induction l as [|x l IH]; intros s; simpl; [reflexivity|].
  destruct s as [|y s]; [reflexivity|].
  destruct (N.eqb x y); simpl; [apply IH | reflexivity].
Qed.

Lemma run_Lit_app (l s : jsstring) : run (Lit l) (l ++ s) c k = k s c.
Proof.
  rewrite run_Lit, startsWith_app.
  now rewrite skipn_app, skipn_all, Nat.sub_diag.
Qed.

Lemma run_Lit_fail (l s : jsstring) :
  startsWith l s = false -> run (Lit l) s c k = None.
Proof. intros H. now rewrite run_Lit, H. Qed.

Lemma run_LitI_app (l s : jsstring) : run (LitI l) (l ++ s) c k = k s c.
Proof.
  induction l as [|x l IH]; simpl; [reflexivity|].
  now rewrite N.eqb_refl.
Qed.

Lemma run_Star_stop (p : N -> bool) (s : jsstring) :
  stops p s -> run (Star p) s c k = k s c.
Proof.
  destruct s as [|x s]; simpl; [reflexivity|]. now intros ->.
Qed.

Lemma run_Star_cons (p : N -> bool) (x : N) (s : jsstring) :
  p x = true ->
  run (Star p) (x :: s) c k
  = match run (Star p) s c k with
    | Some y => Some y
    | None => k (x :: s) c
    end.
Proof. intros H. simpl. now rewrite H. Qed.

(** The greedy repetition fails when the continuation fails after every
    prefix of the run. *)
Lemma run_Star_none (p : N -> bool) (w s : jsstring) :
  forallb p w = true -> stops p s ->
  (forall w1 w2, w = w1 ++ w2 -> k (w2 ++ s) c = None) ->
  run (Star p) (w ++ s) c k = None.
Proof.
  induction w as [|x w IH]; intros Hw Hs Hk.
  - simpl app. rewrite run_Star_stop by assumption. apply (Hk [] []); reflexivity.
  - simpl in Hw. apply andb_true_iff in Hw as [Hx Hw].
    simpl app. rewrite run_Star_cons by assumption.
    rewrite IH; trivial.
    + apply (Hk [] (x :: w)); reflexivity.
    + intros w1 w2 ->. apply (Hk (x :: w1) w2); reflexivity.
Qed.

(** The greedy repetition gives the result of the continuation at the
    longest prefix of the run after which the continuation succeeds. *)
Lemma run_Star_backtrack (p : N -> bool) (w1 w2 s : jsstring) y :
  forallb p (w1 ++ w2) = true -> stops p s ->
  (forall v1 v2, w2 = v1 ++ v2 -> v1 <> [] -> k (v2 ++ s) c = None) ->
  k (w2 ++ s) c = Some y ->
  run (Star p) ((w1 ++ w2) ++ s) c k = Some y.
Proof.
  induction w1 as [|x w1 IH]; intros Hw Hs Hlong Hk.
  - simpl app in *. destruct w2 as [|x w2].
    + simpl app in *. now rewrite run_Star_stop.
    + simpl in Hw. apply andb_true_iff in Hw as [Hx Hw].
      simpl app. rewrite run_Star_cons by assumption.
      rewrite run_Star_none; trivial.
      intros v1 v2 ->. apply (Hlong (x :: v1) v2); [reflexivity|discriminate].
  - simpl in Hw. apply andb_true_iff in Hw as [Hx Hw].
    simpl app. rewrite run_Star_cons by assumption.
    now rewrite IH.
Qed.

Lemma run_Star_all (p : N -> bool) (w s : jsstring) y :
  forallb p w = true -> stops p s ->
  k s c = Some y ->
  run (Star p) (w ++ s) c k = Some y.
Proof.
  intros Hw Hs Hk.
  rewrite <- (app_nil_r w) at 1.
  apply run_Star_backtrack; trivial.
  - now rewrite app_nil_r.
  - intros v1 v2 E. symmetry in E. apply app_eq_nil in E as [-> _]. congruence.
Qed.

(** The lazy repetition gives the result of the continuation at the
    first place where it succeeds. *)
Lemma run_StarLazy_first (p : N -> bool) (w s : jsstring) y :
  forallb p w = true ->
  (forall w1 w2, w = w1 ++ w2 -> w2 <> [] -> k (w2 ++ s) c = None) ->
  k s c = Some y ->
  run (StarLazy p) (w ++ s) c k = Some y.
Proof.
  induction w as [|x w IH]; intros Hw Hbefore Hk.
  - simpl app. destruct s; simpl; now rewrite Hk.
  - simpl in Hw. apply andb_true_iff in Hw as [Hx Hw].
    assert (H0 := Hbefore [] (x :: w) eq_refl ltac:(discriminate)).
    simpl in *. rewrite H0, Hx. apply IH; trivial.
    intros w1 w2 -> Hne. apply (Hbefore (x :: w1) w2); [reflexivity|assumption].
Qed.

Lemma run_StarLazy_none (p : N -> bool) (s : jsstring) :
  (forall s1 s2, s = s1 ++ s2 -> k s2 c = None) ->
  run (StarLazy p) s c k = None.
Proof.
  induction s as [|x s IH]; intros Hk; simpl.
  - now rewrite (Hk [] []).
  - rewrite (Hk [] (x :: s)) by reflexivity.
    destruct (p x); [|reflexivity].
    apply IH. intros s1 s2 ->. apply (Hk (x :: s1) s2); reflexivity.
Qed.

End MatcherFacts.

Lemma exec_skip (r : regex) (g pre s : jsstring) :
  (forall g1 g2, g = g1 ++ g2 -> g2 <> [] -> matchAt r (g2 ++ s) = None) ->
  exec r pre (g ++ s) = exec r (pre ++ g) s.
Proof.
  revert pre; induction g as [|x g IH]; intros pre Hg.
  - now rewrite app_nil_r.
  - assert (H0 := Hg [] (x :: g) eq_refl ltac:(discriminate)).
    simpl in *. rewrite H0, IH.
    + now rewrite <- app_assoc.
    + intros g1 g2 -> Hne. apply (Hg (x :: g1) g2); [reflexivity|assumption].
Qed.

Lemma exec_none (r : regex) (pre s : jsstring) :
  (forall s1 s2, s = s1 ++ s2 -> matchAt r s2 = None) ->
  exec r pre s = None.
Proof.
  revert pre; induction s as [|x s IH]; intros pre Hs; simpl.
  - now rewrite (Hs [] []).
  - rewrite (Hs [] (x :: s)) by reflexivity.
    apply IH. intros s1 s2 ->. apply (Hs (x :: s1) s2); reflexivity.
Qed.

Lemma exec_here (r : regex) (pre s rest : jsstring) (cp : caps) :
  matchAt r s = Some (rest, cp) ->
  exec r pre s = Some (mkMatch pre (firstn (length s - length rest) s) cp rest).
Proof. intros H. destruct s; simpl; now rewrite H. Qed.

Lemma exec_cons_none (r : regex) (pre : jsstring) (x : N) (s : jsstring) :
  matchAt r (x :: s) = None ->
  exec r pre (x :: s) = exec r (pre ++ [x]) s.
Proof. intros H. simpl. now rewrite H. Qed.

(* ================================================================== *)
(** ** The fence expression on well-formed blocks *)
(* ================================================================== *)

Lemma run_Cat (r1 r2 : regex) s c k :
  run (Cat r1 r2) s c k = run r1 s c (fun s' c' => run r2 s' c' k).
Proof. reflexivity. Qed.

Lemma run_Grp (i : nat) (r : regex) s c k :
  run (Grp i r) s c k
  = run r s c (fun s' c' => k s' ((i, firstn (length s - length s') s) :: c')).
Proof. reflexivity. Qed.

Lemma run_Opt (r : regex) s c k :
  run (Opt r) s c k
  = match run r s c (fun s' c' => if length s' <? length s then k s' c' else None) with
    | Some y => Some y
    | None => k s c
    end.
Proof. reflexivity. Qed.

Lemma run_Cls_cons (p : N -> bool) x s c k :
  run (Cls p) (x :: s) c k = if p x then k s c else None.
Proof. reflexivity. Qed.

Lemma firstn_consumed (w s : jsstring) :
  firstn (length (w ++ s) - length s) (w ++ s) = w.
Proof.
  rewrite length_app, Nat.add_sub.
  rewrite firstn_app, Nat.sub_diag, firstn_all. simpl. apply app_nil_r.
Qed.

Lemma fence_positions (b w1 w2 t : jsstring) :
  noFence b -> noTickEnd b -> b = w1 ++ w2 -> w2 <> [] ->
  startsWith fence (w2 ++ fence ++ t) = false.
Proof.
  unfold noFence, noTickEnd. intros Hf Ht -> Hne.
  destruct w2 as [|x [|y [|z w2]]]; [congruence| | |].
  - rewrite last_last in Ht. simpl.
    destruct (N.eqb_spec 96 x); [now subst | reflexivity].
  - change (w1 ++ [x; y]) with (w1 ++ [x] ++ [y]) in Ht.
    rewrite app_assoc, last_last in Ht. simpl.
    destruct (N.eqb_spec 96 y); [now subst|]. now rewrite andb_false_r.
  - apply includes_false_suffix, includes_false_head in Hf.
    simpl in *. exact Hf.
Qed.

Lemma isWord_not_tick x : isWord x = true -> x <> TICK.
Proof. intros H ->. discriminate. Qed.

Lemma isWord_not_nl x : isWord x = true -> N.eqb NL x = false.
Proof.
  intros H. destruct (N.eqb_spec NL x); [subst; discriminate | reflexivity].
Qed.

(** From the newline of the opener on: the lazy body stops at the first
    fence. *)
Lemma run_body (b rest : jsstring) (cp : caps) :
  noFence b -> noTickEnd b ->
  run (Cls (N.eqb NL) +++ Grp 2 (StarLazy anyChar) +++ Lit fence)%re
      (NL :: b ++ fence ++ rest) cp (fun s' c => Some (s', c))
  = Some (rest, (2, b) :: cp).
Proof.
  intros Hf Ht.
  rewrite run_Cat, run_Cls_cons, N.eqb_refl, run_Cat, run_Grp.
  apply run_StarLazy_first.
  - clear. induction b; simpl; auto.
  - intros w1 w2 E Hne. rewrite run_Lit.
    now rewrite (fence_positions b w1 w2 rest Hf Ht E Hne).
  - rewrite run_Lit_app. now rewrite firstn_consumed.
Qed.

Lemma matchAt_block (t b rest : jsstring) :
  forallb isWord t = true -> noFence b -> noTickEnd b ->
  matchAt V0.codeBlockRegex (fence ++ t ++ NL :: b ++ fence ++ rest)
  = Some (rest, (2, b) :: match t with [] => [] | _ :: _ => [(1, t)] end).
Proof.
  intros Hw Hf Ht. unfold matchAt, V0.codeBlockRegex.
  rewrite run_Cat. fold fence. rewrite run_Lit_app, run_Cat, run_Opt.
  destruct t as [|x t].
  - simpl app. rewrite run_Grp. unfold Plus. rewrite run_Cat, run_Cls_cons.
    change (isWord NL) with false. cbv iota.
    now apply run_body.
  - simpl in Hw. apply andb_true_iff in Hw as [Hx Hw].
    rewrite run_Grp. unfold Plus. rewrite run_Cat.
    change ((x :: t) ++ NL :: b ++ fence ++ rest)
      with (x :: t ++ NL :: b ++ fence ++ rest).
    rewrite run_Cls_cons, Hx.
    erewrite run_Star_all; [reflexivity|assumption|reflexivity|].
    assert (L : (length (NL :: b ++ fence ++ rest)
                 <? length (x :: t ++ NL :: b ++ fence ++ rest)) = true).
    { apply Nat.ltb_lt. simpl. rewrite !length_app. simpl. rewrite !length_app. simpl. lia. }
    rewrite L.
    change (x :: t ++ NL :: b ++ fence ++ rest)
      with ((x :: t) ++ NL :: b ++ fence ++ rest).
    rewrite firstn_consumed. now apply run_body.
Qed.

Lemma matchAt_nofence (s : jsstring) :
  startsWith fence s = false -> matchAt V0.codeBlockRegex s = None.
Proof.
  intros H. unfold matchAt, V0.codeBlockRegex.
  rewrite run_Cat. fold fence. now apply run_Lit_fail.
Qed.

Lemma matchAt_tick (s : jsstring) :
  matchAt V0.codeBlockRegex (fence ++ TICK :: s) = None.
Proof.
  unfold matchAt, V0.codeBlockRegex.
  rewrite run_Cat. fold fence. rewrite run_Lit_app, run_Cat, run_Opt, run_Grp.
  unfold Plus. rewrite run_Cat, run_Cls_cons.
  change (isWord TICK) with false. cbv iota.
  rewrite run_Cat, run_Cls_cons. reflexivity.
Qed.

Lemma startsWith_fence3 (x y z : N) (s : jsstring) :
  startsWith fence (x :: y :: z :: s)
  = N.eqb 96 x && (N.eqb 96 y && (N.eqb 96 z && true)).
Proof. reflexivity. Qed.

(** The search passes over a text without fence in front of an opener. *)
Lemma exec_gap (g X pre : jsstring) :
  noFence g ->
  exec V0.codeBlockRegex pre (g ++ fence ++ X)
  = exec V0.codeBlockRegex (pre ++ g) (fence ++ X).
Proof.
  intros Hg. apply exec_skip. intros g1 g2 E Hne.
  destruct (startsWith fence (g2 ++ fence ++ X)) eqn:S;
    [|now apply matchAt_nofence].
  assert (Hg2 : includes fence g2 = false).
  { unfold noFence in Hg. rewrite E in Hg. now apply includes_false_suffix in Hg. }
  apply includes_false_head in Hg2.
  destruct g2 as [|x [|y [|z g2]]]; [congruence| | |].
  - change ([x] ++ fence ++ X) with (x :: 96%N :: 96%N :: 96%N :: X) in *.
    rewrite startsWith_fence3 in S.
    apply andb_true_iff in S as [Sx _]. apply N.eqb_eq in Sx. subst x.
    apply (matchAt_tick X).
  - change ([x; y] ++ fence ++ X)
      with (x :: y :: 96%N :: 96%N :: 96%N :: X) in *.
    rewrite startsWith_fence3 in S.
    apply andb_true_iff in S as [Sx S]. apply andb_true_iff in S as [Sy _].
    apply N.eqb_eq in Sx, Sy. subst x y.
    apply (matchAt_tick (96%N :: X)).
  - change ((x :: y :: z :: g2) ++ fence ++ X)
      with (x :: y :: z :: g2 ++ fence ++ X) in S.
    rewrite startsWith_fence3 in *. congruence.
Qed.

Lemma run_body_none (w junk : jsstring) (cp : caps) :
  forallb isWord w = true -> noFence junk ->
  run (Cls (N.eqb NL) +++ Grp 2 (StarLazy anyChar) +++ Lit fence)%re
      (w ++ NL :: junk) cp (fun s' c => Some (s', c))
  = None.
Proof.
  intros Hw Hj. rewrite run_Cat.
  destruct w as [|x w].
  - simpl app. rewrite run_Cls_cons, N.eqb_refl, run_Cat, run_Grp.
    apply run_StarLazy_none. intros s1 s2 ->.
    apply run_Lit_fail.
    apply includes_false_head. now apply includes_false_suffix in Hj.
  - simpl in Hw. apply andb_true_iff in Hw as [Hx _].
    simpl app. rewrite run_Cls_cons. now rewrite isWord_not_nl.
Qed.

(** An opener that no fence closes is no match. *)
Lemma matchAt_unclosed (t junk : jsstring) :
  forallb isWord t = true -> noFence junk ->
  matchAt V0.codeBlockRegex (fence ++ t ++ NL :: junk) = None.
Proof.
  intros Hw Hj. unfold matchAt, V0.codeBlockRegex.
  rewrite run_Cat. fold fence. rewrite run_Lit_app, run_Cat, run_Opt, run_Grp.
  unfold Plus. rewrite run_Cat.
  destruct t as [|x t].
  - simpl app. rewrite run_Cls_cons.
    change (isWord NL) with false. cbv iota.
    now apply (run_body_none []).
  - pose proof Hw as Hw'. simpl in Hw. apply andb_true_iff in Hw as [Hx Hw].
    simpl app. rewrite run_Cls_cons, Hx.
    rewrite run_Star_none; trivial.
    + now apply (run_body_none (x :: t)).
    + reflexivity.
    + intros w1 w2 ->.
      match goal with |- (if ?b then _ else _) = _ => destruct b end;
        [|reflexivity].
      apply run_body_none; trivial.
      rewrite forallb_app in Hw. apply andb_true_iff in Hw. tauto.
Qed.

Lemma noFence_after_opener (t junk : jsstring) :
  forallb isWord t = true -> noFence junk ->
  noFence (TICK :: TICK :: t ++ NL :: junk).
Proof.
  intros Hw Hj. unfold noFence in *.
  assert (H1 : includes fence (t ++ NL :: junk) = false).
  { induction t as [|x t IH].
    - simpl app. change (includes fence (NL :: junk))
        with (startsWith fence (NL :: junk) || includes fence junk).
      now rewrite Hj.
    - simpl in Hw. apply andb_true_iff in Hw as [Hx Hw].
      simpl app.
      change (includes fence (x :: t ++ NL :: junk))
        with (startsWith fence (x :: t ++ NL :: junk)
              || includes fence (t ++ NL :: junk)).
      rewrite (IH Hw), orb_false_r.
      unfold fence. simpl.
      destruct (N.eqb_spec 96 x); [subst; discriminate | reflexivity]. }
  assert (H2 : includes fence (TICK :: t ++ NL :: junk) = false).
  { change (includes fence (TICK :: t ++ NL :: junk))
      with (startsWith fence (TICK :: t ++ NL :: junk)
            || includes fence (t ++ NL :: junk)).
    rewrite H1, orb_false_r.
    destruct t as [|x [|y t]]; try reflexivity.
    - simpl in Hw. apply andb_true_iff in Hw as [Hx _].
      simpl. destruct (N.eqb_spec 96 x); [subst; discriminate | reflexivity].
    - simpl in Hw. apply andb_true_iff in Hw as [Hx _].
      simpl. destruct (N.eqb_spec 96 x); [subst; discriminate | reflexivity]. }
  change (includes fence (TICK :: TICK :: t ++ NL :: junk))
    with (startsWith fence (TICK :: TICK :: t ++ NL :: junk)
          || includes fence (TICK :: t ++ NL :: junk)).
  rewrite H2, orb_false_r.
  destruct t as [|x t]; [reflexivity|].
  simpl in Hw. apply andb_true_iff in Hw as [Hx _].
  simpl. destruct (N.eqb_spec 96 x); [subst; discriminate | reflexivity].
Qed.

Lemma exec_noFence (pre s : jsstring) :
  noFence s -> exec V0.codeBlockRegex pre s = None.
Proof.
  intros H. apply exec_none. intros s1 s2 ->.
  apply matchAt_nofence, includes_false_head.
  now apply includes_false_suffix in H.
Qed.

(** After the last block nothing is found. *)
Lemma exec_openEnded (pre tail : jsstring) :
  openEnded tail -> exec V0.codeBlockRegex pre tail = None.
Proof.
  intros [H | (g & t & junk & -> & Hg & Hw & Hj)].
  - now apply exec_noFence.
  - rewrite exec_gap by assumption.
    change (fence ++ t ++ NL :: junk)
      with (TICK :: TICK :: TICK :: t ++ NL :: junk).
    rewrite exec_cons_none by (apply (matchAt_unclosed t junk); assumption).
    apply exec_noFence. now apply noFence_after_opener.
Qed.

(** The search finds a well-formed block behind its gap. *)
Lemma exec_render (b : Fenced) (pre rest : jsstring) :
  wellFormed b ->
  exec V0.codeBlockRegex pre (render b ++ rest)
  = Some (mkMatch (pre ++ gap b) (blockText b)
            ((2, body b) :: match tag b with [] => [] | _ :: _ => [(1, tag b)] end)
            rest).
Proof.
  intros (Hg & Hw & Hf & Ht). unfold render, blockText.
  replace ((gap b ++ fence ++ tag b ++ NL :: body b ++ fence) ++ rest)
    with (gap b ++ fence ++ (tag b ++ NL :: body b ++ fence ++ rest)).
  2:{ rewrite <- !app_assoc. simpl. now rewrite <- !app_assoc. }
  rewrite exec_gap by assumption.
  rewrite (exec_here _ _ _ _ _ (matchAt_block _ _ rest Hw Hf Ht)).
  f_equal. f_equal.
  replace (fence ++ tag b ++ NL :: body b ++ fence ++ rest)
    with ((fence ++ tag b ++ NL :: body b ++ fence) ++ rest).
  - apply firstn_consumed.
  - rewrite <- !app_assoc. simpl. now rewrite <- !app_assoc.
Qed.

Lemma document_cons (b : Fenced) (bs : list Fenced) (tail : jsstring) :
  document (b :: bs) tail = render b ++ document bs tail.
Proof. unfold document. simpl. now rewrite <- app_assoc. Qed.

Lemma document_length (bs : list Fenced) (tail : jsstring) :
  length bs <= length (document bs tail).
Proof.
  induction bs as [|b bs IH]; [apply Nat.le_0_l|].
  rewrite document_cons, length_app. unfold render, blockText.
  rewrite !length_app. simpl. lia.
Qed.

Lemma language_of_caps (b : Fenced) (cp : caps) :
  orElse (getCap 1 ((2, body b) :: match tag b with [] => [] | _ :: _ => [(1, tag b)] end))
         (str "text")
  = languageOf b.
Proof. unfold languageOf. destruct (tag b); reflexivity. Qed.

(** The loop of [parseCodeBlocks] on a document of well-formed blocks. *)
Lemma parseLoop_document (bs : list Fenced) (tail : jsstring) :
  Forall wellFormed bs -> openEnded tail ->
  forall fuel index, length bs < fuel ->
  map (fun cb => (V0.language cb, V0.code cb))
      (V0.parseLoop fuel (document bs tail) index)
  = expectedBlocks bs.
Proof.
  intros Hbs Htail. induction Hbs as [|b bs Hb Hbs IH]; intros fuel index Hfuel.
  - destruct fuel as [|fuel]; [lia|]. simpl.
    unfold document. simpl. now rewrite exec_openEnded.
  - destruct fuel as [|fuel]; [simpl in Hfuel; lia|].
    rewrite document_cons. simpl V0.parseLoop.
    rewrite exec_render by assumption.
    cbv beta iota zeta. unfold m_caps, m_rest.
    rewrite (language_of_caps b []).
    simpl map. unfold expectedBlocks. simpl map. f_equal.
    apply IH. simpl in Hfuel. lia.
Qed.

(** The global match of the second version on the same documents. *)
Lemma matchAllFrom_document (bs : list Fenced) (tail : jsstring) :
  Forall wellFormed bs -> openEnded tail ->
  forall fuel, length bs < fuel ->
  matchAllFrom fuel V0.codeBlockRegex (document bs tail) = map blockText bs.
Proof.
  intros Hbs Htail. induction Hbs as [|b bs Hb Hbs IH]; intros fuel Hfuel.
  - destruct fuel as [|fuel]; [lia|]. simpl.
    unfold document. simpl. now rewrite exec_openEnded.
  - destruct fuel as [|fuel]; [simpl in Hfuel; lia|].
    rewrite document_cons. simpl matchAllFrom.
    rewrite exec_render by assumption. simpl. f_equal.
    apply IH. simpl in Hfuel. lia.
Qed.

(** *** The per-block expressions of the second version *)

Lemma fence_positions_end (b w1 w2 : jsstring) :
  noFence b -> noTickEnd b -> b = w1 ++ w2 -> w2 <> [] ->
  startsWith fence (w2 ++ fence) = false.
Proof.
  intros Hf Ht E Hne.
  rewrite <- (app_nil_r fence) at 2.
  exact (fence_positions b w1 w2 [] Hf Ht E Hne).
Qed.

Lemma language_of_block (b : Fenced) :
  wellFormed b ->
  match matchFirst V1.languageRegex (blockText b) with
  | Some mt => V0.group 1 mt
  | None => str "text"
  end = languageOf b.
Proof.
  intros (_ & Hw & Hf & Ht). unfold blockText, languageOf, matchFirst.
  destruct (tag b) as [|x t] eqn:Etag.
  - simpl app.
    change (fence ++ NL :: body b ++ fence)
      with (TICK :: TICK :: TICK :: NL :: body b ++ fence).
    rewrite !exec_cons_none by reflexivity.
    rewrite exec_skip.
    + reflexivity.
    + intros g1 g2 E Hne. unfold matchAt, V1.languageRegex.
      rewrite run_Cat. fold fence. apply run_Lit_fail.
      now apply (fence_positions_end (body b) g1 g2).
  - simpl in Hw. apply andb_true_iff in Hw as [Hx Hw].
    assert (M : matchAt V1.languageRegex
                  (fence ++ (x :: t) ++ NL :: body b ++ fence)
                = Some (NL :: body b ++ fence, [(1, x :: t)])).
    { unfold matchAt, V1.languageRegex.
      rewrite run_Cat. fold fence. rewrite run_Lit_app, run_Grp.
      unfold Plus. rewrite run_Cat. simpl app. rewrite run_Cls_cons, Hx.
      erewrite run_Star_all; [reflexivity|assumption|reflexivity|].
      change (x :: t ++ NL :: body b ++ fence)
        with ((x :: t) ++ NL :: body b ++ fence).
      now rewrite firstn_consumed. }
    rewrite (exec_here _ _ _ _ _ M). reflexivity.
Qed.

Lemma opener_of_block (b : Fenced) :
  wellFormed b ->
  replaceFirstEmpty V1.openerRegex (blockText b) = body b ++ fence.
Proof.
  intros (_ & Hw & _ & _). unfold replaceFirstEmpty, blockText.
  assert (M : matchAt V1.openerRegex (fence ++ tag b ++ NL :: body b ++ fence)
              = Some (body b ++ fence, [])).
  { unfold matchAt, V1.openerRegex.
    rewrite run_Cat. fold fence. rewrite run_Lit_app, run_Cat.
    erewrite run_Star_all; [reflexivity|assumption|reflexivity|].
    rewrite run_Cls_cons. now rewrite N.eqb_refl. }
  now rewrite (exec_here _ _ _ _ _ M).
Qed.

Lemma closer_of_body (bd : jsstring) :
  noFence bd -> noTickEnd bd ->
  replaceFirstEmpty V1.closerRegex (bd ++ fence) = bd.
Proof.
  intros Hf Ht. unfold replaceFirstEmpty.
  rewrite exec_skip.
  - simpl. apply app_nil_r.
  - intros g1 g2 E Hne. unfold matchAt, V1.closerRegex.
    rewrite run_Cat. fold fence. apply run_Lit_fail.
    now apply (fence_positions_end bd g1 g2).
Qed.

Lemma extractFile_block (b : Fenced) (i : nat) :
  wellFormed b ->
  V1.extractFile (blockText b) i
  = V1.mkFile (V1.generateFileName (body b) i) (body b) (languageOf b).
Proof.
  intros Hb. unfold V1.extractFile.
  rewrite language_of_block, opener_of_block by assumption.
  destruct Hb as (_ & _ & Hf & Ht).
  now rewrite closer_of_body.
Qed.

Lemma extractFrom_blocks (bs : list Fenced) :
  Forall wellFormed bs ->
  forall i, V1.extractFrom i (map blockText bs) = expectedFiles i bs.
Proof.
  induction 1 as [|b bs Hb Hbs IH]; intros i; simpl; [reflexivity|].
  now rewrite extractFile_block, IH.
Qed.

(* ================================================================== *)
(** ** The file-name expression *)
(* ================================================================== *)

Lemma to_false (b : bool) : (b = true -> False) -> b = false.
Proof. destruct b; intuition. Qed.

Ltac bool_to_prop :=
  repeat match goal with
         | H : _ && _ = true |- _ => apply andb_true_iff in H; destruct H
         | H : _ || _ = true |- _ => apply orb_true_iff in H; destruct H
         | H : _ && _ = false |- _ => apply andb_false_iff in H; destruct H
         | H : (_ <=? _)%N = false |- _ => apply N.leb_gt in H
         | H : (_ =? _)%N = false |- _ => apply N.eqb_neq in H
         | H : (_ <=? _)%N = true |- _ => apply N.leb_le in H
         | H : (_ =? _)%N = true |- _ => apply N.eqb_eq in H
         end.

Ltac class_facts := intros; apply to_false; intros; bool_to_prop; lia.

Lemma isAlnum_isNameChar x : isAlnum x = true -> isNameChar x = true.
Proof. intros H. unfold isNameChar. now rewrite H. Qed.

Lemma isNameChar_not_space x : isNameChar x = true -> isSpace x = false.
Proof. unfold isNameChar, isAlnum, isSpace. class_facts. Qed.

Lemma isNameChar_not_colon x :
  isNameChar x = true -> N.eqb (canon x) 58 = false.
Proof.
  unfold isNameChar, isAlnum, canon.
  destruct ((97 <=? x)%N && (x <=? 122)%N) eqn:E; class_facts.
Qed.

Lemma isAlnum_not_dot x : isAlnum x = true -> N.eqb 46 x = false.
Proof. unfold isAlnum. class_facts. Qed.

Lemma not_nameChar_not_dot x : isNameChar x = false -> N.eqb 46 x = false.
Proof.
  intros H. destruct (N.eqb_spec 46 x); [subst; discriminate | reflexivity].
Qed.

Lemma isSpace_not_markerStart x : isSpace x = true -> markerStart x = false.
Proof. unfold isSpace, markerStart. class_facts. Qed.

Lemma canon_fixed (m x : N) :
  (m < 97)%N -> N.eqb (canon x) m = true -> (65 <= m <= 90)%N \/ x = m.
Proof.
  unfold canon. intros Hm H.
  destruct ((97 <=? x)%N && (x <=? 122)%N) eqn:E; bool_to_prop; lia.
Qed.

(** No marker begins with a code unit other than [/], [#] and [<]. *)
Lemma marker_fail (x : N) (s : jsstring) c k :
  markerStart x = false -> run V1.commentMarker (x :: s) c k = None.
Proof.
  intros H. unfold markerStart in H.
  apply orb_false_iff in H as [H H60]. apply orb_false_iff in H as [H47 H35].
  apply N.eqb_neq in H47, H35, H60.
  assert (F : forall m, (m < 65)%N -> x <> m -> N.eqb (canon x) m = false).
  { intros m Hm Hx. apply to_false. intros E.
    apply canon_fixed in E; lia. }
  unfold V1.commentMarker.
  cbn [run LitI str map list_ascii_of_string].
  change (canon (N_of_ascii "/")) with 47%N.
  change (canon (N_of_ascii "#")) with 35%N.
  change (canon (N_of_ascii "<")) with 60%N.
  rewrite !F by (lia || assumption). reflexivity.
Qed.

Lemma marker_run (mk s : jsstring) c k :
  In mk markers -> run V1.commentMarker (mk ++ s) c k = k s c.
Proof.
  unfold markers. simpl. intros [<-|[<-|[<-|[<-|[]]]]];
    unfold V1.commentMarker; cbn; destruct (k s c); reflexivity.
Qed.

(** The token group, [([a-zA-Z0-9._-]+\.[a-zA-Z0-9]+)]. *)
Lemma forallb_nameChars (st ex : jsstring) :
  forallb isNameChar st = true -> forallb isAlnum ex = true ->
  forallb isNameChar (st ++ DOT :: ex) = true.
Proof.
  intros Hs He. rewrite forallb_app, Hs. simpl.
  clear Hs. induction ex as [|e ex IH]; [reflexivity|].
  simpl in *. apply andb_true_iff in He as [He1 He2].
  now rewrite (isAlnum_isNameChar _ He1), IH.
Qed.

Lemma stops_alnum (s : jsstring) : stops isNameChar s -> stops isAlnum s.
Proof.
  destruct s as [|x s]; simpl; [trivial|]. intros H.
  destruct (isAlnum x) eqn:E; [|reflexivity].
  now rewrite (isAlnum_isNameChar _ E) in H.
Qed.

Lemma run_name (st ex rest : jsstring) (cp : caps) :
  st <> [] -> forallb isNameChar st = true ->
  ex <> [] -> forallb isAlnum ex = true ->
  stops isNameChar rest ->
  run (Grp 1 (Plus isNameChar +++ Cls (N.eqb 46) +++ Plus isAlnum))%re
      ((st ++ DOT :: ex) ++ rest) cp (fun s' c => Some (s', c))
  = Some (rest, (1, st ++ DOT :: ex) :: cp).
Proof.
  intros Hst Hs Hex He Hrest.
  rewrite run_Grp. unfold Plus. rewrite !run_Cat.
  destruct st as [|x st]; [congruence|].
  destruct ex as [|e ex]; [congruence|].
  simpl in Hs. apply andb_true_iff in Hs as [Hx Hs].
  pose proof He as He'. simpl in He. apply andb_true_iff in He as [He1 He2].
  change (((x :: st) ++ DOT :: e :: ex) ++ rest)
    with (x :: (st ++ DOT :: e :: ex) ++ rest) at 1.
  rewrite run_Cls_cons, Hx.
  apply run_Star_backtrack.
  - now apply forallb_nameChars.
  - assumption.
  - intros v1 v2 E Hne. destruct v1 as [|d v1]; [congruence|].
    injection E as _ E. rewrite run_Cat.
    destruct v2 as [|z v2].
    + simpl app. destruct rest as [|r rest]; [reflexivity|].
      rewrite run_Cls_cons. simpl in Hrest.
      now rewrite (not_nameChar_not_dot _ Hrest).
    + simpl app. rewrite run_Cls_cons.
      assert (Hz : isAlnum z = true).
      { rewrite E in He'. rewrite forallb_app in He'.
        apply andb_true_iff in He' as [_ He']. simpl in He'.
        now apply andb_true_iff in He' as [He' _]. }
      now rewrite (isAlnum_not_dot _ Hz).
  - rewrite run_Cat.
    change ((DOT :: e :: ex) ++ rest) with (DOT :: e :: ex ++ rest).
    rewrite run_Cls_cons. change (N.eqb 46 DOT) with true. cbv iota.
    rewrite run_Cat, run_Cls_cons, He1.
    erewrite run_Star_all; [reflexivity|assumption|now apply stops_alnum|].
    change (x :: (st ++ DOT :: e :: ex) ++ rest)
      with (((x :: st) ++ DOT :: e :: ex) ++ rest).
    now rewrite firstn_consumed.
Qed.

(** White space, then the token. *)
Lemma run_ws_name (ws st ex rest : jsstring) (cp : caps) :
  forallb isSpace ws = true ->
  st <> [] -> forallb isNameChar st = true ->
  ex <> [] -> forallb isAlnum ex = true ->
  stops isNameChar rest ->
  run (Star isSpace
       +++ Grp 1 (Plus isNameChar +++ Cls (N.eqb 46) +++ Plus isAlnum))%re
      (ws ++ (st ++ DOT :: ex) ++ rest) cp (fun s' c => Some (s', c))
  = Some (rest, (1, st ++ DOT :: ex) :: cp).
Proof.
  intros Hws Hst Hs Hex He Hrest. rewrite run_Cat.
  apply run_Star_all; trivial.
  - destruct st as [|x st]; [congruence|]. simpl.
    simpl in Hs. apply andb_true_iff in Hs as [Hx _].
    now apply isNameChar_not_space.
  - now apply run_name.
Qed.

(** Neither [filename:] nor [file:] is read off the front of a token:
    a token has no colon and the words have no dot. *)
Lemma fileWord_fail (st more : jsstring) c k :
  forallb isNameChar st = true ->
  run V1.fileWord (st ++ DOT :: more) c k = None.
Proof.
  intros Hs. unfold V1.fileWord.
  assert (F : forall x, isNameChar x = true ->
                 N.eqb (canon x) (canon 58) = false)
    by (intros; now apply isNameChar_not_colon).
  cbn [run str map list_ascii_of_string].
  change (N_of_ascii "f") with 102%N. change (N_of_ascii "i") with 105%N.
  change (N_of_ascii "l") with 108%N. change (N_of_ascii "e") with 101%N.
  change (N_of_ascii "n") with 110%N. change (N_of_ascii "a") with 97%N.
  change (N_of_ascii "m") with 109%N. change (N_of_ascii ":") with 58%N.
  assert (A : run (LitI [102; 105; 108; 101; 110; 97; 109; 101; 58]%N)
                (st ++ DOT :: more) c k = None).
  { clear - Hs F.
    do 9 (destruct st as [|? st];
          [ simpl app; cbn [run LitI];
            repeat match goal with
                   | |- (if ?b then _ else _) = None =>
                       destruct b eqn:?; [|reflexivity]
                   end; try (vm_compute in *; discriminate); reflexivity
          | simpl in Hs; apply andb_true_iff in Hs as [? Hs] ]).
    simpl app. cbn [run LitI].
    repeat match goal with
           | |- (if ?b then _ else _) = None =>
               destruct b eqn:?; [|reflexivity]
           end.
    rewrite F in * by assumption. discriminate. }
  rewrite A.
  clear A.
  do 5 (destruct st as [|? st];
        [ simpl app; cbn [run LitI];
          repeat match goal with
                 | |- (if ?b then _ else _) = None =>
                     destruct b eqn:?; [|reflexivity]
                 end; try (vm_compute in *; discriminate); reflexivity
        | simpl in Hs; apply andb_true_iff in Hs as [? Hs] ]).
  simpl app. cbn [run LitI].
  repeat match goal with
         | |- (if ?b then _ else _) = None =>
             destruct b eqn:?; [|reflexivity]
         end.
  rewrite F in * by assumption. discriminate.
Qed.

Lemma ltb_shorter (w s : jsstring) :
  w <> [] -> (length s <? length (w ++ s)) = true.
Proof.
  intros H. apply Nat.ltb_lt. rewrite length_app.
  destruct w; [congruence | simpl; lia].
Qed.

Lemma run_Alt (r1 r2 : regex) s c k :
  run (Alt r1 r2) s c k
  = match run r1 s c k with
    | Some y => Some y
    | None => run r2 s c k
    end.
Proof. reflexivity. Qed.

Lemma filename_on_file (s : jsstring) c k :
  run (LitI (str "filename:")) (str "file:" ++ s) c k = None.
Proof. reflexivity. Qed.

(** At the marker of a named line the expression matches and captures
    the token. *)
Lemma matchAt_named (l : NamedLine) :
  namedLine l ->
  matchAt V1.fileNameRegex
    (marker l ++ ws1 l ++ word l ++ ws2 l ++ nameOf l ++ after l)
  = Some (after l, [(1, nameOf l)]).
Proof.
  intros (Hm & Hw1 & Hword & Hw2 & Hst & Hs & Hex & He & Hrest).
  unfold matchAt, V1.fileNameRegex.
  rewrite run_Cat, marker_run by assumption.
  rewrite run_Cat. unfold nameOf.
  unfold fileWords in Hword. simpl in Hword.
  destruct Hword as [E|[E|[E|[]]]]; rewrite <- E.
  - (* no word: the white space is one run *)
    simpl app. rewrite app_assoc.
    apply run_Star_all.
    + now rewrite forallb_app, Hw1, Hw2.
    + destruct (stem l) as [|x st]; [congruence|]. simpl.
      simpl in Hs. apply andb_true_iff in Hs as [Hx _].
      now apply isNameChar_not_space.
    + rewrite run_Cat, run_Opt.
      rewrite <- app_assoc. simpl app.
      rewrite fileWord_fail by assumption.
      change (stem l ++ DOT :: ext l ++ after l)
        with ([] ++ stem l ++ (DOT :: ext l) ++ after l).
      rewrite (app_assoc (stem l)).
      now apply run_ws_name.
  - (* filename: *)
    apply run_Star_all; [assumption|reflexivity|].
    rewrite run_Cat, run_Opt. unfold V1.fileWord.
    rewrite run_Alt, run_LitI_app. cbv beta.
    rewrite ltb_shorter by discriminate.
    now rewrite run_ws_name.
  - (* file: *)
    apply run_Star_all; [assumption|reflexivity|].
    rewrite run_Cat, run_Opt. unfold V1.fileWord.
    rewrite run_Alt, filename_on_file, run_LitI_app. cbv beta.
    rewrite ltb_shorter by discriminate.
    now rewrite run_ws_name.
Qed.

(** The search passes over a text in which no marker can begin, and
    finds the token behind the marker. *)
Lemma fileMatch_named (l : NamedLine) :
  namedLine l ->
  forallb (fun x => negb (markerStart x)) (before l) = true ->
  V1.fileMatch (lineText l) = Some (nameOf l).
Proof.
  intros Hl Hb. unfold V1.fileMatch, matchFirst, lineText.
  rewrite exec_skip.
  - now rewrite (exec_here _ _ _ _ _ (matchAt_named l Hl)).
  - intros g1 g2 E Hne. destruct g2 as [|x g2]; [congruence|].
    rewrite E, forallb_app in Hb. apply andb_true_iff in Hb as [_ Hb].
    simpl in Hb. apply andb_true_iff in Hb as [Hx _].
    apply negb_true_iff in Hx.
    unfold matchAt, V1.fileNameRegex. rewrite run_Cat.
    simpl app. now apply marker_fail.
Qed.

(** *** [generateFileName] *)

Lemma firstFileMatch_at (lines : list jsstring) (k : nat) (line f : jsstring) :
  nth_error lines k = Some line ->
  V1.fileMatch line = Some f ->
  (forall j l, j < k -> nth_error lines j = Some l -> V1.fileMatch l = None) ->
  V1.firstFileMatch lines = Some f.
Proof.
  revert lines; induction k as [|k IH]; intros [|l0 lines] Hk Hf Hbefore;
    try discriminate; simpl in *.
  - injection Hk as ->. now rewrite Hf.
  - rewrite (Hbefore 0 l0) by (lia || reflexivity).
    apply IH; trivial.
    intros j l Hj Hl. apply (Hbefore (S j) l); [lia | exact Hl].
Qed.

Lemma firstFileMatch_none (lines : list jsstring) :
  (forall line, In line lines -> V1.fileMatch line = None) ->
  V1.firstFileMatch lines = None.
Proof.
  induction lines as [|l lines IH]; intros H; simpl; [reflexivity|].
  rewrite (H l) by now left. apply IH. intros; apply H; now right.
Qed.

(** A named line among the first five, before which no line matches,
    gives its token. *)
Lemma generateFileName_named (codeBlock : jsstring) (index k : nat)
      (l : NamedLine) :
  namedLine l ->
  forallb (fun x => negb (markerStart x)) (before l) = true ->
  k < 5 ->
  nth_error (split NL codeBlock) k = Some (lineText l) ->
  (forall j line, j < k -> nth_error (split NL codeBlock) j = Some line ->
                  V1.fileMatch line = None) ->
  V1.generateFileName codeBlock index = nameOf l.
Proof.
  intros Hl Hb Hk Hline Hbefore. unfold V1.generateFileName.
  cbv zeta.
  rewrite (firstFileMatch_at (firstn 5 (split NL codeBlock)) k
             (lineText l) (nameOf l)); trivial.
  - rewrite nth_error_firstn.
    apply Nat.ltb_lt in Hk. now rewrite Hk.
  - now apply fileMatch_named.
  - intros j line Hj Hnth. rewrite nth_error_firstn in Hnth.
    destruct (j <? 5); [|discriminate]. now apply (Hbefore j).
Qed.

Lemma generateFileName_signatures (codeBlock : jsstring) (index : nat) :
  noFileComment codeBlock ->
  V1.generateFileName codeBlock index
  = if htmlSig codeBlock then str "index.html"
    else if manifestSig codeBlock then str "package.json"
    else if cssSig codeBlock then str "style.css"
    else if serverSig codeBlock then str "server.js"
    else if classSig codeBlock then str "app.js"
    else if scriptSig codeBlock
         then str "script" ++ ofNat (index + 1) ++ str ".js"
    else str "file" ++ ofNat (index + 1) ++ str ".txt".
Proof.
  intros H. unfold V1.generateFileName. cbv zeta.
  now rewrite (firstFileMatch_none _ H).
Qed.

(* ================================================================== *)
(** ** Facts about handlers *)
(* ================================================================== *)

Section HandlerFacts.

Context {E : Type}.

Lemma traceOf_bind {A B} (m : M E A) (f : A -> M E B) (w : World) :
  traceOf (bind m f) w
  = traceOf m w
    ++ match resultOf m w with
       | Done a => traceOf (f a) (worldOf m w)
       | Threw _ => []
       end.
Proof.
  unfold traceOf, resultOf, worldOf, bind.
  destruct (m w) as [[t1 w1] [a|e]]; simpl.
  - destruct (f a w1) as [[t2 w2] r]; reflexivity.
  - now rewrite app_nil_r.
Qed.

Lemma resultOf_bind {A B} (m : M E A) (f : A -> M E B) (w : World) :
  resultOf (bind m f) w
  = match resultOf m w with
    | Done a => resultOf (f a) (worldOf m w)
    | Threw e => Threw e
    end.
Proof.
  unfold resultOf, worldOf, bind.
  destruct (m w) as [[t1 w1] [a|e]]; simpl; [|reflexivity].
  destruct (f a w1) as [[t2 w2] r]; reflexivity.
Qed.

Lemma worldOf_bind {A B} (m : M E A) (f : A -> M E B) (w : World) :
  worldOf (bind m f) w
  = match resultOf m w with
    | Done a => worldOf (f a) (worldOf m w)
    | Threw _ => worldOf m w
    end.
Proof.
  unfold resultOf, worldOf, bind.
  destruct (m w) as [[t1 w1] [a|e]]; simpl; [|reflexivity].
  destruct (f a w1) as [[t2 w2] r]; reflexivity.
Qed.

Lemma traceOf_catch {A} (m : M E A) (h : exn -> M E A) (w : World) :
  traceOf (catch m h) w
  = traceOf m w
    ++ match resultOf m w with
       | Done _ => []
       | Threw e => traceOf (h e) (worldOf m w)
       end.
Proof.
  unfold traceOf, resultOf, worldOf, catch.
  destruct (m w) as [[t1 w1] [a|e]]; simpl.
  - now rewrite app_nil_r.
  - destruct (h e w1) as [[t2 w2] r]; reflexivity.
Qed.

Lemma resultOf_catch {A} (m : M E A) (h : exn -> M E A) (w : World) :
  resultOf (catch m h) w
  = match resultOf m w with
    | Done a => Done a
    | Threw e => resultOf (h e) (worldOf m w)
    end.
Proof.
  unfold resultOf, worldOf, catch.
  destruct (m w) as [[t1 w1] [a|e]]; simpl; [reflexivity|].
  destruct (h e w1) as [[t2 w2] r]; reflexivity.
Qed.

Lemma worldOf_catch {A} (m : M E A) (h : exn -> M E A) (w : World) :
  worldOf (catch m h) w
  = match resultOf m w with
    | Done _ => worldOf m w
    | Threw e => worldOf (h e) (worldOf m w)
    end.
Proof.
  unfold resultOf, worldOf, catch.
  destruct (m w) as [[t1 w1] [a|e]]; simpl; [reflexivity|].
  destruct (h e w1) as [[t2 w2] r]; reflexivity.
Qed.

Lemma traceOf_finally {A} (m : M E A) (f : M E unit) (w : World) :
  traceOf (finally m f) w = traceOf m w ++ traceOf f (worldOf m w).
Proof.
  unfold traceOf, worldOf, finally.
  destruct (m w) as [[t1 w1] r]; simpl.
  destruct (f w1) as [[t2 w2] r2]; reflexivity.
Qed.

Lemma resultOf_finally {A} (m : M E A) (f : M E unit) (w : World) :
  resultOf (finally m f) w = resultOf m w.
Proof.
  unfold resultOf, finally.
  destruct (m w) as [[t1 w1] r]; simpl.
  destruct (f w1) as [[t2 w2] r2]; reflexivity.
Qed.

Lemma traceOf_emit (e : E) (w : World) : traceOf (emit e) w = [e].
Proof. reflexivity. Qed.

Lemma traceOf_ret {A} (a : A) (w : World) : traceOf (@ret E A a) w = [].
Proof. reflexivity. Qed.

Lemma traceOf_throw {A} (e : exn) (w : World) :
  traceOf (@throw E A e) w = [].
Proof. reflexivity. Qed.

(** *** Properties of the events of a handler

    A property [Q] of event lists that holds of the empty list and of a
    concatenation when it holds of both parts holds of a handler when
    it holds of its pieces. *)

Variable Q : list E -> Prop.
Hypothesis Q_nil : Q [].
Hypothesis Q_app : forall t1 t2, Q t1 -> Q t2 -> Q (t1 ++ t2).

Lemma holds_ret {A} (a : A) : holds Q (@ret E A a).
Proof. intros w. exact Q_nil. Qed.

Lemma holds_throw {A} (e : exn) : holds Q (@throw E A e).
Proof. intros w. exact Q_nil. Qed.

Lemma holds_getWorld : holds Q (@getWorld E).
Proof. intros w. exact Q_nil. Qed.

Lemma holds_setWorld (w' : World) : holds Q (@setWorld E w').
Proof. intros w. exact Q_nil. Qed.

Lemma holds_emit (e : E) : Q [e] -> holds Q (emit e).
Proof. intros H w. exact H. Qed.

Lemma holds_bind {A B} (m : M E A) (f : A -> M E B) :
  holds Q m -> (forall a, holds Q (f a)) -> holds Q (bind m f).
Proof.
  intros Hm Hf w. rewrite traceOf_bind. apply Q_app; [apply Hm|].
  destruct (resultOf m w); [apply Hf | exact Q_nil].
Qed.

Lemma holds_catch {A} (m : M E A) (h : exn -> M E A) :
  holds Q m -> (forall e, holds Q (h e)) -> holds Q (catch m h).
Proof.
  intros Hm Hh w. rewrite traceOf_catch. apply Q_app; [apply Hm|].
  destruct (resultOf m w); [exact Q_nil | apply Hh].
Qed.

Lemma holds_finally {A} (m : M E A) (f : M E unit) :
  holds Q m -> holds Q f -> holds Q (finally m f).
Proof.
  intros Hm Hf w. rewrite traceOf_finally. apply Q_app; [apply Hm | apply Hf].
Qed.

Lemma holds_if {A} (b : bool) (m1 m2 : M E A) :
  holds Q m1 -> holds Q m2 -> holds Q (if b then m1 else m2).
Proof. destruct b; trivial. Qed.

End HandlerFacts.

Section Prefixes.

Context {E : Type}.

Lemma prefixed_nil {A} (m : M E A) : prefixed [] m.
Proof. intros w. now exists (traceOf m w). Qed.

Lemma prefixed_bind {A B} (pre : list E) (m : M E A) (f : A -> M E B) :
  prefixed pre m -> prefixed pre (bind m f).
Proof.
  intros H w. destruct (H w) as [rest Hr].
  rewrite traceOf_bind, Hr, <- app_assoc. eexists. reflexivity.
Qed.

Lemma prefixed_catch {A} (pre : list E) (m : M E A) (h : exn -> M E A) :
  prefixed pre m -> prefixed pre (catch m h).
Proof.
  intros H w. destruct (H w) as [rest Hr].
  rewrite traceOf_catch, Hr, <- app_assoc. eexists. reflexivity.
Qed.

Lemma prefixed_finally {A} (pre : list E) (m : M E A) (f : M E unit) :
  prefixed pre m -> prefixed pre (finally m f).
Proof.
  intros H w. destruct (H w) as [rest Hr].
  rewrite traceOf_finally, Hr, <- app_assoc. eexists. reflexivity.
Qed.

Lemma prefixed_emit {A} (e : E) (pre : list E) (k : M E A) :
  prefixed pre k -> prefixed (e :: pre) (bind (emit e) (fun _ => k)).
Proof.
  intros H w. destruct (H w) as [rest Hr].
  unfold traceOf in *. unfold bind, emit.
  destruct (k w) as [[t2 w2] r]. simpl in *. subst t2.
  eexists. reflexivity.
Qed.

(** A handler that emits the same events from every world and returns. *)
Lemma prefixed_after {A B} (t pre : list E) (m : M E A) (f : A -> M E B) :
  (forall w, traceOf m w = t /\ exists a, resultOf m w = Done a) ->
  (forall a, prefixed pre (f a)) ->
  prefixed (t ++ pre) (bind m f).
Proof.
  intros Hm Hf w. destruct (Hm w) as [Ht [a Ha]].
  rewrite traceOf_bind, Ht, Ha.
  destruct (Hf a (worldOf m w)) as [rest ->].
  exists rest. now rewrite app_assoc.
Qed.

End Prefixes.

(** *** Properties of every event of a handler *)

Lemma Forall_app_intro {A} (P : A -> Prop) (a b : list A) :
  Forall P a -> Forall P b -> Forall P (a ++ b).
Proof. intros Ha Hb. apply Forall_app. now split. Qed.

Section EveryEvent.

Context {E : Type}.
Variable P : E -> Prop.

Lemma every_ret {A} (a : A) : holds (Forall P) (@ret E A a).
Proof. intros w. constructor. Qed.

Lemma every_throw {A} (e : exn) : holds (Forall P) (@throw E A e).
Proof. intros w. constructor. Qed.

Lemma every_getWorld : holds (Forall P) (@getWorld E).
Proof. intros w. constructor. Qed.

Lemma every_setWorld (w' : World) : holds (Forall P) (@setWorld E w').
Proof. intros w. constructor. Qed.

Lemma every_emit (e : E) : P e -> holds (Forall P) (emit e).
Proof. intros H w. now repeat constructor. Qed.

Lemma every_bind {A B} (m : M E A) (f : A -> M E B) :
  holds (Forall P) m -> (forall a, holds (Forall P) (f a)) ->
  holds (Forall P) (bind m f).
Proof.
  apply holds_bind; [constructor | apply Forall_app_intro].
Qed.

Lemma every_catch {A} (m : M E A) (h : exn -> M E A) :
  holds (Forall P) m -> (forall e, holds (Forall P) (h e)) ->
  holds (Forall P) (catch m h).
Proof.
  apply holds_catch; [constructor | apply Forall_app_intro].
Qed.

Lemma every_callback (env : Env) : holds (Forall P) (@callback E env).
Proof. intros w. constructor. Qed.

Lemma every_finally {A} (m : M E A) (f : M E unit) :
  holds (Forall P) m -> holds (Forall P) f ->
  holds (Forall P) (finally m f).
Proof. apply holds_finally. apply Forall_app_intro. Qed.

End EveryEvent.

(** The handler is taken apart along its structure; what is left are
    the events emitted, to be checked one by one. *)
Ltac every_step :=
  cbv beta;
  lazymatch goal with
  | |- holds _ (bind _ _) => apply every_bind; [|intros ?]
  | |- holds _ (catch _ _) => apply every_catch; [|intros ?]
  | |- holds _ (finally _ _) => apply every_finally
  | |- holds _ (emit _) => apply every_emit
  | |- holds _ (ret _) => apply every_ret
  | |- holds _ (throw _) => apply every_throw
  | |- holds _ getWorld => apply every_getWorld
  | |- holds _ (setWorld _) => apply every_setWorld
  | |- holds _ (callback _) => apply every_callback
  | |- holds _ (if ?b then _ else _) => destruct b
  | |- holds _ (match ?x with _ => _ end) => destruct x
  end.

Ltac every_event := repeat every_step.

Section Returns.

Context {E : Type}.

Lemma returns_ret {A} (a : A) : returns (@ret E A a).
Proof. intros w. now exists a. Qed.

Lemma returns_emit (e : E) : returns (emit e).
Proof. intros w. now exists tt. Qed.

Lemma returns_bind {A B} (m : M E A) (f : A -> M E B) :
  returns m -> (forall a, returns (f a)) -> returns (bind m f).
Proof.
  intros Hm Hf w. rewrite resultOf_bind.
  destruct (Hm w) as [a ->]. apply Hf.
Qed.

Lemma returns_catch {A} (m : M E A) (h : exn -> M E A) :
  (forall e, returns (h e)) -> returns (catch m h).
Proof.
  intros Hh w. rewrite resultOf_catch.
  destruct (resultOf m w) as [a|e]; [now exists a | apply Hh].
Qed.

Lemma returns_finally {A} (m : M E A) (f : M E unit) :
  returns m -> returns (finally m f).
Proof. intros Hm w. rewrite resultOf_finally. apply Hm. Qed.

Lemma traceOf_returns {A B} (m : M E A) (f : A -> M E B) (w : World) :
  returns m ->
  exists a, traceOf (bind m f) w = traceOf m w ++ traceOf (f a) (worldOf m w).
Proof.
  intros Hm. destruct (Hm w) as [a Ha]. exists a.
  now rewrite traceOf_bind, Ha.
Qed.

End Returns.

Ltac returns_step :=
  cbv beta;
  lazymatch goal with
  | |- returns (bind _ _) => apply returns_bind; [|intros ?]
  | |- returns (catch _ _) => apply returns_catch; intros ?
  | |- returns (finally _ _) => apply returns_finally
  | |- returns (emit _) => apply returns_emit
  | |- returns (ret _) => apply returns_ret
  | |- returns (if ?b then _ else _) => destruct b
  | |- returns (match ?x with _ => _ end) => destruct x
  end.

Lemma run_holds {E A} (Q : list E -> Prop) (m : M E A) (w : World) t w' r :
  holds Q m -> m w = (t, w', r) -> Q t.
Proof. intros H Hr. specialize (H w). unfold traceOf in H. now rewrite Hr in H. Qed.

Lemma run_returns {E A} (m : M E A) (w : World) t w' e :
  returns m -> m w = (t, w', Threw e) -> False.
Proof.
  intros H Hr. destruct (H w) as [a Ha]. unfold resultOf in Ha.
  rewrite Hr in Ha. discriminate.
Qed.

(* ================================================================== *)
(** ** Numbers: the rounding to a double *)
(* ================================================================== *)

Section Doubles.

Local Open Scope Q_scope.

Lemma pow2_pos (z : Z) : 0 < pow2 z.
Proof. apply Qpower_0_lt. reflexivity. Qed.

Lemma pow2_plus (a b : Z) : pow2 (a + b) == pow2 a * pow2 b.
Proof. apply Qpower_plus. discriminate. Qed.

Lemma pow2_minus (a b : Z) : pow2 (a - b) == pow2 a / pow2 b.
Proof. apply Qpower_minus. discriminate. Qed.

Lemma pow2_Z (z : Z) : (0 <= z)%Z -> pow2 z == inject_Z (2 ^ z).
Proof. intros H. unfold pow2. now rewrite (Zpower_Qpower 2 z H). Qed.

Lemma pow2_le (a b : Z) : (a <= b)%Z -> pow2 a <= pow2 b.
Proof. intros H. apply Qpower_le_compat_l; [exact H | discriminate]. Qed.

Lemma pow2_lt_inv (a b : Z) : pow2 a < pow2 b -> (a < b)%Z.
Proof. intros H. apply (Qpower_lt_compat_l_inv 2); [exact H | reflexivity]. Qed.

Lemma pow2_succ (a : Z) : pow2 (a + 1) == 2 * pow2 a.
Proof. rewrite pow2_plus. change (pow2 1) with 2. apply Qmult_comm. Qed.

(** The bounds of a positive rational by the powers of 2. *)
Lemma ilog2_spec (q : Q) :
  0 < q -> pow2 (ilog2 q) <= q /\ q < pow2 (ilog2 q + 1).
Proof.
  intros Hq. destruct q as [n d]. unfold ilog2. cbn [Qnum Qden].
  assert (Hn : (0 < n)%Z).
  { unfold Qlt in Hq. simpl in Hq. lia. }
  set (ln := Z.log2 n). set (ld := Z.log2 (Z.pos d)).
  destruct (Z.log2_spec n Hn) as [N1 N2]. fold ln in N1, N2.
  destruct (Z.log2_spec (Z.pos d) eq_refl) as [D1 D2]. fold ld in D1, D2.
  assert (Ln : (0 <= ln)%Z) by apply Z.log2_nonneg.
  assert (Ld : (0 <= ld)%Z) by apply Z.log2_nonneg.
  assert (Q1 : inject_Z (2 ^ ln) <= inject_Z n) by now rewrite <- Zle_Qle.
  assert (Q2 : inject_Z n < 2 * inject_Z (2 ^ ln)).
  { change 2 with (inject_Z 2). rewrite <- inject_Z_mult, <- Zlt_Qlt.
    replace (Z.succ ln) with (ln + 1)%Z in N2 by lia.
    rewrite Z.pow_add_r in N2 by lia. lia. }
  assert (Q3 : inject_Z (2 ^ ld) <= inject_Z (Z.pos d)) by now rewrite <- Zle_Qle.
  assert (Q4 : inject_Z (Z.pos d) < 2 * inject_Z (2 ^ ld)).
  { change 2 with (inject_Z 2). rewrite <- inject_Z_mult, <- Zlt_Qlt.
    replace (Z.succ ld) with (ld + 1)%Z in D2 by lia.
    rewrite Z.pow_add_r in D2 by lia. lia. }
  rewrite <- (pow2_Z ln Ln) in Q1, Q2. rewrite <- (pow2_Z ld Ld) in Q3, Q4.
  assert (E : n # d == inject_Z n / inject_Z (Z.pos d)) by apply Qmake_Qdiv.
  pose proof (pow2_pos ln) as PA. pose proof (pow2_pos ld) as PB.
  set (A := pow2 ln) in *. set (B := pow2 ld) in *.
  set (N := inject_Z n) in *. set (D := inject_Z (Z.pos d)) in *.
  assert (PD : 0 < D) by (apply Qlt_le_trans with B; assumption).
  assert (Ea : pow2 (ln - ld) == A / B) by apply pow2_minus.
  destruct (Qle_bool (pow2 (ln - ld)) (n # d)) eqn:C.
  - apply Qle_bool_iff in C. split; [exact C|].
    rewrite pow2_succ, Ea, E.
    apply Qlt_shift_div_r; [exact PD|].
    setoid_replace (2 * (A / B) * D) with ((2 * A * D) / B) by (field; lra).
    apply Qlt_shift_div_l; [exact PB|]. nra.
  - assert (C' : n # d < pow2 (ln - ld)).
    { apply Qnot_le_lt. intros H. apply Qle_bool_iff in H. congruence. }
    replace (ln - ld - 1 + 1)%Z with (ln - ld)%Z by lia.
    split; [|exact C'].
    setoid_replace (pow2 (ln - ld - 1)) with (A / B / 2)
      by (rewrite pow2_minus, Ea; reflexivity).
    rewrite E. apply Qle_shift_div_l; [exact PD|].
    setoid_replace (A / B / 2 * D) with ((A * D) / (2 * B)) by (field; lra).
    apply Qle_shift_div_r; [lra|]. nra.
Qed.

Lemma ilog2_mono (x y : Q) : 0 < x -> x <= y -> (ilog2 x <= ilog2 y)%Z.
Proof.
  intros Hx Hxy.
  assert (Hy : 0 < y) by (apply Qlt_le_trans with x; assumption).
  destruct (ilog2_spec x Hx) as [X1 _]. destruct (ilog2_spec y Hy) as [_ Y2].
  assert (H : pow2 (ilog2 x) < pow2 (ilog2 y + 1)).
  { apply Qle_lt_trans with x; [exact X1|].
    apply Qle_lt_trans with y; assumption. }
  apply pow2_lt_inv in H. lia.
Qed.

Lemma roundEven_cases (q : Q) :
  roundEven q = Qfloor q \/ roundEven q = (Qfloor q + 1)%Z.
Proof.
  unfold roundEven. destruct (Qcompare _ _); [destruct (Z.even _)|..]; auto.
Qed.

Lemma roundEven_mono (x y : Q) : x <= y -> (roundEven x <= roundEven y)%Z.
Proof.
  intros H. pose proof (Qfloor_resp_le _ _ H) as F.
  destruct (Z.eq_dec (Qfloor x) (Qfloor y)) as [E|NE].
  - unfold roundEven. rewrite <- E.
    destruct (Qcompare_spec (x - inject_Z (Qfloor x)) (1 # 2)) as [X|X|X];
      destruct (Qcompare_spec (y - inject_Z (Qfloor x)) (1 # 2)) as [Y|Y|Y];
      try destruct (Z.even (Qfloor x)); try lia; exfalso; lra.
  - destruct (roundEven_cases x) as [->| ->]; destruct (roundEven_cases y) as [->| ->]; lia.
Qed.

Lemma roundEven_Z (z : Z) : roundEven (inject_Z z) = z.
Proof.
  unfold roundEven. rewrite Qfloor_Z.
  destruct (Qcompare_spec (inject_Z z - inject_Z z) (1 # 2)) as [X|X|X];
    try reflexivity; exfalso; lra.
Qed.

Lemma roundEven_le_Z (q : Q) (z : Z) : q <= inject_Z z -> (roundEven q <= z)%Z.
Proof. intros H. rewrite <- (roundEven_Z z). now apply roundEven_mono. Qed.

Lemma roundEven_ge_Z (q : Q) (z : Z) : inject_Z z <= q -> (z <= roundEven q)%Z.
Proof. intros H. rewrite <- (roundEven_Z z) at 1. now apply roundEven_mono. Qed.

Lemma ulp_pos (q : Q) : 0 < ulp q.
Proof. apply pow2_pos. Qed.

Lemma flPos_nonneg (q : Q) : 0 <= q -> 0 <= flPos q.
Proof.
  intros H. unfold flPos. apply Qmult_le_0_compat.
  - change 0 with (inject_Z 0). rewrite <- Zle_Qle. apply roundEven_ge_Z.
    change (inject_Z 0) with 0. apply Qle_shift_div_l; [apply ulp_pos | lra].
  - apply Qlt_le_weak, ulp_pos.
Qed.

(** Rounding to a double keeps the order of positive numbers. *)
Lemma flPos_mono (x y : Q) : 0 < x -> x <= y -> flPos x <= flPos y.
Proof.
  intros Hx Hxy.
  assert (Hy : 0 < y) by (apply Qlt_le_trans with x; assumption).
  pose proof (ilog2_mono x y Hx Hxy) as K.
  unfold flPos, ulp.
  set (ex := Z.max (ilog2 x - 52) (-1074)). set (ey := Z.max (ilog2 y - 52) (-1074)).
  destruct (Z.eq_dec ex ey) as [E|NE].
  - rewrite <- E. apply Qmult_le_compat_r; [|apply Qlt_le_weak, pow2_pos].
    rewrite <- Zle_Qle. apply roundEven_mono.
    apply Qle_shift_div_l; [apply pow2_pos|].
    setoid_replace (x / pow2 ex * pow2 ex) with x; [exact Hxy|].
    field. pose proof (pow2_pos ex). lra.
  - assert (L : (ex < ey)%Z) by (subst ex ey; lia).
    assert (Ey : ey = (ilog2 y - 52)%Z) by (subst ex ey; lia).
    assert (Kx : (ilog2 x + 1 <= ilog2 y)%Z) by (subst ex ey; lia).
    destruct (ilog2_spec x Hx) as [_ X2]. destruct (ilog2_spec y Hy) as [Y1 _].
    set (P := pow2 (ilog2 y)) in *.
    assert (XP : x <= P).
    { apply Qlt_le_weak, Qlt_le_trans with (pow2 (ilog2 x + 1)); [exact X2|].
      now apply pow2_le. }
    pose proof (pow2_pos ex) as Px. pose proof (pow2_pos ey) as Py.
    apply Qle_trans with P.
    + assert (D : (0 <= ilog2 y - ex)%Z) by lia.
      assert (EP : P == inject_Z (2 ^ (ilog2 y - ex)) * pow2 ex).
      { rewrite <- (pow2_Z _ D), <- pow2_plus. unfold P.
        now replace (ilog2 y - ex + ex)%Z with (ilog2 y) by lia. }
      rewrite EP. apply Qmult_le_compat_r; [|lra].
      rewrite <- Zle_Qle. apply roundEven_le_Z.
      apply Qle_shift_div_r; [exact Px|]. now rewrite <- EP.
    + assert (EP : P == inject_Z (2 ^ 52) * pow2 ey).
      { rewrite <- (pow2_Z 52) by lia. rewrite <- pow2_plus. unfold P.
        now replace (52 + ey)%Z with (ilog2 y) by lia. }
      rewrite EP at 1. apply Qmult_le_compat_r; [|lra].
      rewrite <- Zle_Qle. apply roundEven_ge_Z.
      apply Qle_shift_div_l; [exact Py|]. now rewrite <- EP.
Qed.

Lemma fl_nonneg (q : Q) : 0 <= q -> 0 <= fl q.
Proof.
  intros H. unfold fl. destruct (Qcompare_spec q 0) as [E|L|G].
  - lra.
  - lra.
  - now apply flPos_nonneg.
Qed.

(** Rounding to a double keeps the order of nonnegative numbers. *)
Lemma fl_mono (x y : Q) : 0 <= x -> x <= y -> fl x <= fl y.
Proof.
  intros Hx Hxy. unfold fl at 1. destruct (Qcompare_spec x 0) as [E|L|G].
  - apply fl_nonneg. lra.
  - lra.
  - unfold fl. destruct (Qcompare_spec y 0) as [E'|L'|G']; try lra.
    now apply flPos_mono.
Qed.

Lemma fl_one : fl 1 == 1.
Proof. vm_compute. reflexivity. Qed.

Lemma fl_hundred : fl (inject_Z 100) == inject_Z 100.
Proof. vm_compute. reflexivity. Qed.

End Doubles.

(* ================================================================== *)
(** ** The typing replay *)
(* ================================================================== *)

Lemma traceOf_emit_then {E A} (e : E) (k : M E A) (w : World) :
  traceOf (bind (emit e) (fun _ => k)) w = e :: traceOf k w.
Proof.
  unfold traceOf, bind, emit. destruct (k w) as [[t2 w2] r]. reflexivity.
Qed.

Lemma resultOf_emit_then {E A} (e : E) (k : M E A) (w : World) :
  resultOf (bind (emit e) (fun _ => k)) w = resultOf k w.
Proof.
  unfold resultOf, bind, emit. destruct (k w) as [[t2 w2] r]. reflexivity.
Qed.

Lemma worldOf_emit_then {E A} (e : E) (k : M E A) (w : World) :
  worldOf (bind (emit e) (fun _ => k)) w = worldOf k w.
Proof.
  unfold worldOf, bind, emit. destruct (k w) as [[t2 w2] r]. reflexivity.
Qed.

Lemma positions_below (fuel i step len j : nat) :
  In j (positions fuel i step len) -> j < len.
Proof.
  revert i; induction fuel as [|fuel IH]; intros i; simpl; [tauto|].
  destruct (i <? len) eqn:E; [|simpl; tauto].
  intros [<-|H]; [now apply Nat.ltb_lt | now apply (IH (i + step))].
Qed.

Lemma positions_from (fuel i step len j : nat) :
  In j (positions fuel i step len) -> i <= j.
Proof.
  revert i; induction fuel as [|fuel IH]; intros i; simpl; [tauto|].
  destruct (i <? len); [|simpl; tauto].
  intros [<-|H]; [lia|]. apply IH in H. lia.
Qed.

Section Progress.

Variable len : nat.

Lemma ofIndex_nonneg (a : nat) : Qle 0 (ofIndex a).
Proof.
  unfold ofIndex. change 0%Q with (inject_Z 0). rewrite <- Zle_Qle. lia.
Qed.

Lemma quotient_nonneg (a : nat) : Qle 0 (ofIndex a / ofIndex len).
Proof.
  unfold Qdiv. apply Qmult_le_0_compat; [apply ofIndex_nonneg|].
  apply Qinv_le_0_compat, ofIndex_nonneg.
Qed.

Lemma quotient_mono (a b : nat) :
  a <= b -> Qle (ofIndex a / ofIndex len) (ofIndex b / ofIndex len).
Proof.
  intros H. unfold Qdiv. apply Qmult_le_compat_r.
  - unfold ofIndex. rewrite <- Zle_Qle. lia.
  - apply Qinv_le_0_compat, ofIndex_nonneg.
Qed.

Lemma quotient_le_1 (a : nat) :
  a <= len -> Qle (ofIndex a / ofIndex len) 1.
Proof.
  intros H. destruct len as [|n] eqn:E.
  - assert (a = 0) by lia. subst a. vm_compute. discriminate.
  - apply Qle_shift_div_r.
    + unfold ofIndex. change 0%Q with (inject_Z 0). rewrite <- Zlt_Qlt. lia.
    + rewrite Qmult_1_l. unfold ofIndex. rewrite <- Zle_Qle. lia.
Qed.

(** The progress of the source, with its two roundings, keeps the
    order of the positions. *)
Lemma percent_mono (a b : nat) :
  a <= b -> Qle (V1.percent a len) (V1.percent b len).
Proof.
  intros H. unfold V1.percent, numMul, numDiv.
  pose proof (quotient_nonneg a) as N.
  pose proof (quotient_mono a b H) as Mo.
  pose proof (fl_nonneg _ N) as FN.
  pose proof (fl_mono _ _ N Mo) as FM.
  apply fl_mono.
  - apply Qmult_le_0_compat; [exact FN | discriminate].
  - apply Qmult_le_compat_r; [exact FM | discriminate].
Qed.

Lemma percent_nonneg (a : nat) : Qle 0 (V1.percent a len).
Proof.
  unfold V1.percent, numMul, numDiv. apply fl_nonneg.
  apply Qmult_le_0_compat; [|discriminate].
  apply fl_nonneg, quotient_nonneg.
Qed.

Lemma percent_le_100 (a : nat) :
  a <= len -> Qle (V1.percent a len) (inject_Z 100).
Proof.
  intros H. unfold V1.percent, numMul, numDiv.
  pose proof (quotient_nonneg a) as N.
  pose proof (fl_mono _ _ N (quotient_le_1 a H)) as F1.
  assert (F2 : Qle (fl (ofIndex a / ofIndex len)) 1).
  { apply Qle_trans with (fl 1); [exact F1|].
    apply Qle_lteq. right. exact fl_one. }
  apply Qle_trans with (fl (inject_Z 100));
    [|apply Qle_lteq; right; exact fl_hundred].
  apply fl_mono.
  - apply Qmult_le_0_compat; [apply fl_nonneg, N | discriminate].
  - apply Qle_trans with (1 * inject_Z 100)%Q;
      [|apply Qle_lteq; right; apply Qmult_1_l].
    apply Qmult_le_compat_r; [exact F2 | discriminate].
Qed.

(** Before the end of a text whose length is a length of a JavaScript
    string, the progress is below 100: the quotient is at most
    1 - 2^-53, which is a double, and the double nearest to a hundred
    times that is 100 - 2^-46. *)
Lemma percent_lt_100 (a : nat) :
  a < len -> (Z.of_nat len <= 2 ^ 53)%Z ->
  Qlt (V1.percent a len) (inject_Z 100).
Proof.
  intros H L. unfold V1.percent, numMul, numDiv.
  pose proof (quotient_nonneg a) as N.
  assert (B : Qle (ofIndex a / ofIndex len)
                  (9007199254740991 # 9007199254740992)).
  { apply Qle_shift_div_r.
    - unfold ofIndex. change 0%Q with (inject_Z 0). rewrite <- Zlt_Qlt. lia.
    - unfold ofIndex, Qle, Qmult, inject_Z. cbn [Qnum Qden].
      change (2 ^ 53)%Z with 9007199254740992%Z in L. nia. }
  pose proof (fl_mono _ _ N B) as F1.
  apply Qle_lt_trans
    with (fl (fl (9007199254740991 # 9007199254740992) * inject_Z 100)).
  - apply fl_mono.
    + apply Qmult_le_0_compat; [apply fl_nonneg, N | discriminate].
    + apply Qmult_le_compat_r; [exact F1 | discriminate].
  - vm_compute. reflexivity.
Qed.

Lemma fl_zero (q : Q) : Qeq q 0 -> fl q = 0%Q.
Proof.
  intros H. unfold fl. now rewrite (proj1 (Qeq_alt q 0) H).
Qed.

Lemma percent_zero : V1.percent 0 len = 0%Q.
Proof.
  unfold V1.percent, numMul, numDiv.
  rewrite (fl_zero (ofIndex 0 / ofIndex len)).
  - reflexivity.
  - unfold Qdiv, ofIndex. simpl Z.of_nat. apply Qmult_0_l.
Qed.

Lemma mathMin_le (a b : Q) : Qle (V1.mathMin a b) b.
Proof.
  unfold V1.mathMin, mathMin. destruct (Qle_bool a b) eqn:E.
  - now apply Qle_bool_iff.
  - apply Qle_refl.
Qed.

Lemma mathMin_le_l (a b : Q) : Qle (V1.mathMin a b) a.
Proof.
  unfold V1.mathMin, mathMin. destruct (Qle_bool a b) eqn:E.
  - apply Qle_refl.
  - apply Qlt_le_weak, Qnot_le_lt. intros H.
    apply Qle_bool_iff in H. congruence.
Qed.

Lemma mathMin_ge (c a b : Q) : Qle c a -> Qle c b -> Qle c (V1.mathMin a b).
Proof.
  intros Ha Hb. unfold V1.mathMin, mathMin. now destruct (Qle_bool a b).
Qed.

Lemma mathMin_mono (a a' b : Q) :
  Qle a a' -> Qle (V1.mathMin a b) (V1.mathMin a' b).
Proof.
  intros H. unfold V1.mathMin, mathMin.
  destruct (Qle_bool a b) eqn:E, (Qle_bool a' b) eqn:E'.
  - exact H.
  - now apply Qle_bool_iff.
  - apply Qle_bool_iff in E'.
    assert (Qle a b) by (eapply Qle_trans; eassumption).
    apply Qle_bool_iff in H0. congruence.
  - apply Qle_refl.
Qed.

Lemma mathRound_mono (a b : Q) :
  Qle a b -> (V0.mathRound a <= V0.mathRound b)%Z.
Proof.
  intros H. unfold V0.mathRound, mathRound. apply Qfloor_resp_le.
  apply Qplus_le_compat; [exact H | apply Qle_refl].
Qed.

Lemma nondecreasingQ_positions (g : nat -> Q) (fuel i step : nat) :
  (forall a b, a <= b -> Qle (g a) (g b)) ->
  nondecreasingQ (map g (positions fuel i step len)).
Proof.
  intros Hg. revert i; induction fuel as [|fuel IH]; intros i; simpl; [trivial|].
  destruct (i <? len); simpl; [|trivial].
  specialize (IH (i + step)).
  destruct (positions fuel (i + step) step len) as [|j rest] eqn:E;
    simpl; [trivial|].
  split; [|exact IH].
  apply Hg.
  assert (i + step <= j); [|lia].
  apply (positions_from fuel (i + step) step len). rewrite E. now left.
Qed.

Lemma nondecreasingZ_positions (g : nat -> Z) (fuel i step : nat) :
  (forall a b, a <= b -> (g a <= g b)%Z) ->
  nondecreasingZ (map g (positions fuel i step len)).
Proof.
  intros Hg. revert i; induction fuel as [|fuel IH]; intros i; simpl; [trivial|].
  destruct (i <? len); simpl; [|trivial].
  specialize (IH (i + step)).
  destruct (positions fuel (i + step) step len) as [|j rest] eqn:E;
    simpl; [trivial|].
  split; [|exact IH].
  apply Hg.
  assert (i + step <= j); [|lia].
  apply (positions_from fuel (i + step) step len). rewrite E. now left.
Qed.

End Progress.

(** *** The suspensions of the second version *)

Lemma suspend_done (env : Env) (w : World) :
  resultOf (V1.suspend env) w = Done tt.
Proof.
  unfold V1.suspend, resultOf, bind, getWorld, setWorld. simpl.
  destruct (button w && click env (awaits w)); reflexivity.
Qed.

Lemma sleep_done (env : Env) (ms : N) (w : World) :
  resultOf (V1.sleep env ms) w = Done tt.
Proof.
  unfold V1.sleep. rewrite resultOf_emit_then. apply suspend_done.
Qed.

(** What a suspension can add to the events: nothing, or the events of
    [cancelGeneration]. *)
Lemma suspend_trace (env : Env) (w : World) :
  traceOf (V1.suspend env) w = []
  \/ traceOf (V1.suspend env) w
     = [V1.Log info (Say "Generation cancelled by user"); V1.Abort;
        V1.SetIsLoading false; V1.SetCurrentStage ""; V1.SetLiveActive false].
Proof.
  unfold V1.suspend, traceOf, bind, getWorld, setWorld. simpl.
  destruct (button w && click env (awaits w)); [right | left]; reflexivity.
Qed.

Lemma sleep_trace (env : Env) (ms : N) (w : World) :
  traceOf (V1.sleep env ms) w = V1.Wait ms :: traceOf (V1.suspend env) w.
Proof. unfold V1.sleep. apply traceOf_emit_then. Qed.

Lemma chunkProgress_app (a b : list V1.Event) :
  V1.chunkProgress (a ++ b) = V1.chunkProgress a ++ V1.chunkProgress b.
Proof. apply flat_map_app. Qed.

Lemma chunkContents_app (a b : list V1.Event) :
  V1.chunkContents (a ++ b) = V1.chunkContents a ++ V1.chunkContents b.
Proof. apply flat_map_app. Qed.

Lemma sleep_no_chunk (env : Env) (ms : N) (w : World) :
  V1.chunkProgress (traceOf (V1.sleep env ms) w) = []
  /\ V1.chunkContents (traceOf (V1.sleep env ms) w) = [].
Proof.
  rewrite sleep_trace.
  destruct (suspend_trace env w) as [-> | ->]; split; reflexivity.
Qed.

(** The progress values written by the loop, whatever the user does
    during the waits. *)
Lemma typingLoop_progress (env : Env) (chunks : jsstring) :
  forall fuel i cur w,
    V1.chunkProgress (traceOf (V1.typingLoop env fuel i chunks cur) w)
    = map (fun j => V1.mathMin (V1.percent j (length chunks)) (inject_Z 100))
          (positions fuel i 20 (length chunks)).
Proof.
  induction fuel as [|fuel IH]; intros i cur w; simpl; [reflexivity|].
  destruct (i <? length chunks); [|reflexivity].
  rewrite traceOf_emit_then. simpl. f_equal.
  rewrite traceOf_bind, sleep_done, chunkProgress_app.
  rewrite (proj1 (sleep_no_chunk env 5 w)). simpl. apply IH.
Qed.

(** The buffers written by the loop, whatever the user does during the
    waits. *)
Lemma typingLoop_contents (env : Env) (chunks : jsstring) :
  forall fuel i cur w,
    V1.chunkContents (traceOf (V1.typingLoop env fuel i chunks cur) w)
    = buffers fuel i chunks cur.
Proof.
  induction fuel as [|fuel IH]; intros i cur w; simpl; [reflexivity|].
  destruct (i <? length chunks); [|reflexivity].
  rewrite traceOf_emit_then. simpl. f_equal.
  rewrite traceOf_bind, sleep_done, chunkContents_app.
  rewrite (proj2 (sleep_no_chunk env 5 w)). simpl. apply IH.
Qed.

(** *** The replay of the first version *)

Lemma typedProgress_app (a b : list V0.Event) :
  V0.typedProgress (a ++ b) = V0.typedProgress a ++ V0.typedProgress b.
Proof. apply flat_map_app. Qed.

Lemma typingLoop0_progress (chunks f l : jsstring) :
  forall fuel i cur w,
    V0.typedProgress (traceOf (V0.typingLoop fuel i chunks cur f l) w)
    = map (fun j => V0.mathRound (V0.percent j (length chunks)))
          (positions fuel i V0.CHUNK_SIZE (length chunks)).
Proof.
  induction fuel as [|fuel IH]; intros i cur w; simpl; [reflexivity|].
  destruct (i <? length chunks); [|reflexivity].
  rewrite traceOf_emit_then. simpl. f_equal.
  rewrite traceOf_emit_then. simpl. apply IH.
Qed.

(* ================================================================== *)
(** ** The submissions of the second version *)
(* ================================================================== *)

Lemma forallb_app_intro {A} (f : A -> bool) (a b : list A) :
  forallb f a = true -> forallb f b = true -> forallb f (a ++ b) = true.
Proof. intros Ha Hb. now rewrite forallb_app, Ha, Hb. Qed.

Lemma suspend_attemptEvent (env : Env) (w : World) :
  forallb attemptEvent (traceOf (V1.suspend env) w) = true.
Proof. destruct (suspend_trace env w) as [-> | ->]; reflexivity. Qed.

Lemma suspend_world (env : Env) (w : World) :
  fetches (worldOf (V1.suspend env) w) = fetches w
  /\ awaits (worldOf (V1.suspend env) w) = S (awaits w).
Proof.
  unfold V1.suspend, worldOf, bind, getWorld, setWorld. simpl.
  destruct (button w && click env (awaits w)); split; reflexivity.
Qed.

(** The request: its events belong to the network phase; it returns
    the reply of the backend, and throws on every other outcome. *)
Lemma request_cases (env : Env) (ep : string) (p : jsstring) (w : World) :
  forallb attemptEvent (traceOf (V1.request env ep p) w) = true
  /\ match resultOf (V1.request env ep p) w with
     | Done r => net env (fetches w) = Reply r
     | Threw _ => failing (net env (fetches w))
     end.
Proof.
  unfold V1.request, V1.suspend, V1.cancelGeneration, traceOf, resultOf,
    bind, getWorld, setWorld, emit, ret, throw.
  simpl.
  destruct (net env (fetches w));
    repeat (match goal with
            | |- context [if ?b then _ else _] => destruct b eqn:?
            end; simpl);
    split; solve [reflexivity | exact I].
Qed.

Lemma bind_getWorld {E A} (f : World -> M E A) (w : World) :
  bind getWorld f w = f w w.
Proof.
  unfold bind, getWorld. destruct (f w w) as [[t w'] r]. reflexivity.
Qed.

Lemma traceOf_getWorld {E A} (f : World -> M E A) (w : World) :
  traceOf (bind getWorld f) w = traceOf (f w) w.
Proof. unfold traceOf. now rewrite bind_getWorld. Qed.

Lemma resultOf_getWorld {E A} (f : World -> M E A) (w : World) :
  resultOf (bind getWorld f) w = resultOf (f w) w.
Proof. unfold resultOf. now rewrite bind_getWorld. Qed.

Lemma worldOf_getWorld {E A} (f : World -> M E A) (w : World) :
  worldOf (bind getWorld f) w = worldOf (f w) w.
Proof. unfold worldOf. now rewrite bind_getWorld. Qed.

(** The loop over the blocks.  When it returns: nothing when the token
    is cancelled, one file per block otherwise.  It throws only what a
    call of [onFileGenerated] throws, and its events are then the
    calls up to that one. *)
Lemma fileLoop_cases (env : Env) (h : bool) (blocks : list jsstring) :
  forall i w,
    match resultOf (V1.fileLoop env h i blocks) w with
    | Done names =>
        traceOf (V1.fileLoop env h i blocks) w
        = (if cancelled w then []
           else if h then map V1.FileGenerated (V1.extractFrom i blocks)
                else [])
        /\ names = (if cancelled w then []
                    else map V1.gf_fileName (V1.extractFrom i blocks))
    | Threw e =>
        forallb handedOn (traceOf (V1.fileLoop env h i blocks) w) = true
        /\ h = true /\ cancelled w = false
        /\ exists n, raises env n = Some e
    end.
Proof.
  induction blocks as [|b blocks IH]; intros i w.
  - simpl. destruct (cancelled w), h; split; reflexivity.
  - cbn [V1.fileLoop]. rewrite resultOf_getWorld, traceOf_getWorld.
    destruct (cancelled w) eqn:C; [split; reflexivity|].
    destruct h.
    + unfold V1.onFileGenerated, callback, traceOf, resultOf, bind, emit, ret.
      cbv beta iota.
      destruct (raises env (calls w)) as [e|] eqn:R.
      * simpl. repeat split; trivial. now exists (calls w).
      * set (w1 := mkWorld (fetches w) (awaits w) (cancelled w) (button w)
                           (S (calls w))).
        specialize (IH (S i) w1). unfold traceOf, resultOf in IH.
        change (cancelled w1) with (cancelled w) in IH. rewrite C in IH.
        destruct (V1.fileLoop env true (S i) blocks w1)
          as [[t2 w2] [names|e]]; simpl in *.
        -- destruct IH as [-> ->]. rewrite app_nil_r. split; reflexivity.
        -- destruct IH as (Hh & _ & _ & Hn). repeat split; trivial.
    + unfold traceOf, resultOf, bind, ret. cbv beta iota.
      specialize (IH (S i) w). unfold traceOf, resultOf in IH.
      rewrite C in IH.
      destruct (V1.fileLoop env false (S i) blocks w)
        as [[t2 w2] [names|e]]; simpl in *.
      * destruct IH as [-> ->]. split; reflexivity.
      * destruct IH as (_ & Hh & _). discriminate.
Qed.

(** When no call throws the loop returns. *)
Lemma fileLoop_returns (env : Env) (h : bool) (blocks : list jsstring)
      (i : nat) (w : World) :
  noThrow env h ->
  exists names, resultOf (V1.fileLoop env h i blocks) w = Done names.
Proof.
  intros NT. pose proof (fileLoop_cases env h blocks i w) as C.
  destruct (resultOf (V1.fileLoop env h i blocks) w) as [names|e];
    [now exists names|].
  destruct C as (_ & Hh & _ & n & Hn).
  destruct NT as [NT|NT]; [congruence|]. rewrite NT in Hn. discriminate.
Qed.

#[local] Arguments V1.codeBlocksOf : simpl never.
#[local] Arguments V1.extractFrom : simpl never.
#[local] Arguments V1.lineCount : simpl never.

Lemma request_trace_net (env : Env) (ep : string) (p : jsstring) (w : World)
      t w' r :
  V1.request env ep p w = (t, w', r) ->
  forallb attemptEvent t = true
  /\ match r with
     | Done x => net env (fetches w) = Reply x
     | Threw _ => failing (net env (fetches w))
     end.
Proof.
  intros H. pose proof (request_cases env ep p w) as C.
  unfold traceOf, resultOf in C. now rewrite H in C.
Qed.

Lemma attemptEvent_triedEvent (t : list V1.Event) :
  forallb attemptEvent t = true -> forallb triedEvent t = true.
Proof.
  induction t as [|e t IH]; simpl; [reflexivity|]. intros H.
  apply andb_true_iff in H as [He Ht]. rewrite (IH Ht), andb_true_r.
  unfold triedEvent. now rewrite He.
Qed.

Lemma handedOn_triedEvent (t : list V1.Event) :
  forallb handedOn t = true -> forallb triedEvent t = true.
Proof.
  induction t as [|e t IH]; simpl; [reflexivity|]. intros H.
  apply andb_true_iff in H as [He Ht]. rewrite (IH Ht), andb_true_r.
  unfold triedEvent. rewrite He. apply orb_true_r.
Qed.

(** A reply that is read and a call that throws: the attempt can throw
    outside its network phase. *)
Lemma not_networkOnly (env : Env) (h : bool) (n m : nat)
      (r : option jsstring) (e : exn) :
  h = true -> raises env n = Some e -> net env m = Reply r ->
  ~ networkOnly env h.
Proof.
  intros Hh Hn Hr [[NT|NT]|F].
  - congruence.
  - rewrite NT in Hn. discriminate.
  - specialize (F m). rewrite Hr in F. exact F.
Qed.

(** [handleFileGeneration]: it throws in the network phase, or it
    reads a reply and a call of [onFileGenerated] throws, or it reads
    a reply and runs its local phase. *)
Lemma handleFileGeneration_cases (env : Env) (h : bool) (input : jsstring)
      (w : World) :
  match resultOf (V1.handleFileGeneration env h input) w with
  | Threw _ =>
      forallb triedEvent (traceOf (V1.handleFileGeneration env h input) w)
      = true
      /\ (networkOnly env h ->
          forallb attemptEvent
            (traceOf (V1.handleFileGeneration env h input) w) = true
          /\ failing (net env (fetches w)))
  | Done _ =>
      exists t1 r c,
        traceOf (V1.handleFileGeneration env h input) w
        = t1 ++ generationLocal h r c
        /\ forallb attemptEvent t1 = true
        /\ net env (fetches w) = Reply r
  end.
Proof.
  unfold V1.handleFileGeneration, traceOf, resultOf, bind, emit.
  cbv beta iota.
  destruct (V1.request env "/api/claude-proxy" input w) as [[tr w'] [r|e]] eqn:R;
    destruct (request_trace_net _ _ _ _ _ _ _ R) as [Hnet Hr]; simpl in Hr.
  - pose proof (fileLoop_cases env h
                  (V1.codeBlocksOf (orElse r V1.fallbackGeneration)) 0 w')
      as FC.
    unfold traceOf, resultOf in FC.
    destruct (V1.fileLoop env h 0
                (V1.codeBlocksOf (orElse r V1.fallbackGeneration)) w')
      as [[tf wf] [names|e]]; simpl in FC.
    + destruct FC as [-> ->].
      destruct (cancelled w') eqn:C.
      * destruct h; simpl;
          exists (V1.SetCurrentStage "Generating code..."
                  :: V1.Log info (Say "Generating code locally...") :: tr),
                 r, true;
          (split; [|split; [simpl; exact Hnet | exact Hr]]);
          unfold generationLocal, generationMessage, filesFor; simpl;
          rewrite <- ?app_assoc; reflexivity.
      * destruct (V1.extractFrom 0
                    (V1.codeBlocksOf (orElse r V1.fallbackGeneration)))
          as [|f files] eqn:Ef;
          destruct h; simpl;
          exists (V1.SetCurrentStage "Generating code..."
                  :: V1.Log info (Say "Generating code locally...") :: tr),
                 r, false;
          (split; [|split; [simpl; exact Hnet | exact Hr]]);
          unfold generationLocal, generationMessage, filesFor;
          rewrite ?Ef; simpl; rewrite <- ?app_assoc; simpl;
          rewrite ?app_nil_r; reflexivity.
    + destruct FC as (Hf & Hh & _ & n & Hn). simpl. split.
      * rewrite forallb_app, (attemptEvent_triedEvent _ Hnet). simpl.
        apply (handedOn_triedEvent _ Hf).
      * intros NO. destruct (not_networkOnly env h n _ r e Hh Hn Hr NO).
  - simpl. rewrite ?app_nil_r. split.
    + simpl. now apply attemptEvent_triedEvent.
    + intros _. now rewrite Hnet.
Qed.

Lemma handleChatResponse_cases (env : Env) (input : jsstring) (w : World) :
  match resultOf (V1.handleChatResponse env input) w with
  | Threw _ =>
      forallb attemptEvent (traceOf (V1.handleChatResponse env input) w) = true
      /\ failing (net env (fetches w))
  | Done _ =>
      exists t1 r,
        traceOf (V1.handleChatResponse env input) w = t1 ++ chatLocal r
        /\ forallb attemptEvent t1 = true
        /\ net env (fetches w) = Reply r
  end.
Proof.
  unfold V1.handleChatResponse, traceOf, resultOf, bind, emit.
  cbv beta iota.
  destruct (V1.request env "/api/claude-proxy" input w) as [[tr w'] [r|e]] eqn:R;
    destruct (request_trace_net _ _ _ _ _ _ _ R) as [Hnet Hr]; simpl in Hr.
  - simpl. exists (V1.Log info (Say "Generating chat response...") :: tr), r.
    split; [|split; [simpl; exact Hnet | exact Hr]].
    unfold chatLocal. simpl. rewrite <- ?app_assoc. reflexivity.
  - simpl. rewrite ?app_nil_r. now rewrite Hnet.
Qed.

#[local] Arguments Nat.sub : simpl never.
#[local] Arguments N.mul : simpl never.
#[local] Arguments N.pow : simpl never.
#[local] Arguments N.of_nat : simpl never.

(** One attempt: it throws, in its network phase unless a call of
    [onFileGenerated] throws, or it reads a reply and runs the local
    phase. *)
Lemma attempt_cases (env : Env) (h : bool) (input : jsstring) (w : World) :
  match resultOf (V1.attempt env h input) w with
  | Threw _ =>
      forallb triedEvent (traceOf (V1.attempt env h input) w) = true
      /\ (networkOnly env h ->
          forallb attemptEvent (traceOf (V1.attempt env h input) w) = true
          /\ (cancelled w = true \/ failing (net env (fetches w))))
  | Done _ =>
      exists t1 r c,
        traceOf (V1.attempt env h input) w = t1 ++ localPhase h input r c
        /\ forallb attemptEvent t1 = true
        /\ net env (fetches w) = Reply r
        /\ cancelled w = false
  end.
Proof.
  unfold V1.attempt. rewrite resultOf_getWorld, traceOf_getWorld.
  unfold localPhase.
  destruct (cancelled w) eqn:C; [simpl; auto|].
  destruct (V1.isCodeGenerationRequest input).
  - pose proof (handleFileGeneration_cases env h input w) as H.
    destruct (resultOf (V1.handleFileGeneration env h input) w).
    + destruct H as (t1 & r & c & Ht & Hn & Hr).
      exists t1, r, c. auto.
    + destruct H as [H1 H2]. split; [exact H1|].
      intros NO. destruct (H2 NO). auto.
  - pose proof (handleChatResponse_cases env input w) as H.
    destruct (resultOf (V1.handleChatResponse env input) w).
    + destruct H as (t1 & r & Ht & Hn & Hr).
      exists t1, r, false. auto.
    + destruct H as [H1 H2]. split; [now apply attemptEvent_triedEvent|].
      auto.
Qed.

Lemma triedEvent_retryEvent (t : list V1.Event) :
  forallb triedEvent t = true -> forallb retryEvent t = true.
Proof.
  induction t as [|e t IH]; simpl; [reflexivity|]. intros H.
  apply andb_true_iff in H as [He Ht]. rewrite (IH Ht), andb_true_r.
  unfold triedEvent, retryEvent in *.
  destruct e; simpl in *; congruence.
Qed.

Lemma netEvent_retryEvent (t : list V1.Event) :
  forallb netEvent t = true -> forallb retryEvent t = true.
Proof.
  induction t as [|e t IH]; simpl; [reflexivity|]. intros H.
  apply andb_true_iff in H as [He Ht]. rewrite (IH Ht), andb_true_r.
  unfold retryEvent. now rewrite He.
Qed.

Lemma triedEvent_no_wait (t : list V1.Event) :
  forallb triedEvent t = true ->
  V1.waitsOf t = [] /\ V1.attemptsOf t = [].
Proof.
  induction t as [|e t IH]; simpl; [auto|]. intros H.
  apply andb_true_iff in H as [He Ht]. destruct (IH Ht) as [-> ->].
  destruct e; simpl in *; try discriminate; auto.
Qed.

Lemma attemptEvent_netEvent (t : list V1.Event) :
  forallb attemptEvent t = true -> forallb netEvent t = true.
Proof.
  induction t as [|e t IH]; simpl; [reflexivity|]. intros H.
  apply andb_true_iff in H as [He Ht]. rewrite (IH Ht), andb_true_r.
  destruct e; simpl in *; congruence.
Qed.

Lemma attemptEvent_no_wait (t : list V1.Event) :
  forallb attemptEvent t = true ->
  V1.waitsOf t = [] /\ V1.attemptsOf t = [].
Proof.
  induction t as [|e t IH]; simpl; [auto|]. intros H.
  apply andb_true_iff in H as [He Ht]. destruct (IH Ht) as [-> ->].
  destruct e; simpl in *; try discriminate; auto.
Qed.

Lemma waitsOf_app (a b : list V1.Event) :
  V1.waitsOf (a ++ b) = V1.waitsOf a ++ V1.waitsOf b.
Proof. apply flat_map_app. Qed.

Lemma attemptsOf_app (a b : list V1.Event) :
  V1.attemptsOf (a ++ b) = V1.attemptsOf a ++ V1.attemptsOf b.
Proof. apply flat_map_app. Qed.

Lemma sleep_netEvent (env : Env) (ms : N) (w : World) :
  forallb netEvent (traceOf (V1.sleep env ms) w) = true
  /\ V1.waitsOf (traceOf (V1.sleep env ms) w) = [ms]
  /\ V1.attemptsOf (traceOf (V1.sleep env ms) w) = [].
Proof.
  rewrite sleep_trace.
  destruct (suspend_trace env w) as [-> | ->]; repeat split; reflexivity.
Qed.

Lemma backoff_cons (i k : nat) :
  backoff i (S k) = (1000 * 2 ^ N.of_nat i)%N :: backoff (S i) k.
Proof. reflexivity. Qed.

#[local] Arguments V1.retryLoop : simpl never.

Lemma retryLoop_unfold (env : Env) (max r i : nat) (fn : V1.H unit) :
  V1.retryLoop env max (S r) i fn
  = catch (bind (emit (V1.SetRetryCount i)) (fun _ => fn))
      (fun e =>
         if i =? max then throw e
         else bind (V1.sleep env (1000 * 2 ^ N.of_nat i))
                   (fun _ => V1.retryLoop env max r (S i) fn)).
Proof. reflexivity. Qed.

(** The loop of [retry] around the attempts: it throws after the last
    attempt, or one attempt reads a reply and the local phase ends the
    events.  The events before are those of the attempts that threw. *)
Lemma retryLoop_cases (env : Env) (h : bool) (input : jsstring) (max : nat) :
  forall r' i w,
    i + S r' = S max ->
    match resultOf (V1.retryLoop env max (S r') i (V1.attempt env h input)) w
    with
    | Threw _ =>
        forallb retryEvent
          (traceOf (V1.retryLoop env max (S r') i (V1.attempt env h input)) w)
        = true
        /\ (networkOnly env h ->
            forallb netEvent
              (traceOf (V1.retryLoop env max (S r') i
                                     (V1.attempt env h input)) w)
            = true)
        /\ V1.waitsOf
             (traceOf (V1.retryLoop env max (S r') i
                                    (V1.attempt env h input)) w)
           = backoff i (max - i)
        /\ V1.attemptsOf
             (traceOf (V1.retryLoop env max (S r') i
                                    (V1.attempt env h input)) w)
           = seq i (S max - i)
    | Done _ =>
        exists t1 r c k,
          traceOf (V1.retryLoop env max (S r') i (V1.attempt env h input)) w
          = t1 ++ localPhase h input r c
          /\ forallb retryEvent t1 = true
          /\ (networkOnly env h -> forallb netEvent t1 = true)
          /\ (exists n, net env n = Reply r)
          /\ V1.waitsOf t1 = backoff i k
          /\ V1.attemptsOf t1 = seq i (S k)
          /\ i + k <= max
    end.
Proof.
  induction r' as [|r' IH]; intros i w Hi.
  - (* the last attempt *)
    assert (i = max) by lia. subst i.
    rewrite retryLoop_unfold, Nat.eqb_refl.
    rewrite resultOf_catch, traceOf_catch.
    rewrite resultOf_emit_then, traceOf_emit_then.
    pose proof (attempt_cases env h input w) as A.
    destruct (resultOf (V1.attempt env h input) w) as [[]|e].
    + destruct A as (t1 & r & c & Ht & Hn & Hr & _).
      exists (V1.SetRetryCount max :: t1), r, c, 0.
      rewrite app_nil_r, Ht.
      destruct (attemptEvent_no_wait t1 Hn) as [W A].
      pose proof (attemptEvent_netEvent _ Hn) as Hn'.
      pose proof (netEvent_retryEvent _ Hn') as Hr'.
      repeat split; simpl; rewrite ?W, ?A; eauto. lia.
    + destruct A as [Ht HN]. simpl. rewrite app_nil_r.
      destruct (triedEvent_no_wait _ Ht) as [W A].
      rewrite Nat.sub_diag. replace (S max - max) with 1 by lia.
      split; [simpl; now apply triedEvent_retryEvent|].
      split; [intros NO; simpl; apply attemptEvent_netEvent, (HN NO)|].
      split; simpl; rewrite ?W, ?A; reflexivity.
  - (* an attempt with attempts left *)
    assert (Hlt : i <> max) by lia. apply Nat.eqb_neq in Hlt.
    rewrite (retryLoop_unfold env max (S r')), Hlt.
    rewrite resultOf_catch, traceOf_catch.
    rewrite resultOf_emit_then, traceOf_emit_then, worldOf_emit_then.
    pose proof (attempt_cases env h input w) as A.
    destruct (resultOf (V1.attempt env h input) w) as [[]|e].
    + destruct A as (t1 & r & c & Ht & Hn & Hr & _).
      exists (V1.SetRetryCount i :: t1), r, c, 0.
      rewrite app_nil_r, Ht.
      destruct (attemptEvent_no_wait t1 Hn) as [W A].
      pose proof (attemptEvent_netEvent _ Hn) as Hn'.
      pose proof (netEvent_retryEvent _ Hn') as Hr'.
      repeat split; simpl; rewrite ?W, ?A; eauto. lia.
    + destruct A as [Ht HN].
      destruct (triedEvent_no_wait _ Ht) as [W A].
      pose proof (triedEvent_retryEvent _ Ht) as Hre.
      set (w1 := worldOf (V1.attempt env h input) w).
      rewrite resultOf_bind, traceOf_bind, sleep_done.
      destruct (sleep_netEvent env (1000 * 2 ^ N.of_nat i) w1)
        as (Sn & Sw & Sa).
      pose proof (netEvent_retryEvent _ Sn) as Sr.
      set (w2 := worldOf (V1.sleep env (1000 * 2 ^ N.of_nat i)) w1).
      specialize (IH (S i) w2 ltac:(lia)).
      destruct (resultOf (V1.retryLoop env max (S r') (S i)
                                        (V1.attempt env h input)) w2)
        as [[]|e'].
      * destruct IH as (t1 & r & c & k & Ht1 & Hr1 & Hn1 & Hr & Hw & Ha & Hk).
        cbv beta iota.
        exists (V1.SetRetryCount i
                :: traceOf (V1.attempt env h input) w
                   ++ traceOf (V1.sleep env (1000 * 2 ^ N.of_nat i)) w1
                   ++ t1), r, c, (S k).
        rewrite Ht1. repeat split.
        -- simpl. now rewrite <- !app_assoc.
        -- simpl. now rewrite !forallb_app, Sr, Hr1, Hre.
        -- intros NO. simpl. rewrite !forallb_app, Sn, (Hn1 NO).
           now rewrite (attemptEvent_netEvent _ (proj1 (HN NO))).
        -- exact Hr.
        -- simpl. rewrite !waitsOf_app, W, Sw, Hw. reflexivity.
        -- simpl. rewrite !attemptsOf_app, A, Sa, Ha. reflexivity.
        -- lia.
      * destruct IH as (Hr1 & Hn1 & Hw & Ha).
        cbv beta iota.
        repeat split.
        -- simpl. now rewrite !forallb_app, Sr, Hr1, Hre.
        -- intros NO. simpl. rewrite !forallb_app, Sn, (Hn1 NO).
           now rewrite (attemptEvent_netEvent _ (proj1 (HN NO))).
        -- simpl. rewrite !waitsOf_app, W, Sw, Hw.
           replace (max - i) with (S (max - S i)) by lia. reflexivity.
        -- simpl. rewrite !attemptsOf_app, A, Sa, Ha.
           replace (S max - i) with (S (S max - S i)) by lia. reflexivity.
Qed.

Lemma traceOf_setWorld {E A} (w' : World) (k : M E A) (w : World) :
  traceOf (bind (setWorld w') (fun _ => k)) w = traceOf k w'.
Proof.
  unfold traceOf, bind, setWorld. destruct (k w') as [[t w2] r]. reflexivity.
Qed.

Lemma closing_trace (w : World) :
  traceOf
    (bind (emit (V1.SetIsLoading false)) (fun _ =>
     bind (emit (V1.SetCurrentStage "")) (fun _ =>
     bind (emit (V1.SetLiveActive false)) (fun _ =>
     bind (emit (V1.SetCancelToken false)) (fun _ =>
     bind getWorld (fun w' =>
     setWorld (mkWorld (fetches w') (awaits w') (cancelled w') false
                       (calls w'))))))))
    w
  = closing.
Proof. reflexivity. Qed.

Lemma failure_trace (e : exn) (w : World) :
  traceOf
    (bind (emit (V1.ConsoleError e)) (fun _ =>
     bind (emit (V1.AppendErrorAlert e)) (fun _ =>
     bind (emit (V1.AppendMessage (V1.mkMessage ai (V1.ErrorNote e) TError None)))
          (fun _ => emit (V1.Log failure (SayError e))))))
    w
  = failureEvents e.
Proof. reflexivity. Qed.

(** A submission of the second version goes one of the two ways. *)
Lemma handleAIResponse_cases (env : Env) (h : bool) (input : jsstring)
      (w : World) :
  failedRun env h (traceOf (V1.handleAIResponse env h input) w)
  \/ succeededRun env h input (traceOf (V1.handleAIResponse env h input) w).
Proof.
  unfold V1.handleAIResponse.
  rewrite !traceOf_emit_then, traceOf_getWorld, traceOf_setWorld.
  rewrite !traceOf_emit_then, traceOf_finally, closing_trace.
  rewrite traceOf_catch, traceOf_bind, resultOf_bind.
  unfold V1.retry.
  set (w0 := mkWorld (fetches w) (awaits w) false true (calls w)).
  pose proof (retryLoop_cases env h input 3 3 0 w0 eq_refl) as R.
  destruct (resultOf (V1.retryLoop env 3 4 0 (V1.attempt env h input)) w0)
    as [[]|e].
  - right. destruct R as (t1 & r & c & k & Ht & Hr & Hn & Hrep & Hw & Ha & Hk).
    exists t1, r, c, k. rewrite Ht.
    repeat split; trivial.
    cbv beta iota. unfold opening, successEvents.
    rewrite traceOf_emit. simpl. rewrite <- !app_assoc. reflexivity.
  - left. destruct R as (Hr & Hn & Hw & Ha).
    exists e, (traceOf (V1.retryLoop env 3 4 0 (V1.attempt env h input)) w0).
    repeat split; trivial.
    cbv beta iota. rewrite failure_trace. unfold opening.
    simpl. rewrite <- !app_assoc. reflexivity.
Qed.

(** *** Runs in which the user never presses Cancel *)

Section NoClick.

Variable env : Env.
Hypothesis noClick : forall n, click env n = false.

Lemma suspend_noclick (w : World) :
  V1.suspend env w
  = ([], mkWorld (fetches w) (S (awaits w)) (cancelled w) (button w) (calls w),
     Done tt).
Proof.
  unfold V1.suspend, bind, getWorld, setWorld. simpl.
  now rewrite noClick, andb_false_r.
Qed.

Lemma sleep_noclick (ms : N) (w : World) :
  V1.sleep env ms w
  = ([V1.Wait ms],
     mkWorld (fetches w) (S (awaits w)) (cancelled w) (button w) (calls w),
     Done tt).
Proof.
  unfold V1.sleep, bind, emit. now rewrite suspend_noclick.
Qed.

Lemma request_noclick (ep : string) (p : jsstring) (w : World) :
  exists a,
    V1.request env ep p w
    = ([V1.Fetch ep p],
       mkWorld (S (fetches w)) a (cancelled w) (button w) (calls w),
       match net env (fetches w) with
       | NetDown m => Threw (Rejection m)
       | Status s => Threw (HttpError s)
       | Malformed m => Threw (Rejection m)
       | Reply r => Done r
       end).
Proof.
  unfold V1.request, bind, getWorld, setWorld, emit, throw, ret.
  cbv beta iota. rewrite suspend_noclick. cbv beta iota.
  destruct (net env (fetches w)); try rewrite suspend_noclick;
    eexists; reflexivity.
Qed.

(** An attempt whose request fails. *)
Lemma attempt_fails (h : bool) (input : jsstring) (w : World) :
  cancelled w = false -> failing (net env (fetches w)) ->
  exists t a e,
    V1.attempt env h input w
    = (t, mkWorld (S (fetches w)) a false (button w) (calls w), Threw e)
    /\ forallb attemptEvent t = true
    /\ length (V1.fetchesOf t) = 1.
Proof.
  intros C F. unfold V1.attempt. rewrite bind_getWorld, C.
  destruct (V1.isCodeGenerationRequest input).
  - unfold V1.handleFileGeneration, bind, emit. cbv beta iota.
    destruct (request_noclick "/api/claude-proxy" input w) as [a ->].
    rewrite C.
    destruct (net env (fetches w)); [| | |destruct F];
      do 3 eexists; (split; [reflexivity | split; reflexivity]).
  - unfold V1.handleChatResponse, bind, emit. cbv beta iota.
    destruct (request_noclick "/api/claude-proxy" input w) as [a ->].
    rewrite C.
    destruct (net env (fetches w)); [| | |destruct F];
      do 3 eexists; (split; [reflexivity | split; reflexivity]).
Qed.

(** An attempt whose request is answered, when no call of
    [onFileGenerated] throws. *)
Lemma attempt_succeeds (h : bool) (input : jsstring) (w : World)
      (r : option jsstring) :
  noThrow env h ->
  cancelled w = false -> net env (fetches w) = Reply r ->
  exists t1,
    traceOf (V1.attempt env h input) w = t1 ++ localPhase h input r false
    /\ resultOf (V1.attempt env h input) w = Done tt
    /\ forallb attemptEvent t1 = true
    /\ length (V1.fetchesOf t1) = 1.
Proof.
  intros NT C R. unfold V1.attempt, traceOf, resultOf.
  rewrite bind_getWorld, C. unfold localPhase.
  destruct (V1.isCodeGenerationRequest input).
  - unfold V1.handleFileGeneration, bind, emit. cbv beta iota.
    destruct (request_noclick "/api/claude-proxy" input w) as [a ->].
    rewrite R. cbv beta iota.
    match goal with
    | |- context [V1.fileLoop env h 0 ?bs ?w1] =>
        pose proof (fileLoop_cases env h bs 0 w1) as FC;
        destruct (fileLoop_returns env h bs 0 w1 NT) as [names Hn];
        unfold traceOf, resultOf in FC, Hn;
        destruct (V1.fileLoop env h 0 bs w1) as [[tf wf] res]
    end.
    simpl in Hn. subst res. simpl in FC. rewrite C in FC.
    destruct FC as [-> ->].
    exists [V1.SetCurrentStage "Generating code...";
            V1.Log info (Say "Generating code locally...");
            V1.Fetch "/api/claude-proxy" input].
    unfold generationLocal, generationMessage, filesFor.
    destruct (V1.extractFrom 0
                (V1.codeBlocksOf (orElse r V1.fallbackGeneration)))
      as [|f files] eqn:Ef;
      destruct h; simpl; rewrite <- ?app_assoc; simpl; rewrite ?app_nil_r;
      repeat split; reflexivity.
  - unfold V1.handleChatResponse, bind, emit. cbv beta iota.
    destruct (request_noclick "/api/claude-proxy" input w) as [a ->].
    rewrite R. cbv beta iota.
    exists [V1.Log info (Say "Generating chat response...");
            V1.Fetch "/api/claude-proxy" input].
    repeat split; reflexivity.
Qed.

Lemma fetchesOf_app (a b : list V1.Event) :
  V1.fetchesOf (a ++ b) = V1.fetchesOf a ++ V1.fetchesOf b.
Proof. apply flat_map_app. Qed.

(** The loop of [retry] when the first [k] requests fail and the next
    one is answered. *)
Lemma retryLoop_noclick (h : bool) (input : jsstring) (max : nat)
      (r : option jsstring) :
  noThrow env h ->
  forall k r' i w,
    i + S r' = S max -> k <= r' -> cancelled w = false ->
    (forall j, j < k -> failing (net env (fetches w + j))) ->
    net env (fetches w + k) = Reply r ->
    exists t1,
      traceOf (V1.retryLoop env max (S r') i (V1.attempt env h input)) w
      = t1 ++ localPhase h input r false
      /\ resultOf (V1.retryLoop env max (S r') i (V1.attempt env h input)) w
         = Done tt
      /\ forallb netEvent t1 = true
      /\ V1.waitsOf t1 = backoff i k
      /\ V1.attemptsOf t1 = seq i (S k)
      /\ length (V1.fetchesOf t1) = S k.
Proof.
  intros NT.
  induction k as [|k IH]; intros r' i w Hi Hk C F R.
  - rewrite Nat.add_0_r in R.
    destruct (attempt_succeeds h input w r NT C R)
      as (t1 & Ht & Hr & Hn & Hf).
    exists (V1.SetRetryCount i :: t1).
    rewrite retryLoop_unfold, traceOf_catch, resultOf_catch.
    rewrite traceOf_emit_then, resultOf_emit_then, Ht, Hr.
    destruct (attemptEvent_no_wait t1 Hn) as [W A].
    rewrite app_nil_r. simpl. rewrite W, A, Hf.
    repeat split; auto using attemptEvent_netEvent.
  - destruct r' as [|r']; [lia|].
    assert (Hne : i <> max) by lia. apply Nat.eqb_neq in Hne.
    destruct (attempt_fails h input w C) as (t & a & e & Ha & Hn & Hf).
    { rewrite <- (Nat.add_0_r (fetches w)). apply F. lia. }
    set (w1 := mkWorld (S (fetches w)) a false (button w) (calls w)) in *.
    set (w2 := mkWorld (fetches w1) (S (awaits w1)) (cancelled w1) (button w1)
                       (calls w1)).
    destruct (IH r' (S i) w2) as (t1 & Ht & Hr & Hn1 & Hw & Hat & Hfe);
      [lia | lia | reflexivity | | |].
    { intros j Hj. specialize (F (S j) ltac:(lia)).
      unfold w2, w1. simpl. now rewrite Nat.add_succ_r in F. }
    { unfold w2, w1. simpl. now rewrite Nat.add_succ_r in R. }
    exists (V1.SetRetryCount i :: t
            ++ V1.Wait (1000 * 2 ^ N.of_nat i) :: t1).
    rewrite (retryLoop_unfold env max (S r')), Hne.
    unfold traceOf, resultOf, catch, bind, emit in *. cbv beta iota.
    rewrite Ha. cbv beta iota. rewrite sleep_noclick. cbv beta iota.
    fold w2.
    destruct (V1.retryLoop env max (S r') (S i) (V1.attempt env h input) w2)
      as [[tr wr] res].
    simpl in Ht, Hr. subst tr res.
    destruct (attemptEvent_no_wait t Hn) as [W A].
    simpl. rewrite <- !app_assoc. simpl.
    repeat split.
    + rewrite forallb_app. simpl.
      now rewrite (attemptEvent_netEvent _ Hn), Hn1.
    + rewrite waitsOf_app, W. simpl. now rewrite Hw.
    + rewrite attemptsOf_app, A. simpl. now rewrite Hat.
    + rewrite fetchesOf_app, length_app, Hf. simpl. now rewrite Hfe.
Qed.

End NoClick.

(** *** What is read off the two ways *)

Lemma errorsOf_app (a b : list V1.Event) :
  V1.errorsOf (a ++ b) = V1.errorsOf a ++ V1.errorsOf b.
Proof. apply flat_map_app. Qed.

Lemma filesOf_app (a b : list V1.Event) :
  V1.filesOf (a ++ b) = V1.filesOf a ++ V1.filesOf b.
Proof. apply flat_map_app. Qed.

Lemma netEvent_obs (t : list V1.Event) :
  forallb netEvent t = true ->
  V1.errorsOf t = [] /\ V1.filesOf t = []
  /\ existsb flipEvent t = false /\ existsb reportsFiles t = false
  /\ forallb unsettled t = true /\ Forall keepsMode t.
Proof.
  induction t as [|e t IH]; simpl; [repeat split; constructor|]. intros H.
  apply andb_true_iff in H as [He Ht].
  destruct (IH Ht) as (-> & -> & -> & -> & -> & Hk).
  destruct e; simpl in *; try discriminate; repeat split;
    try constructor; simpl; auto.
Qed.

Lemma retryEvent_obs (t : list V1.Event) :
  forallb retryEvent t = true ->
  V1.errorsOf t = []
  /\ existsb flipEvent t = false /\ existsb reportsFiles t = false
  /\ forallb unsettled t = true /\ Forall keepsMode t.
Proof.
  induction t as [|e t IH]; simpl; [repeat split; constructor|]. intros H.
  apply andb_true_iff in H as [He Ht].
  destruct (IH Ht) as (-> & -> & -> & -> & Hk).
  destruct e; simpl in *; try discriminate; repeat split;
    try constructor; simpl; auto.
Qed.

Lemma filesOf_generated (fs : list V1.GeneratedFile) :
  V1.filesOf (map V1.FileGenerated fs) = fs.
Proof. induction fs as [|f fs IH]; simpl; [reflexivity | now rewrite IH]. Qed.

Lemma generated_settled (fs : list V1.GeneratedFile) :
  forallb settled (map V1.FileGenerated fs) = true
  /\ V1.errorsOf (map V1.FileGenerated fs) = []
  /\ existsb flipEvent (map V1.FileGenerated fs) = false
  /\ existsb reportsFiles (map V1.FileGenerated fs) = false
  /\ Forall keepsMode (map V1.FileGenerated fs).
Proof.
  induction fs as [|f fs (H1 & H2 & H3 & H4 & H5)]; simpl;
    repeat split; auto; constructor; simpl; auto.
Qed.

(** The local phase: no error message, the files of the reply when the
    message asks for code and the callback is given, no request, and
    the mode is set when, and only when, a file is reported. *)
Lemma localPhase_obs (h : bool) (input : jsstring) (r : option jsstring)
      (c : bool) :
  let t := localPhase h input r c in
  V1.errorsOf t = []
  /\ V1.filesOf t
     = (if V1.isCodeGenerationRequest input && h then filesFor r c else [])
  /\ forallb settled t = true
  /\ Forall keepsMode t
  /\ existsb flipEvent t = existsb reportsFiles t
  /\ (existsb flipEvent t = true ->
      V1.isCodeGenerationRequest input = true /\ filesFor r c <> []).
Proof.
  cbv zeta. unfold localPhase.
  destruct (V1.isCodeGenerationRequest input); simpl andb.
  2:{ repeat split; try reflexivity; try discriminate.
      repeat constructor. }
  unfold generationLocal, generationMessage.
  destruct (generated_settled (filesFor r c)) as (G1 & G2 & G3 & G4 & G5).
  generalize (V1.lineCount (V1.codeBlocksOf (orElse r V1.fallbackGeneration))).
  generalize (V1.codeBlocksOf (orElse r V1.fallbackGeneration)).
  generalize (orElse r V1.fallbackGeneration).
  intros a l n.
  rewrite !errorsOf_app, !filesOf_app, !forallb_app, !existsb_app.
  assert (Hf : V1.filesOf (if h then map V1.FileGenerated (filesFor r c)
                           else []) = if h then filesFor r c else []).
  { destruct h; [apply filesOf_generated | reflexivity]. }
  assert (He : V1.errorsOf (if h then map V1.FileGenerated (filesFor r c)
                            else []) = []).
  { destruct h; [exact G2 | reflexivity]. }
  assert (Hs : forallb settled (if h then map V1.FileGenerated (filesFor r c)
                                else []) = true).
  { destruct h; [exact G1 | reflexivity]. }
  assert (Hfl : existsb flipEvent (if h then map V1.FileGenerated
                                               (filesFor r c)
                                   else []) = false).
  { destruct h; [exact G3 | reflexivity]. }
  assert (Hrf : existsb reportsFiles (if h then map V1.FileGenerated
                                               (filesFor r c)
                                   else []) = false).
  { destruct h; [exact G4 | reflexivity]. }
  assert (Hk : Forall keepsMode (if h then map V1.FileGenerated
                                               (filesFor r c)
                                   else [])).
  { destruct h; [exact G5 | constructor]. }
  rewrite Hf, He, Hs, Hfl, Hrf.
  generalize dependent (if h then map V1.FileGenerated (filesFor r c) else []).
  intros gen _ _ _ _ _ Hk.
  destruct (filesFor r c) as [|f fs] eqn:Ef.
  - destruct l; destruct h; simpl; repeat split; try discriminate;
      try (intros; discriminate);
      repeat first [ exact Hk | exact I | reflexivity
                   | apply Forall_app_intro | apply Forall_cons
                   | apply Forall_nil ].
  - destruct l; destruct h; simpl; rewrite ?app_nil_r;
      repeat split; try discriminate;
      repeat first [ exact Hk | exact I | reflexivity
                   | apply Forall_app_intro | apply Forall_cons
                   | apply Forall_nil ].
Qed.

Lemma failedRun_obs (env : Env) (h : bool) (t : list V1.Event) :
  failedRun env h t ->
  (exists e, V1.errorsOf t = [errorMessage e])
  /\ (networkOnly env h -> V1.filesOf t = [])
  /\ V1.waitsOf t = [1000; 2000; 4000]%N
  /\ V1.attemptsOf t = [0; 1; 2; 3]
  /\ existsb flipEvent t = false
  /\ existsb reportsFiles t = false
  /\ Forall keepsMode t.
Proof.
  intros (e & tn & -> & Hr & Hn & Hw & Ha).
  destruct (retryEvent_obs tn Hr) as (E & Fl & Rf & _ & K).
  rewrite !errorsOf_app, !waitsOf_app, !attemptsOf_app,
    !existsb_app, E, Hw, Ha, Fl, Rf.
  repeat split; try reflexivity.
  - now exists e.
  - intros NO. destruct (netEvent_obs tn (Hn NO)) as (_ & F & _).
    rewrite !filesOf_app, F. reflexivity.
  - repeat first [ exact K | exact I | reflexivity
                 | apply Forall_app_intro | apply Forall_cons
                 | apply Forall_nil ].
Qed.

Lemma settled_obs (t : list V1.Event) :
  forallb settled t = true ->
  V1.waitsOf t = [] /\ V1.attemptsOf t = [] /\ V1.fetchesOf t = [].
Proof.
  induction t as [|e t IH]; simpl; [auto|]. intros H.
  apply andb_true_iff in H as [He Ht]. destruct (IH Ht) as (-> & -> & ->).
  destruct e; simpl in *; try discriminate; auto.
Qed.

Lemma unsettled_obs (t : list V1.Event) :
  forallb unsettled t = true ->
  V1.errorsOf t = [] /\ existsb flipEvent t = false.
Proof.
  induction t as [|e t IH]; simpl; [auto|]. intros H.
  apply andb_true_iff in H as [He Ht]. destruct (IH Ht) as (-> & ->).
  destruct e; simpl in *; try discriminate; auto.
Qed.

Lemma succeededRun_obs (env : Env) (h : bool) (input : jsstring)
      (t : list V1.Event) :
  succeededRun env h input t ->
  V1.errorsOf t = []
  /\ Forall keepsMode t
  /\ existsb flipEvent t = existsb reportsFiles t
  /\ exists k r c tn tl,
      k <= 3
      /\ (exists n, net env n = Reply r)
      /\ V1.waitsOf t = backoff 0 k
      /\ V1.attemptsOf t = seq 0 (S k)
      /\ V1.filesOf tl
         = (if V1.isCodeGenerationRequest input && h then filesFor r c
            else [])
      /\ (networkOnly env h -> V1.filesOf tn = [])
      /\ t = tn ++ tl
      /\ forallb unsettled tn = true
      /\ forallb settled tl = true
      /\ (existsb flipEvent t = true ->
          V1.isCodeGenerationRequest input = true /\ filesFor r c <> []).
Proof.
  intros (t1 & r & c & k & -> & Hre & Hn & Hr & Hw & Ha & Hk).
  destruct (retryEvent_obs t1 Hre) as (E & Fl & Rf & U & K).
  destruct (localPhase_obs h input r c) as (LE & LF & LS & LK & LFl & LI).
  cbv zeta in *.
  destruct (settled_obs _ LS) as (LW & LA & _).
  rewrite !errorsOf_app, !existsb_app, E, LE, Fl, Rf, LFl.
  split; [reflexivity|]. split.
  { repeat first [ exact K | exact LK | exact I | reflexivity
                 | apply Forall_app_intro | apply Forall_cons
                 | apply Forall_nil ]. }
  split; [simpl; now rewrite !orb_false_r|].
  exists k, r, c, (opening ++ t1),
    (localPhase h input r c ++ successEvents ++ closing).
  split; [exact Hk|]. split; [exact Hr|].
  split; [rewrite !waitsOf_app, Hw, LW; simpl; now rewrite app_nil_r|].
  split; [rewrite !attemptsOf_app, Ha, LA; simpl; now rewrite app_nil_r|].
  split; [rewrite !filesOf_app, LF; simpl; now rewrite app_nil_r|].
  split.
  { intros NO. destruct (netEvent_obs t1 (Hn NO)) as (_ & F & _).
    rewrite filesOf_app, F. reflexivity. }
  split; [now rewrite <- !app_assoc|].
  split; [rewrite forallb_app, U; reflexivity|].
  split; [rewrite !forallb_app, LS; reflexivity|].
  simpl. rewrite !orb_false_r, <- LFl. exact LI.
Qed.


(** *** Submissions of the second version *)

Lemma handleAIResponse_noclick (env : Env) (h : bool) (input : jsstring)
      (r : option jsstring) (k : nat) (w : World) :
  (forall n, click env n = false) ->
  noThrow env h ->
  k <= 3 ->
  (forall j, j < k -> failing (net env (fetches w + j))) ->
  net env (fetches w + k) = Reply r ->
  exists t1,
    traceOf (V1.handleAIResponse env h input) w
    = opening ++ t1 ++ localPhase h input r false ++ successEvents ++ closing
    /\ forallb netEvent t1 = true
    /\ V1.waitsOf t1 = backoff 0 k
    /\ V1.attemptsOf t1 = seq 0 (S k)
    /\ length (V1.fetchesOf t1) = S k.
Proof.
  intros NC NT Hk F R.
  unfold V1.handleAIResponse.
  rewrite !traceOf_emit_then, traceOf_getWorld, traceOf_setWorld.
  rewrite !traceOf_emit_then, traceOf_finally, closing_trace.
  rewrite traceOf_catch, traceOf_bind, resultOf_bind.
  unfold V1.retry.
  set (w0 := mkWorld (fetches w) (awaits w) false true (calls w)).
  destruct (retryLoop_noclick env NC h input 3 r NT k 3 0 w0 eq_refl Hk
              eq_refl F R) as (t1 & Ht & Hr & Hn & Hw & Ha & Hf).
  exists t1. rewrite Ht, Hr. repeat split; trivial.
  cbv beta iota. unfold opening, successEvents.
  rewrite traceOf_emit. simpl. rewrite <- !app_assoc. reflexivity.
Qed.

Lemma handleSubmit_trace (env : Env) (h : bool) (st : V1.State)
      (message : jsstring) (w : World) :
  trim message <> [] -> V1.isLoading st = false ->
  traceOf (V1.handleSubmit env h st message) w
  = userEvents message
    ++ traceOf (V1.handleAIResponse env h (trim message)) w.
Proof.
  intros Hm Hl. unfold V1.handleSubmit, userEvents. rewrite Hl.
  destruct (trim message) as [|c s] eqn:E; [now destruct Hm|].
  rewrite !traceOf_emit_then. reflexivity.
Qed.

Lemma handleSubmit_idle (env : Env) (h : bool) (st : V1.State)
      (message : jsstring) (w : World) :
  trim message = [] \/ V1.isLoading st = true ->
  traceOf (V1.handleSubmit env h st message) w = [].
Proof.
  unfold V1.handleSubmit.
  intros [E|E]; rewrite E; [reflexivity|].
  now destruct (trim message).
Qed.

Lemma handleSubmit_dec (st : V1.State) (message : jsstring) :
  (trim message = [] \/ V1.isLoading st = true)
  \/ (trim message <> [] /\ V1.isLoading st = false).
Proof.
  destruct (trim message); [now left; left|].
  destruct (V1.isLoading st); [now left; right|].
  right. split; [discriminate | reflexivity].
Qed.

(** The mode after the events. *)
Lemma applyEvents_app (st : V1.State) (a b : list V1.Event) :
  V1.applyEvents st (a ++ b) = V1.applyEvents (V1.applyEvents st a) b.
Proof. apply fold_left_app. Qed.

Lemma applyEvents_noflip (t : list V1.Event) :
  forall st,
    existsb flipEvent t = false ->
    V1.isGenerationMode (V1.applyEvents st t) = V1.isGenerationMode st
    /\ V1.generationComplete (V1.applyEvents st t)
       = V1.generationComplete st.
Proof.
  induction t as [|e t IH]; intros st H; [now split|].
  simpl in H. apply orb_false_iff in H as [He Ht].
  change (V1.applyEvents st (e :: t))
    with (V1.applyEvents (V1.applyEvent st e) t).
  destruct (IH (V1.applyEvent st e) Ht) as [-> ->].
  destruct e; simpl in *; try discriminate; now split.
Qed.

Lemma applyEvents_keepsMode (t : list V1.Event) :
  Forall keepsMode t ->
  forall st,
    (V1.isGenerationMode st = false ->
     V1.isGenerationMode (V1.applyEvents st t) = false)
    /\ (V1.generationComplete st = true ->
        V1.generationComplete (V1.applyEvents st t) = true).
Proof.
  induction 1 as [|e t He Ht IH]; intros st; [now split|].
  change (V1.applyEvents st (e :: t))
    with (V1.applyEvents (V1.applyEvent st e) t).
  destruct (IH (V1.applyEvent st e)) as [I1 I2].
  split; intros Hs; [apply I1 | apply I2];
    destruct e; simpl in *; trivial.
Qed.

Lemma applyEvents_flipped (st : V1.State) (t : list V1.Event) :
  flipped t ->
  V1.isGenerationMode (V1.applyEvents st t) = false
  /\ V1.generationComplete (V1.applyEvents st t) = true.
Proof.
  intros (a & b & -> & Hb).
  rewrite !applyEvents_app.
  destruct (applyEvents_noflip b
              (V1.applyEvents (V1.applyEvents st a)
                 [V1.SetGenerationComplete true; V1.SetIsGenerationMode false])
              Hb) as [-> ->].
  now split.
Qed.

Lemma filesFor_none (r : option jsstring) (c : bool) :
  V1.codeBlocksOf (orElse r V1.fallbackGeneration) = [] ->
  filesFor r c = [].
Proof. unfold filesFor. intros ->. now destruct c. Qed.

(** The events of a submission, whichever way it goes. *)
Lemma handleSubmit_obs (env : Env) (h : bool) (st : V1.State)
      (message : jsstring) (w : World) :
  let t := traceOf (V1.handleSubmit env h st message) w in
  Forall keepsMode t
  /\ existsb flipEvent t = existsb reportsFiles t
  /\ (existsb flipEvent t = true ->
      flipped t
      /\ V1.isCodeGenerationRequest (trim message) = true
      /\ exists r c n, net env n = Reply r /\ filesFor r c <> []).
Proof.
  cbv zeta.
  destruct (handleSubmit_dec st message) as [Hi|[Hm Hl]].
  { rewrite (handleSubmit_idle env h st message w Hi).
    repeat split; try constructor; discriminate. }
  rewrite (handleSubmit_trace env h st message w Hm Hl).
  rewrite !existsb_app.
  change (existsb flipEvent (userEvents message)) with false.
  change (existsb reportsFiles (userEvents message)) with false.
  simpl orb.
  destruct (handleAIResponse_cases env h (trim message) w) as [Hf|Hs].
  - destruct (failedRun_obs _ _ _ Hf) as (_ & _ & _ & _ & Fl & Rf & K).
    split; [apply Forall_app_intro; [repeat constructor | exact K]|].
    rewrite Fl, Rf. split; [reflexivity | discriminate].
  - pose proof Hs as (t1 & r & c & k & Ht & Hn & _ & Hr & _).
    destruct (succeededRun_obs _ _ _ _ Hs) as (_ & K & Fl & _).
    split; [apply Forall_app_intro; [repeat constructor | exact K]|].
    split; [exact Fl|].
    rewrite Ht. intros Hflip.
    destruct (retryEvent_obs t1 Hn) as (_ & Fl1 & _).
    destruct (localPhase_obs h (trim message) r c)
      as (_ & _ & _ & _ & _ & LI).
    cbv zeta in LI.
    rewrite !existsb_app, Fl1 in Hflip. simpl in Hflip.
    rewrite !orb_false_r in Hflip.
    destruct (LI Hflip) as [Hkw Hfiles].
    split; [|split; [exact Hkw|]].
    + unfold localPhase, generationLocal. rewrite Hkw.
      destruct (filesFor r c) as [|f fs] eqn:Ef; [now destruct Hfiles|].
      exists (userEvents message ++ opening ++ t1
              ++ [V1.Log success (Say "Response received successfully")]
              ++ (if h then map V1.FileGenerated (f :: fs) else [])
              ++ [V1.AppendMessage (generationMessage r c)]),
        (successEvents ++ closing).
      split; [|reflexivity].
      rewrite <- !app_assoc. reflexivity.
    + destruct Hr as [n Hr]. now exists r, c, n.
Qed.


(** The second version never goes back to generation mode. *)
Lemma session_keepsMode (env : Env) (h : bool) (inputs : list jsstring) :
  forall st w,
    let '(st', t, _) := V1.session env h st w inputs in
    Forall keepsMode t
    /\ (V1.isGenerationMode st = false -> V1.isGenerationMode st' = false)
    /\ (V1.generationComplete st = true -> V1.generationComplete st' = true).
Proof.
  induction inputs as [|message rest IH]; intros st w.
  - simpl. repeat split; trivial.
  - simpl. unfold V1.submit.
    pose proof (handleSubmit_obs env h st message w) as O.
    cbv zeta in O. unfold traceOf in O.
    destruct (V1.handleSubmit env h st message w) as [[t1 w1] o1].
    simpl fst in O. destruct O as (K1 & _).
    destruct (applyEvents_keepsMode t1 K1 st) as [G1 G2].
    specialize (IH (V1.applyEvents st t1) w1).
    destruct (V1.session env h (V1.applyEvents st t1) w1 rest)
      as [[st2 t2] w2].
    destruct IH as (K2 & H1 & H2).
    repeat split; auto.
    now apply Forall_app_intro.
Qed.

(** A submission of the second version when the user does not press
    Cancel, the first [k] outcomes fail and the next one is a reply. *)
Lemma handleSubmit_answered (env : Env) (h : bool) (st : V1.State)
      (message : jsstring) (w : World) (k : nat) (r : option jsstring) :
  trim message <> [] -> V1.isLoading st = false ->
  (forall n, click env n = false) ->
  noThrow env h ->
  k <= 3 ->
  (forall j, j < k -> failing (net env (fetches w + j))) ->
  net env (fetches w + k) = Reply r ->
  let t := traceOf (V1.handleSubmit env h st message) w in
  V1.errorsOf t = []
  /\ V1.waitsOf t = backoff 0 k
  /\ V1.attemptsOf t = seq 0 (S k)
  /\ length (V1.fetchesOf t) = S k
  /\ V1.filesOf t
     = (if V1.isCodeGenerationRequest (trim message) && h
        then filesFor r false else []).
Proof.
  intros Hm Hl NC NT Hk F R. cbv zeta.
  rewrite (handleSubmit_trace env h st message w Hm Hl).
  destruct (handleAIResponse_noclick env h (trim message) r k w NC NT Hk F R)
    as (t1 & -> & Hn & Hw & Ha & Hf).
  destruct (netEvent_obs t1 Hn) as (E & Fi & _).
  destruct (localPhase_obs h (trim message) r false)
    as (LE & LF & LS & _).
  cbv zeta in *.
  destruct (settled_obs _ LS) as (LW & LA & LT).
  rewrite !errorsOf_app, !waitsOf_app, !attemptsOf_app, !fetchesOf_app,
    !filesOf_app.
  rewrite E, Fi, Hw, Ha, LE, LF, LW, LA, LT.
  simpl. rewrite !app_nil_r. repeat split; trivial.
Qed.


(** *** A call of [onFileGenerated] that throws *)

Section Rethrown.

Variable env : Env.
Hypothesis noClick : forall n, click env n = false.





End Rethrown.

(* ================================================================== *)
(** ** The submissions of the first version *)
(* ================================================================== *)

Section V0Events.

Variable env : Env.
Variable props : V0.Props.

(** The request and the backoff of [makeAPICall] raise no event but
    requests to its endpoint and delays. *)
Lemma apiLoop_every (P : V0.Event -> Prop) (ep : string) (p : jsstring)
      (retries : nat) :
  P (V0.Fetch ep p) -> (forall ms, P (V0.Wait ms)) ->
  forall remaining attempt,
    holds (Forall P) (V0.apiLoop env ep p retries remaining attempt).
Proof.
  intros Hf Hw. induction remaining as [|remaining IH]; intros attempt; simpl.
  - every_event.
  - apply every_catch; [|intros e].
    + apply every_bind; [|intros r; every_event].
      intros w. now repeat constructor.
    + destruct (attempt =? retries); every_event; auto.
Qed.

Lemma typingLoop_every (P : V0.Event -> Prop) (chunks f l : jsstring) :
  (forall c p, P (V0.SetLiveTyped f c l p)) -> P (V0.Wait V0.TYPING_SPEED) ->
  forall fuel i cur, holds (Forall P) (V0.typingLoop fuel i chunks cur f l).
Proof.
  intros Ht Hw. induction fuel as [|fuel IH]; intros i cur; simpl.
  - every_event.
  - destruct (i <? length chunks); every_event; auto.
Qed.

Lemma processBlock_every (P : V0.Event -> Prop) :
  (forall f c l p, P (V0.SetLiveTyped f c l p)) ->
  (forall f c l, P (V0.FileGenerated f c l)) ->
  P (V0.Wait V0.TYPING_SPEED) -> P (V0.Wait 100) ->
  (forall e, P (V0.ConsoleError e)) -> (forall k m, P (V0.Log k m)) ->
  forall b acc, holds (Forall P) (V0.processBlock env props b acc).
Proof.
  intros Ht Hf Hw Hp He Hl b acc. unfold V0.processBlock.
  apply every_catch; [|intros e; every_event; trivial].
  apply every_bind; [|intros _].
  { destruct (V0.hasOnFileGenerated props); [|every_event].
    unfold V0.onFileGenerated. every_event. trivial. }
  apply every_bind; [|intros _].
  { unfold V0.simulateTyping. now apply typingLoop_every. }
  every_event; auto.
Qed.

Lemma processLoop_every (P : V0.Event -> Prop) :
  (forall f c l p, P (V0.SetLiveTyped f c l p)) ->
  (forall f c l, P (V0.FileGenerated f c l)) ->
  P (V0.Wait V0.TYPING_SPEED) -> P (V0.Wait 100) ->
  (forall e, P (V0.ConsoleError e)) -> (forall k m, P (V0.Log k m)) ->
  forall blocks acc, holds (Forall P) (V0.processLoop env props blocks acc).
Proof.
  intros Ht Hf Hw Hp He Hl. induction blocks as [|b blocks IH]; intros acc;
    simpl.
  - every_event.
  - apply every_bind; [|intros acc'; apply IH].
    now apply processBlock_every.
Qed.

Lemma processGeneratedFiles_every (P : V0.Event -> Prop) (r u : jsstring) :
  (forall f c l p, P (V0.SetLiveTyped f c l p)) ->
  (forall f c l, P (V0.FileGenerated f c l)) ->
  P (V0.Wait V0.TYPING_SPEED) -> P (V0.Wait 100) ->
  (forall e, P (V0.ConsoleError e)) -> (forall k m, P (V0.Log k m)) ->
  holds (Forall P) (V0.processGeneratedFiles env props r u).
Proof.
  intros Ht Hf Hw Hp He Hl. unfold V0.processGeneratedFiles.
  destruct (V0.parseCodeBlocks r) as [|b blocks] eqn:E.
  - every_event; trivial.
  - apply every_bind; [apply every_emit; trivial | intros _].
    now apply processLoop_every.
Qed.

Lemma saveProject_every (P : V0.Event -> Prop) files blocks (u : jsstring) :
  (forall fs q, P (V0.CreateProject fs q)) ->
  (forall k m, P (V0.Log k m)) -> (forall e, P (V0.ConsoleError e)) ->
  holds (Forall P) (V0.saveProject props files blocks u).
Proof.
  intros Hc Hl He. unfold V0.saveProject. every_event; trivial.
Qed.

Lemma stageLoop_every (P : V0.Event -> Prop) :
  (forall i, P (V0.SetCurrentStageIndex i)) ->
  (forall k m, P (V0.Log k m)) -> P (V0.Wait 800) ->
  forall stages i, holds (Forall P) (V0.stageLoop stages i).
Proof.
  intros Hs Hl Hw. induction stages as [|s stages IH]; intros i; simpl;
    every_event; auto.
Qed.

End V0Events.

Ltac every_step0 :=
  cbv beta;
  lazymatch goal with
  | |- holds _ (V0.makeAPICall _ _ _) =>
      unfold V0.makeAPICall; apply apiLoop_every
  | |- holds _ (V0.processGeneratedFiles _ _ _ _) =>
      apply processGeneratedFiles_every
  | |- holds _ (V0.saveProject _ _ _ _) => apply saveProject_every
  | |- holds _ (V0.stageLoop _ _) => apply stageLoop_every
  | |- _ => every_step
  end.

(** No submission of the first version takes the session back to
    generation mode. *)
Lemma handleSubmit0_keepsMode (env : Env) (props : V0.Props)
      (st : V0.State) (message : jsstring) :
  holds (Forall keepsMode0) (V0.handleSubmit env props st message).
Proof.
  unfold V0.handleSubmit, V0.handleAIResponse.
  repeat every_step0; simpl; auto.
Qed.

(** Once the session is in chat mode, a submission raises the events
    of the chat branch only. *)
Lemma handleSubmit0_chat (env : Env) (props : V0.Props)
      (st : V0.State) (message : jsstring) :
  V0.isGenerationMode st && negb (V0.generationComplete st) = false ->
  holds (Forall chatEvent0) (V0.handleSubmit env props st message).
Proof.
  intros Hmode. unfold V0.handleSubmit, V0.handleAIResponse.
  rewrite Hmode.
  repeat every_step0; simpl; auto.
Qed.


#[local] Arguments Nat.sub : simpl never.
#[local] Arguments N.mul : simpl never.
#[local] Arguments N.of_nat : simpl never.
#[local] Arguments V0.apiLoop : simpl never.

Lemma fetchesOf0_app (a b : list V0.Event) :
  V0.fetchesOf (a ++ b) = V0.fetchesOf a ++ V0.fetchesOf b.
Proof. apply flat_map_app. Qed.

Lemma waitsOf0_app (a b : list V0.Event) :
  V0.waitsOf (a ++ b) = V0.waitsOf a ++ V0.waitsOf b.
Proof. apply flat_map_app. Qed.

Lemma errorsOf0_app (a b : list V0.Event) :
  V0.errorsOf (a ++ b) = V0.errorsOf a ++ V0.errorsOf b.
Proof. apply flat_map_app. Qed.

Lemma filesOf0_app (a b : list V0.Event) :
  V0.filesOf (a ++ b) = V0.filesOf a ++ V0.filesOf b.
Proof. apply flat_map_app. Qed.

Lemma apiLoop_unfold (env : Env) (ep : string) (p : jsstring)
      (retries r attempt : nat) :
  V0.apiLoop env ep p retries (S r) attempt
  = catch
      (bind (V0.request env ep p)
         (fun o => match o with
                   | NetDown m => throw (Rejection m)
                   | Status s => throw (HttpError s)
                   | Malformed m => throw (Rejection m)
                   | Reply response => ret response
                   end))
      (fun e =>
         if attempt =? retries then throw e
         else bind (emit (V0.Wait (1000 * N.of_nat attempt)))
                   (fun _ => V0.apiLoop env ep p retries r (S attempt))).
Proof. reflexivity. Qed.

(** One iteration of [makeAPICall]. *)
Lemma apiLoop_step (env : Env) (ep : string) (p : jsstring)
      (retries r attempt : nat) (w : World) :
  let w1 := mkWorld (S (fetches w)) (awaits w) (cancelled w) (button w)
                    (calls w) in
  V0.apiLoop env ep p retries (S r) attempt w
  = match net env (fetches w) with
    | Reply response => ([V0.Fetch ep p], w1, Done response)
    | o =>
        let e := match o with
                 | Status s => HttpError s
                 | NetDown m | Malformed m => Rejection m
                 | Reply _ => MaxRetries
                 end in
        if attempt =? retries then ([V0.Fetch ep p], w1, Threw e)
        else
          let '(t, w2, res) :=
            V0.apiLoop env ep p retries r (S attempt) w1 in
          (V0.Fetch ep p :: V0.Wait (1000 * N.of_nat attempt) :: t, w2, res)
    end.
Proof.
  rewrite apiLoop_unfold. unfold catch, bind, V0.request, emit, throw, ret.
  cbv zeta.
  destruct (net env (fetches w)); try reflexivity;
    destruct (attempt =? retries); try reflexivity;
    cbv beta iota;
    destruct (V0.apiLoop env ep p retries r (S attempt)
                (mkWorld (S (fetches w)) (awaits w) (cancelled w) (button w)
                         (calls w)))
      as [[t w2] res]; reflexivity.
Qed.

(** [makeAPICall] over the outcomes of the backend: it returns the
    first reply, after [k] failed attempts, or throws when every
    attempt fails. *)
Lemma apiLoop_cases (env : Env) (ep : string) (p : jsstring) (retries : nat) :
  forall r' attempt w,
    attempt + r' = retries ->
    let m := V0.apiLoop env ep p retries (S r') attempt in
    Forall apiEvent0 (traceOf m w)
    /\ match resultOf m w with
       | Done r =>
           exists k,
             k <= r'
             /\ net env (fetches w + k) = Reply r
             /\ (forall j, j < k -> failing (net env (fetches w + j)))
             /\ V0.fetchesOf (traceOf m w) = repeat ep (S k)
             /\ V0.waitsOf (traceOf m w) = backoff0 attempt k
       | Threw _ =>
           (forall j, j <= r' -> failing (net env (fetches w + j)))
           /\ V0.fetchesOf (traceOf m w) = repeat ep (S r')
           /\ V0.waitsOf (traceOf m w) = backoff0 attempt r'
       end.
Proof.
  induction r' as [|r' IH]; intros attempt w Ha; cbv zeta.
  - assert (attempt = retries) by lia. subst attempt.
    unfold traceOf, resultOf. rewrite apiLoop_step, Nat.eqb_refl.
    destruct (net env (fetches w)) eqn:O; simpl;
      (split; [repeat constructor|]);
      try (split; [intros j Hj; replace j with 0 by lia;
                   rewrite Nat.add_0_r, O; exact I
                  | split; reflexivity]).
    exists 0. rewrite Nat.add_0_r.
    repeat split; trivial. intros j Hj. lia.
  - assert (Hne : attempt <> retries) by lia. apply Nat.eqb_neq in Hne.
    specialize (IH (S attempt)
                   (mkWorld (S (fetches w)) (awaits w) (cancelled w) (button w)
                         (calls w))
                   ltac:(lia)).
    cbv zeta in IH. unfold traceOf, resultOf in *.
    rewrite apiLoop_step, Hne.
    destruct (V0.apiLoop env ep p retries (S r') (S attempt)
                (mkWorld (S (fetches w)) (awaits w) (cancelled w) (button w)
                         (calls w)))
      as [[t w2] res].
    simpl in IH. destruct IH as [IHa IHr].
    destruct (net env (fetches w)) eqn:O; simpl.
    4:{ split; [repeat constructor|]. exists 0. rewrite Nat.add_0_r.
        repeat split; trivial; [lia | intros j Hj; lia]. }
    all: split; [repeat constructor; exact IHa|].
    all: destruct res as [r|e].
    all: try (destruct IHr as (k & Hk & Hr & Hf & Hfe & Hwa);
              exists (S k);
              repeat split;
              [ lia
              | now rewrite <- Nat.add_succ_comm
              | intros j Hj; destruct j as [|j];
                [ rewrite Nat.add_0_r, O; exact I
                | rewrite <- Nat.add_succ_comm; apply Hf; lia ]
              | simpl; now rewrite Hfe
              | simpl; now rewrite Hwa ]).
    all: destruct IHr as (Hf & Hfe & Hwa);
         repeat split;
         [ intros j Hj; destruct j as [|j];
           [ rewrite Nat.add_0_r, O; exact I
           | rewrite <- Nat.add_succ_comm; apply Hf; lia ]
         | simpl; now rewrite Hfe
         | simpl; now rewrite Hwa ].
Qed.

Lemma typingLoop_returns (chunks f l : jsstring) :
  forall fuel i cur, returns (V0.typingLoop fuel i chunks cur f l).
Proof.
  induction fuel as [|fuel IH]; intros i cur; simpl;
    repeat returns_step; auto.
Qed.

(** The replay of the first version: its events do not depend on the
    world, which it leaves as it is, and it returns. *)
Lemma typingLoop0_run (chunks f l : jsstring) :
  forall fuel i cur w,
    V0.typingLoop fuel i chunks cur f l w
    = (traceOf (V0.typingLoop fuel i chunks cur f l) world0, w, Done tt).
Proof.
  induction fuel as [|fuel IH]; intros i cur w; simpl; [reflexivity|].
  destruct (i <? length chunks); [|reflexivity].
  unfold traceOf, bind, emit. rewrite (IH _ _ w), (IH _ _ world0).
  reflexivity.
Qed.

Lemma simulateTyping0_run (c f l : jsstring) (w : World) :
  V0.simulateTyping c f l w
  = (traceOf (V0.simulateTyping c f l) world0, w, Done tt).
Proof. unfold V0.simulateTyping. apply typingLoop0_run. Qed.

(** One turn of the loop of [processGeneratedFiles]. *)
Lemma processBlock_run (env : Env) (props : V0.Props) (b : V0.CodeBlock)
      (acc : list jsstring) (w : World) :
  V0.processBlock env props b acc w
  = if V0.hasOnFileGenerated props then
      match raises env (calls w) with
      | Some e =>
          ([V0.FileGenerated (V0.fileName b) (V0.code b) (V0.language b);
            V0.ConsoleError e; V0.Log failure (SayFile (V0.fileName b))],
           called 1 w, Done acc)
      | None =>
          (V0.FileGenerated (V0.fileName b) (V0.code b) (V0.language b)
           :: traceOf (V0.simulateTyping (V0.code b) (V0.fileName b)
                                         (V0.language b)) world0
              ++ [V0.Wait 100],
           called 1 w, Done (acc ++ [V0.fileName b]))
      end
    else
      (traceOf (V0.simulateTyping (V0.code b) (V0.fileName b)
                                  (V0.language b)) world0
       ++ [V0.Wait 100],
       w, Done (acc ++ [V0.fileName b])).
Proof.
  unfold V0.processBlock, V0.onFileGenerated, callback, catch, bind, emit, ret.
  destruct (V0.hasOnFileGenerated props); cbv beta iota.
  - destruct (raises env (calls w)) as [e|]; cbv beta iota; [reflexivity|].
    rewrite simulateTyping0_run. reflexivity.
  - rewrite simulateTyping0_run. reflexivity.
Qed.

Lemma processBlock_returns (env : Env) (props : V0.Props) (b : V0.CodeBlock)
      (acc : list jsstring) :
  returns (V0.processBlock env props b acc).
Proof.
  intros w. unfold resultOf. rewrite processBlock_run.
  destruct (V0.hasOnFileGenerated props); [|eexists; reflexivity].
  destruct (raises env (calls w)); eexists; reflexivity.
Qed.

Lemma processLoop_returns (env : Env) (props : V0.Props) :
  forall blocks acc, returns (V0.processLoop env props blocks acc).
Proof.
  induction blocks as [|b blocks IH]; intros acc; simpl.
  - apply returns_ret.
  - apply returns_bind; [apply processBlock_returns | intros acc'; apply IH].
Qed.

Lemma processGeneratedFiles_returns (env : Env) (props : V0.Props)
      (r u : jsstring) :
  returns (V0.processGeneratedFiles env props r u).
Proof.
  unfold V0.processGeneratedFiles.
  destruct (V0.parseCodeBlocks r); repeat returns_step.
  apply processLoop_returns.
Qed.

Lemma saveProject_returns (props : V0.Props) files blocks (u : jsstring) :
  returns (V0.saveProject props files blocks u).
Proof. unfold V0.saveProject. repeat returns_step. Qed.

(** The files handed to [onFileGenerated]: one per block, in order. *)
Lemma typingLoop_no_file (chunks f l : jsstring) :
  forall fuel i cur w,
    V0.filesOf (traceOf (V0.typingLoop fuel i chunks cur f l) w) = [].
Proof.
  induction fuel as [|fuel IH]; intros i cur w; simpl; [reflexivity|].
  destruct (i <? length chunks); [|reflexivity].
  rewrite !traceOf_emit_then. simpl. apply IH.
Qed.

Lemma simulateTyping0_no_file (c f l : jsstring) (w : World) :
  V0.filesOf (traceOf (V0.simulateTyping c f l) w) = [].
Proof. unfold V0.simulateTyping. apply typingLoop_no_file. Qed.

(** Every block is handed to [onFileGenerated], whether the call
    throws or not. *)
Lemma processLoop_files (env : Env) (props : V0.Props) :
  forall blocks acc w,
    V0.filesOf (traceOf (V0.processLoop env props blocks acc) w)
    = if V0.hasOnFileGenerated props then map blockFile blocks else [].
Proof.
  induction blocks as [|b blocks IH]; intros acc w.
  - simpl. now destruct (V0.hasOnFileGenerated props).
  - cbn [V0.processLoop]. unfold traceOf, bind. rewrite processBlock_run.
    destruct (V0.hasOnFileGenerated props) eqn:Hh.
    + destruct (raises env (calls w)) as [e|];
        match goal with
        | |- context [V0.processLoop env props blocks ?a ?w1] =>
            specialize (IH a w1); unfold traceOf in IH;
            destruct (V0.processLoop env props blocks a w1) as [[t2 w2] r2]
        end; simpl in *.
      * now rewrite IH.
      * rewrite <- app_assoc, filesOf0_app, simulateTyping0_no_file.
        simpl. now rewrite IH.
    + specialize (IH (acc ++ [V0.fileName b]) w). unfold traceOf in IH.
      destruct (V0.processLoop env props blocks (acc ++ [V0.fileName b]) w)
        as [[t2 w2] r2]; simpl in *.
      rewrite <- app_assoc, filesOf0_app, simulateTyping0_no_file.
      simpl. exact IH.
Qed.

Lemma processGeneratedFiles_files (env : Env) (props : V0.Props)
      (r u : jsstring) (w : World) :
  V0.filesOf (traceOf (V0.processGeneratedFiles env props r u) w)
  = if V0.hasOnFileGenerated props
    then map blockFile (V0.parseCodeBlocks r) else [].
Proof.
  unfold V0.processGeneratedFiles.
  destruct (V0.parseCodeBlocks r) as [|b blocks] eqn:E.
  - simpl. now destruct (V0.hasOnFileGenerated props).
  - rewrite traceOf_emit_then.
    exact (processLoop_files env props (b :: blocks) [] w).
Qed.

Lemma stageLoop_eq (w : World) :
  V0.stageLoop (removelast V0.GENERATION_STAGES) 0 w
  = ([ V0.SetCurrentStageIndex 0;
       V0.Log info (Say "Understanding your project needs"); V0.Wait 800;
       V0.SetCurrentStageIndex 1;
       V0.Log info (Say "Creating multi-language structure"); V0.Wait 800;
       V0.SetCurrentStageIndex 2;
       V0.Log info (Say "Creating comprehensive codebase"); V0.Wait 800;
       V0.SetCurrentStageIndex 3;
       V0.Log info (Say "Applying best practices"); V0.Wait 800 ],
     w, Done tt).
Proof. reflexivity. Qed.

Lemma no_file_events (t : list V0.Event) :
  Forall (fun e => match e with
                   | V0.FileGenerated _ _ _ => False
                   | _ => True
                   end) t ->
  V0.filesOf t = [].
Proof.
  induction 1 as [|e t He Ht IH]; [reflexivity|].
  simpl. rewrite IH. now destruct e.
Qed.

(** The events of [handleAIResponse], around the events of its call of
    [makeAPICall]. *)
Lemma handleAIResponse0_shape (env : Env) (props : V0.Props) (st : V0.State)
      (input : jsstring) (w : World) :
  let gen := V0.isGenerationMode st && negb (V0.generationComplete st) in
  let api := V0.makeAPICall env (endpoint0 gen) input in
  exists tl,
    traceOf (V0.handleAIResponse env props st input) w
    = intro0 gen ++ traceOf api w ++ tl ++ closing0
    /\ match resultOf api w with
       | Threw e => tl = failureEvents0 e
       | Done r => afterReply0 props gen r tl
       end.
Proof.
  cbv zeta. unfold V0.handleAIResponse.
  destruct (V0.isGenerationMode st) eqn:G;
    [destruct (V0.generationComplete st) eqn:C|]; simpl andb; cbv iota;
    unfold intro0, endpoint0, traceOf, resultOf, finally, catch, bind, emit;
    cbv beta iota.
  2:{ (* generation mode *)
    rewrite stageLoop_eq. cbv beta iota.
    destruct (V0.makeAPICall env "/api/ask" input w) as [[ta wa] [r|e]] eqn:A;
      cbv beta iota.
    - destruct (V0.processGeneratedFiles env props (orElse r V0.fallbackResponse)
                  input wa) as [[tp wp] [files|e']] eqn:Pg;
        [|exfalso; eapply run_returns;
          [apply processGeneratedFiles_returns | exact Pg]].
      cbv beta iota.
      destruct (V0.saveProject props files
                  (V0.parseCodeBlocks (orElse r V0.fallbackResponse))
                  input wp) as [[ts ws] [[]|e']] eqn:Sv;
        [|exfalso; eapply run_returns;
          [apply saveProject_returns | exact Sv]].
      cbv beta iota. simpl fst. simpl snd.
      exists (tp ++ [V0.SetLiveActive false; V0.SetGenerationComplete true;
                     V0.SetIsGenerationMode false]
                 ++ ts
                 ++ [V0.AppendMessage
                       (V0.mkMessage ai
                          (V0.Completion (length files) (V0.signedIn props))
                          TAnalysis (Some files));
                     V0.Log success
                       (Say "Switched to chat mode for follow-up questions");
                     V0.Log success
                       (Say "Processing completed successfully!")]).
      split.
      + unfold scripted, closing0. simpl. rewrite <- !app_assoc. simpl.
        rewrite <- !app_assoc. reflexivity.
      + unfold afterReply0.
        assert (Hp : Forall localEvent0 tp).
        { eapply run_holds; [|exact Pg].
          apply processGeneratedFiles_every; simpl; auto. }
        assert (Hs : Forall localEvent0 ts).
        { eapply run_holds; [|exact Sv].
          apply saveProject_every; simpl; auto. }
        assert (Hsf : V0.filesOf ts = []).
        { apply no_file_events. eapply run_holds; [|exact Sv].
          apply saveProject_every; simpl; auto. }
        assert (Hpf : V0.filesOf tp
                      = if V0.hasOnFileGenerated props
                        then map blockFile
                               (V0.parseCodeBlocks
                                  (orElse r V0.fallbackResponse))
                        else []).
        { rewrite <- (processGeneratedFiles_files env props _ input wa).
          unfold traceOf. now rewrite Pg. }
        split; [|split; [|split]].
        * apply Forall_app_intro; [exact Hp|].
          repeat (apply Forall_cons; [simpl; auto|]).
          apply Forall_app_intro; [exact Hs|].
          repeat constructor; simpl; discriminate.
        * apply in_or_app. right. simpl. auto.
        * apply in_or_app. right. simpl. auto.
        * rewrite filesOf0_app, Hpf. simpl.
          rewrite filesOf0_app, Hsf. simpl. now rewrite app_nil_r.
    - simpl fst. simpl snd. exists (failureEvents0 e). split; [|reflexivity].
      unfold scripted, closing0, failureEvents0. simpl.
      rewrite <- !app_assoc. reflexivity. }
  all: (* chat mode *)
    destruct (V0.makeAPICall env "/api/chat" input w) as [[ta wa] [r|e]] eqn:A;
    cbv beta iota; simpl fst; simpl snd.
  all: try (exists (failureEvents0 e); split; [|reflexivity];
            unfold closing0, failureEvents0; simpl;
            rewrite <- !app_assoc; reflexivity).
  all: exists [V0.AppendMessage
                 (V0.mkMessage ai
                    match r with
                    | Some r' => V0.Text r'
                    | None => V0.NoText
                    end TNormal None);
               V0.Log success (Say "Processing completed successfully!")];
    split;
    [ unfold closing0; simpl; rewrite <- !app_assoc; reflexivity
    | unfold afterReply0; repeat split;
      repeat constructor; simpl; auto; discriminate ].
Qed.

(** *** Submissions of the first version *)

Lemma handleSubmit0_trace (env : Env) (props : V0.Props) (st : V0.State)
      (message : jsstring) (w : World) :
  trim message <> [] -> V0.isLoading st = false ->
  traceOf (V0.handleSubmit env props st message) w
  = userEvents0 message
    ++ traceOf (V0.handleAIResponse env props st (trim message)) w.
Proof.
  intros Hm Hl. unfold V0.handleSubmit, userEvents0. rewrite Hl.
  destruct (trim message) as [|c s] eqn:E; [now destruct Hm|].
  rewrite !traceOf_emit_then. reflexivity.
Qed.

Lemma apiEvent0_obs (t : list V0.Event) :
  Forall apiEvent0 t -> V0.errorsOf t = [] /\ V0.filesOf t = [].
Proof.
  induction 1 as [|e t He Ht [IH1 IH2]]; [now split|].
  simpl. rewrite IH1, IH2. destruct e; simpl in *; now try destruct He.
Qed.

Lemma localEvent0_obs (t : list V0.Event) :
  Forall localEvent0 t -> V0.errorsOf t = [] /\ V0.fetchesOf t = [].
Proof.
  induction 1 as [|e t He Ht [IH1 IH2]]; [now split|].
  simpl. rewrite IH1, IH2.
  destruct e; simpl in *; try (now split); try (now destruct He).
  all: destruct (V0.type m); (now split) || (now destruct He).
Qed.

Lemma intro0_obs (gen : bool) :
  V0.errorsOf (intro0 gen) = [] /\ V0.filesOf (intro0 gen) = []
  /\ V0.fetchesOf (intro0 gen) = [].
Proof. now destruct gen. Qed.

(** [makeAPICall] when the first [k] outcomes fail and the next one is
    a reply, and when its three outcomes fail. *)
Lemma makeAPICall_answered (env : Env) (ep : string) (p : jsstring)
      (w : World) (k : nat) (r : option jsstring) :
  k <= 2 ->
  (forall j, j < k -> failing (net env (fetches w + j))) ->
  net env (fetches w + k) = Reply r ->
  let m := V0.makeAPICall env ep p in
  resultOf m w = Done r
  /\ Forall apiEvent0 (traceOf m w)
  /\ V0.fetchesOf (traceOf m w) = repeat ep (S k)
  /\ V0.waitsOf (traceOf m w) = backoff0 1 k.
Proof.
  intros Hk F R. cbv zeta. unfold V0.makeAPICall.
  destruct (apiLoop_cases env ep p 3 2 1 w eq_refl) as [A C].
  destruct (resultOf (V0.apiLoop env ep p 3 3 1) w) as [r'|e].
  - destruct C as (k' & Hk' & R' & F' & Hf & Hw).
    assert (k' = k).
    { destruct (Nat.lt_trichotomy k' k) as [L|[E|L]]; [|exact E|].
      - specialize (F k' L). rewrite R' in F. destruct F.
      - specialize (F' k L). rewrite R in F'. destruct F'. }
    subst k'. rewrite R in R'. injection R' as ->. now repeat split.
  - destruct C as (F' & _). specialize (F' k Hk). rewrite R in F'.
    destruct F'.
Qed.



(** The mode after the events of the first version. *)
Lemma applyEvents0_app (st : V0.State) (a b : list V0.Event) :
  V0.applyEvents st (a ++ b) = V0.applyEvents (V0.applyEvents st a) b.
Proof. apply fold_left_app. Qed.

Lemma applyEvents0_keepsMode (t : list V0.Event) :
  Forall keepsMode0 t ->
  forall st,
    (V0.isGenerationMode st = false ->
     V0.isGenerationMode (V0.applyEvents st t) = false)
    /\ (V0.generationComplete st = true ->
        V0.generationComplete (V0.applyEvents st t) = true).
Proof.
  induction 1 as [|e t He Ht IH]; intros st; [now split|].
  change (V0.applyEvents st (e :: t))
    with (V0.applyEvents (V0.applyEvent st e) t).
  destruct (IH (V0.applyEvent st e)) as [I1 I2].
  split; intros Hs; [apply I1 | apply I2];
    destruct e; simpl in *; trivial.
Qed.

Lemma applyEvents0_flip (t : list V0.Event) :
  Forall keepsMode0 t ->
  forall st,
    (In (V0.SetIsGenerationMode false) t ->
     V0.isGenerationMode (V0.applyEvents st t) = false)
    /\ (In (V0.SetGenerationComplete true) t ->
        V0.generationComplete (V0.applyEvents st t) = true).
Proof.
  induction 1 as [|e t He Ht IH]; intros st; [now split|].
  change (V0.applyEvents st (e :: t))
    with (V0.applyEvents (V0.applyEvent st e) t).
  destruct (IH (V0.applyEvent st e)) as [I1 I2].
  destruct (applyEvents0_keepsMode t Ht (V0.applyEvent st e)) as [K1 K2].
  split; intros [->|Hin]; auto.
Qed.

Lemma chatEvent0_obs (t : list V0.Event) :
  Forall chatEvent0 t ->
  V0.filesOf t = []
  /\ forall st,
      V0.isGenerationMode (V0.applyEvents st t) = V0.isGenerationMode st
      /\ V0.generationComplete (V0.applyEvents st t)
         = V0.generationComplete st.
Proof.
  induction 1 as [|e t He Ht [IH1 IH2]]; [now split|].
  split.
  - simpl. rewrite IH1. destruct e; simpl in *; now try destruct He.
  - intros st.
    change (V0.applyEvents st (e :: t))
      with (V0.applyEvents (V0.applyEvent st e) t).
    destruct (IH2 (V0.applyEvent st e)) as [-> ->].
    destruct e; simpl in *; now try destruct He.
Qed.


Lemma handleSubmit0_answered (env : Env) (props : V0.Props) (st : V0.State)
      (message : jsstring) (w : World) (k : nat) (r : option jsstring) :
  trim message <> [] -> V0.isLoading st = false ->
  k <= 2 ->
  (forall j, j < k -> failing (net env (fetches w + j))) ->
  net env (fetches w + k) = Reply r ->
  let gen := V0.isGenerationMode st && negb (V0.generationComplete st) in
  let t := traceOf (V0.handleSubmit env props st message) w in
  exists ta tl,
    t = userEvents0 message ++ intro0 gen ++ ta ++ tl ++ closing0
    /\ V0.errorsOf t = []
    /\ V0.fetchesOf t = repeat (endpoint0 gen) (S k)
    /\ V0.filesOf t
       = (if gen && V0.hasOnFileGenerated props
          then map blockFile
                 (V0.parseCodeBlocks (orElse r V0.fallbackResponse))
          else [])
    /\ Forall apiEvent0 ta
    /\ V0.waitsOf ta = backoff0 1 k
    /\ afterReply0 props gen r tl.
Proof.
  intros Hm Hl Hk F R. cbv zeta.
  rewrite (handleSubmit0_trace env props st message w Hm Hl).
  set (gen := V0.isGenerationMode st && negb (V0.generationComplete st)).
  destruct (handleAIResponse0_shape env props st (trim message) w)
    as (tl & Ht & Hr).
  fold gen in Ht, Hr. cbv zeta in Ht, Hr.
  destruct (makeAPICall_answered env (endpoint0 gen) (trim message) w k r
              Hk F R) as (He & Ha & Hf & Hw).
  cbv zeta in He, Ha, Hf, Hw.
  rewrite He in Hr.
  exists (traceOf (V0.makeAPICall env (endpoint0 gen) (trim message)) w), tl.
  rewrite Ht.
  destruct (apiEvent0_obs _ Ha) as [Ea Fa].
  destruct (intro0_obs gen) as (Ei & Fi & Ti).
  pose proof Hr as [Hloc Hgen].
  destruct (localEvent0_obs _ Hloc) as [El Tl].
  rewrite !errorsOf0_app, !filesOf0_app, !fetchesOf0_app.
  rewrite Ea, Fa, Ei, Fi, Ti, Hf, El, Tl.
  repeat split; trivial.
  - simpl. now rewrite app_nil_r.
  - simpl. destruct gen; simpl andb.
    + destruct Hgen as (_ & _ & ->). now rewrite app_nil_r.
    + now destruct Hgen as [-> _].
Qed.

Lemma handleSubmit0_idle (env : Env) (props : V0.Props) (st : V0.State)
      (message : jsstring) (w : World) :
  trim message = [] \/ V0.isLoading st = true ->
  traceOf (V0.handleSubmit env props st message) w = [].
Proof.
  unfold V0.handleSubmit.
  intros [E|E]; rewrite E; [reflexivity|].
  now destruct (trim message).
Qed.

(** Once in chat mode, the first version stays there: every later
    submission raises the events of the chat branch only. *)
Lemma session0_chat (env : Env) (props : V0.Props) (inputs : list jsstring) :
  forall st w,
    V0.isGenerationMode st && negb (V0.generationComplete st) = false ->
    let '(st', t, _) := V0.session env props st w inputs in
    Forall chatEvent0 t
    /\ V0.filesOf t = []
    /\ V0.isGenerationMode st' = V0.isGenerationMode st
    /\ V0.generationComplete st' = V0.generationComplete st.
Proof.
  induction inputs as [|message rest IH]; intros st w Hmode.
  - simpl. repeat split. constructor.
  - simpl. unfold V0.submit.
    pose proof (handleSubmit0_chat env props st message Hmode w) as C.
    unfold traceOf in C.
    destruct (V0.handleSubmit env props st message w) as [[t1 w1] o1].
    simpl fst in C.
    destruct (chatEvent0_obs t1 C) as [F1 M1].
    destruct (M1 st) as [G1 G2].
    specialize (IH (V0.applyEvents st t1) w1).
    rewrite G1, G2 in IH. specialize (IH Hmode).
    destruct (V0.session env props (V0.applyEvents st t1) w1 rest)
      as [[st2 t2] w2].
    destruct IH as (C2 & F2 & -> & ->).
    repeat split.
    + now apply Forall_app_intro.
    + now rewrite filesOf0_app, F1, F2.
Qed.

(** *** The events of a session of the second version *)

Section V1Events.

Variable env : Env.
Variable P : V1.Event -> Prop.
Hypothesis Hany : forall e, roundEvent e -> P e.

Lemma cancelGeneration_every : holds (Forall P) V1.cancelGeneration.
Proof.
  unfold V1.cancelGeneration.
  repeat every_step; apply Hany; simpl; auto.
Qed.

Lemma suspend_every : holds (Forall P) (V1.suspend env).
Proof.
  unfold V1.suspend.
  apply every_bind; [apply every_getWorld | intros w].
  apply every_bind; [apply every_setWorld | intros _].
  destruct (button w && click env (awaits w));
    [apply cancelGeneration_every | apply every_ret].
Qed.

Lemma sleep_every (ms : N) : holds (Forall P) (V1.sleep env ms).
Proof.
  unfold V1.sleep.
  apply every_bind; [apply every_emit, Hany; exact I | intros _].
  apply suspend_every.
Qed.

Lemma request_every (ep : string) (p : jsstring) :
  holds (Forall P) (V1.request env ep p).
Proof.
  unfold V1.request.
  apply every_bind; [apply every_getWorld | intros w].
  apply every_bind; [apply every_setWorld | intros _].
  apply every_bind; [apply every_emit, Hany; exact I | intros _].
  apply every_bind; [apply suspend_every | intros _].
  destruct (net env (fetches w));
    repeat first [ apply every_throw | apply every_ret
                 | apply every_bind; [apply suspend_every | intros _] ].
Qed.

Lemma fileLoop_every (h : bool) :
  forall blocks i, holds (Forall P) (V1.fileLoop env h i blocks).
Proof.
  induction blocks as [|b blocks IH]; intros i; simpl.
  - apply every_ret.
  - apply every_bind; [apply every_getWorld | intros w].
    destruct (cancelled w); [apply every_ret|].
    apply every_bind; [|intros _].
    { destruct h; [|apply every_ret]. unfold V1.onFileGenerated.
      apply every_bind; [apply every_emit, Hany; exact I | intros _].
      apply every_callback. }
    apply every_bind; [apply IH | intros c; apply every_ret].
Qed.

Lemma attempt_every (h : bool) (input : jsstring) :
  holds (Forall P) (V1.attempt env h input).
Proof.
  unfold V1.attempt.
  apply every_bind; [apply every_getWorld | intros w].
  destruct (cancelled w); [apply every_throw|].
  destruct (V1.isCodeGenerationRequest input).
  - unfold V1.handleFileGeneration.
    apply every_bind; [apply every_emit, Hany; simpl; auto | intros _].
    apply every_bind; [apply every_emit, Hany; exact I | intros _].
    apply every_bind; [apply request_every | intros r].
    apply every_bind; [apply every_emit, Hany; exact I | intros _].
    apply every_bind; [apply fileLoop_every | intros created].
    apply every_bind; [apply every_emit, Hany; reflexivity | intros _].
    destruct created; [apply every_ret|].
    apply every_bind; [apply every_emit, Hany; reflexivity | intros _].
    apply every_emit, Hany; reflexivity.
  - unfold V1.handleChatResponse.
    apply every_bind; [apply every_emit, Hany; exact I | intros _].
    apply every_bind; [apply request_every | intros r].
    apply every_bind; [apply every_emit, Hany; exact I | intros _].
    apply every_emit, Hany; reflexivity.
Qed.

Lemma retryLoop_every (fn : V1.H unit) :
  holds (Forall P) fn ->
  forall remaining i,
    i + remaining = 4 ->
    holds (Forall P) (V1.retryLoop env 3 remaining i fn).
Proof.
  intros Hfn. induction remaining as [|remaining IH]; intros i Hi.
  - apply every_ret.
  - rewrite retryLoop_unfold.
    apply every_catch; [|intros e].
    + apply every_bind; [apply every_emit, Hany; simpl; lia | intros _].
      exact Hfn.
    + destruct (i =? 3) eqn:E; [apply every_throw|].
      apply Nat.eqb_neq in E.
      apply every_bind; [apply sleep_every | intros _].
      apply IH. lia.
Qed.

Lemma handleAIResponse_every (h : bool) (input : jsstring) :
  holds (Forall P) (V1.handleAIResponse env h input).
Proof.
  unfold V1.handleAIResponse.
  apply every_bind; [apply every_emit, Hany; exact I | intros _].
  apply every_bind; [apply every_emit, Hany; exact I | intros _].
  apply every_bind; [apply every_getWorld | intros w].
  apply every_bind; [apply every_setWorld | intros _].
  apply every_bind; [apply every_emit, Hany; exact I | intros _].
  apply every_bind; [apply every_emit, Hany; exact I | intros _].
  apply every_finally.
  - apply every_catch; [|intros e].
    + apply every_bind; [|intros _; apply every_emit, Hany; exact I].
      unfold V1.retry. apply retryLoop_every; [|reflexivity].
      apply attempt_every.
    + repeat every_step; apply Hany; try exact I; reflexivity.
  - repeat every_step; apply Hany; simpl; auto.
Qed.

End V1Events.

Lemma roundEvent_sessionEvent (e : V1.Event) :
  roundEvent e -> sessionEvent e.
Proof. destruct e; simpl; intros H; auto; contradiction. Qed.

Lemma handleSubmit_every (env : Env) (P : V1.Event -> Prop)
      (h : bool) (st : V1.State) (message : jsstring) :
  (forall e, sessionEvent e -> P e) ->
  holds (Forall P) (V1.handleSubmit env h st message).
Proof.
  intros Hany. unfold V1.handleSubmit.
  destruct (trim message); [apply every_ret|].
  destruct (V1.isLoading st); [apply every_ret|].
  apply every_bind; [apply every_emit, Hany; exact I | intros _].
  apply every_bind; [apply every_emit, Hany; reflexivity | intros _].
  apply handleAIResponse_every. intros e He.
  apply Hany, roundEvent_sessionEvent, He.
Qed.

Lemma applyEvent_sessionState (st : V1.State) (e : V1.Event) :
  sessionState st -> sessionEvent e -> sessionState (V1.applyEvent st e).
Proof.
  intros (Hs & Ha & Hc & Hr) He.
  destruct e; simpl in *; subst; try (now repeat split);
    try (now destruct He).
Qed.

Lemma applyEvents_sessionState (t : list V1.Event) :
  Forall sessionEvent t ->
  forall st, sessionState st -> sessionState (V1.applyEvents st t).
Proof.
  induction 1 as [|e t He Ht IH]; intros st Hst; [exact Hst|].
  apply (IH (V1.applyEvent st e)). now apply applyEvent_sessionState.
Qed.

Lemma Forall_firstn {A} (Q : A -> Prop) (l : list A) (n : nat) :
  Forall Q l -> Forall Q (firstn n l).
Proof.
  intros H. revert n. induction H as [|x l Hx Hl IH]; intros [|n]; simpl;
    constructor; auto.
Qed.

(** The events of a session, and its state as the state the events
    lead to. *)
Lemma session_events (env : Env) (h : bool) (inputs : list jsstring) :
  forall st w,
    let '(st', t, _) := V1.session env h st w inputs in
    Forall sessionEvent t /\ st' = V1.applyEvents st t.
Proof.
  induction inputs as [|message rest IH]; intros st w; simpl.
  - split; [constructor | reflexivity].
  - unfold V1.submit.
    pose proof (handleSubmit_every env sessionEvent h st message
                  (fun e He => He) w) as E.
    unfold traceOf in E.
    destruct (V1.handleSubmit env h st message w) as [[t1 w1] o1].
    simpl fst in E.
    specialize (IH (V1.applyEvents st t1) w1).
    destruct (V1.session env h (V1.applyEvents st t1) w1 rest)
      as [[st2 t2] w2].
    destruct IH as [E2 ->]. split.
    + now apply Forall_app_intro.
    + now rewrite applyEvents_app.
Qed.

(** The state at every point of a session. *)
Lemma session_states (env : Env) (h : bool) (st : V1.State) (w : World)
      (inputs : list jsstring) (n : nat) :
  sessionState st ->
  let '(_, t, _) := V1.session env h st w inputs in
  sessionState (V1.applyEvents st (firstn n t)).
Proof.
  intros Hst. pose proof (session_events env h inputs st w) as E.
  destruct (V1.session env h st w inputs) as [[st' t] w'].
  destruct E as [E _].
  apply applyEvents_sessionState; [|exact Hst].
  now apply Forall_firstn.
Qed.



(* ================================================================== *)
(** ** The properties of the specification *)
(* ================================================================== *)

(** *** Extraction of fenced blocks *)

(** C1 (amended).  For a text made of N well-formed fenced blocks, each
    behind a text without fence, and ended by a text without fence or
    by an opener that no fence closes, both extractors find exactly the
    N blocks, in order, with the tag as language and ["text"] when the
    tag is missing; an unclosed opener gives no block and no blocks is
    a result like any other.  [parseCodeBlocks] returns the content
    trimmed; the loop of [handleFileGeneration] hands on the content as
    it stands between the opener's newline and the closer. *)
Theorem extraction_of_document (bs : list Fenced) (tail : jsstring) :
  Forall wellFormed bs -> openEnded tail ->
  map (fun cb => (V0.language cb, V0.code cb))
      (V0.parseCodeBlocks (document bs tail))
  = expectedBlocks bs
  /\ length (V0.parseCodeBlocks (document bs tail)) = length bs
  /\ V1.extractFrom 0 (V1.codeBlocksOf (document bs tail))
     = expectedFiles 0 bs.
Proof.
  intros Hbs Htail.
  assert (Hfuel : length bs < S (length (document bs tail))).
  { pose proof (document_length bs tail). lia. }
  assert (H0 : map (fun cb => (V0.language cb, V0.code cb))
                   (V0.parseCodeBlocks (document bs tail))
               = expectedBlocks bs).
  { unfold V0.parseCodeBlocks. now apply parseLoop_document. }
  split; [exact H0|]. split.
  - apply (f_equal (@length _)) in H0.
    unfold expectedBlocks in H0. now rewrite !length_map in H0.
  - unfold V1.codeBlocksOf, matchAll.
    rewrite matchAllFrom_document by assumption.
    now apply extractFrom_blocks.
Qed.

Lemma sample_wellFormed : Forall wellFormed Sample.twoBlocks.
Proof.
  repeat constructor; try reflexivity; unfold noTickEnd; vm_compute;
    discriminate.
Defined.

Lemma sample_openEnded : openEnded Sample.openTail.
Proof.
  right. exists (str " then "), (str "py"), (str "x = 1").
  repeat split.
Defined.

Lemma extraction_of_document_witness :
  Forall wellFormed Sample.twoBlocks /\ openEnded Sample.openTail
  /\ map (fun cb => (V0.language cb, V0.code cb))
         (V0.parseCodeBlocks (document Sample.twoBlocks Sample.openTail))
     = [(str "js", str "let x = 1;"); (str "text", str "plain text")].
Proof.
  split; [exact sample_wellFormed|]. split; [exact sample_openEnded|].
  exact (proj1 (extraction_of_document Sample.twoBlocks Sample.openTail
                  sample_wellFormed sample_openEnded)).
Defined.

(** C1 as stated fails on the loop of [handleFileGeneration]: the
    content of a well-formed block is handed on with its white space. *)
Lemma extraction_untrimmed :
  wellFormed Sample.padded
  /\ map V1.gf_code
         (V1.extractFrom 0 (V1.codeBlocksOf (document [Sample.padded] [])))
     = [str "  let x = 1;" ++ [NL]]
  /\ trim (body Sample.padded) = str "let x = 1;"
  /\ map V1.gf_code
         (V1.extractFrom 0 (V1.codeBlocksOf (document [Sample.padded] [])))
     <> [trim (body Sample.padded)].
Proof.
  split.
  { repeat split; try reflexivity. unfold noTickEnd. vm_compute. discriminate. }
  split; [vm_compute; reflexivity|].
  split; [vm_compute; reflexivity|].
  vm_compute. discriminate.
Qed.

(** *** File names *)

Lemma spaces_not_markerStart (s : jsstring) :
  forallb isSpace s = true ->
  forallb (fun x => negb (markerStart x)) s = true.
Proof.
  induction s as [|x s IH]; simpl; [reflexivity|]. intros H.
  apply andb_true_iff in H as [Hx Hs].
  now rewrite (isSpace_not_markerStart _ Hx), IH.
Qed.

(** C3 (amended).  When one of the first five lines of a block is a
    file comment (white space, a comment marker, then optionally
    [filename:] or [file:], then a token [name.ext]) and no line before
    it carries a match of the file-name expression, [generateFileName]
    returns the token as it stands, whatever the content signatures of
    the block. *)
Theorem filename_comment_wins (codeBlock : jsstring) (index k : nat)
        (l : NamedLine) :
  namedLine l -> forallb isSpace (before l) = true ->
  k < 5 ->
  nth_error (split NL codeBlock) k = Some (lineText l) ->
  (forall j line, j < k -> nth_error (split NL codeBlock) j = Some line ->
                  V1.fileMatch line = None) ->
  V1.generateFileName codeBlock index = nameOf l.
Proof.
  intros Hl Hb. apply generateFileName_named; trivial.
  now apply spaces_not_markerStart.
Qed.

Lemma commentLine_named : namedLine Sample.commentLine.
Proof.
  unfold namedLine. simpl.
  repeat split; try reflexivity; try discriminate; auto.
Defined.

Lemma commented_before (j : nat) (line : jsstring) :
  j < 1 -> nth_error (split NL Sample.commented) j = Some line ->
  V1.fileMatch line = None.
Proof.
  intros Hj. destruct j as [|j]; [|lia].
  vm_compute. intros H. injection H as <-. reflexivity.
Defined.

Lemma filename_comment_wins_witness :
  htmlSig Sample.commented = true
  /\ V1.generateFileName Sample.commented 0 = str "foo.py".
Proof.
  split; [reflexivity|].
  apply (filename_comment_wins Sample.commented 0 1 Sample.commentLine).
  - exact commentLine_named.
  - reflexivity.
  - lia.
  - reflexivity.
  - exact commented_before.
Defined.

(** C3 as stated fails: the block holds the comment [// filename:
    foo.py] on its second line, and the address on the first line is
    matched first. *)
Lemma filename_comment_loses :
  nth_error (split NL Sample.addressFirst) 1
  = Some (str "// filename: foo.py")
  /\ V1.generateFileName Sample.addressFirst 0 = str "cdn.io"
  /\ V1.generateFileName Sample.addressFirst 0 <> str "foo.py".
Proof.
  split; [reflexivity|]. split; [vm_compute; reflexivity|].
  vm_compute. discriminate.
Qed.

(** C9 (amended).  The file-name expression is searched anywhere in a
    line: when one of the first five lines holds a comment marker
    behind a text in which no marker can begin (no [/], [#] or [<]),
    followed by optional white space, an optional [filename:] or
    [file:] and a token [name.ext], and no line before it carries a
    match, [generateFileName] returns the token, whether or not the
    marker begins the line. *)
Theorem marker_anywhere_in_line (codeBlock : jsstring) (index k : nat)
        (l : NamedLine) :
  namedLine l ->
  forallb (fun x => negb (markerStart x)) (before l) = true ->
  k < 5 ->
  nth_error (split NL codeBlock) k = Some (lineText l) ->
  (forall j line, j < k -> nth_error (split NL codeBlock) j = Some line ->
                  V1.fileMatch line = None) ->
  V1.generateFileName codeBlock index = nameOf l.
Proof.
  intros Hl Hb Hk Hline Hbefore.
  now apply (generateFileName_named codeBlock index k l).
Qed.

Lemma addressLine_named : namedLine Sample.addressLine.
Proof.
  unfold namedLine. simpl.
  repeat split; try reflexivity; try discriminate; auto.
Defined.

Lemma marker_anywhere_in_line_witness :
  before Sample.addressLine <> []
  /\ V1.generateFileName (lineText Sample.addressLine) 7 = str "example.com".
Proof.
  split; [discriminate|].
  apply (marker_anywhere_in_line (lineText Sample.addressLine) 7 0
           Sample.addressLine).
  - exact addressLine_named.
  - reflexivity.
  - lia.
  - reflexivity.
  - intros j line Hj. lia.
Defined.

(** C9 as stated fails: the marker [//] stands in the middle of the
    line, inside an address, and the token behind it is returned. *)
Lemma marker_inside_address :
  lineText Sample.addressLine = str "see http://example.com/x"
  /\ startsWith (str "//") (lineText Sample.addressLine) = false
  /\ V1.generateFileName (lineText Sample.addressLine) 0
     = str "example.com".
Proof. repeat split; vm_compute; reflexivity. Qed.

(** C4 (amended).  When no line among the first five carries a match
    of the file-name expression, the content signatures are tried in
    this order and the first that holds decides: an HTML doctype or
    [<html] gives [index.html]; the text [package.json], or both a
    ["name"] and a ["version"] field, give [package.json]; the CSS
    signatures give [style.css]; the server signatures give
    [server.js]; a class with a constructor gives [app.js]; a function
    or variable declaration gives [script{N+1}.js]; anything else
    gives [file{N+1}.txt]. *)
Theorem signature_rules (codeBlock : jsstring) (index : nat) :
  noFileComment codeBlock ->
  (htmlSig codeBlock = true ->
   V1.generateFileName codeBlock index = str "index.html")
  /\ (htmlSig codeBlock = false -> manifestSig codeBlock = true ->
      V1.generateFileName codeBlock index = str "package.json")
  /\ (htmlSig codeBlock = false -> manifestSig codeBlock = false ->
      cssSig codeBlock = true ->
      V1.generateFileName codeBlock index = str "style.css")
  /\ (htmlSig codeBlock = false -> manifestSig codeBlock = false ->
      cssSig codeBlock = false -> serverSig codeBlock = true ->
      V1.generateFileName codeBlock index = str "server.js")
  /\ (htmlSig codeBlock = false -> manifestSig codeBlock = false ->
      cssSig codeBlock = false -> serverSig codeBlock = false ->
      classSig codeBlock = true ->
      V1.generateFileName codeBlock index = str "app.js")
  /\ (htmlSig codeBlock = false -> manifestSig codeBlock = false ->
      cssSig codeBlock = false -> serverSig codeBlock = false ->
      classSig codeBlock = false -> scriptSig codeBlock = true ->
      V1.generateFileName codeBlock index
      = str "script" ++ ofNat (index + 1) ++ str ".js")
  /\ (htmlSig codeBlock = false -> manifestSig codeBlock = false ->
      cssSig codeBlock = false -> serverSig codeBlock = false ->
      classSig codeBlock = false -> scriptSig codeBlock = false ->
      V1.generateFileName codeBlock index
      = str "file" ++ ofNat (index + 1) ++ str ".txt").
Proof.
  intros H. rewrite (generateFileName_signatures codeBlock index H).
  repeat split; intros; repeat
    match goal with
    | E : ?s codeBlock = _ |- _ => rewrite E; clear E
    end; reflexivity.
Qed.

Lemma htmlPage_noFileComment : noFileComment Sample.htmlPage.
Proof.
  intros line. vm_compute. intros [<-|[]]. reflexivity.
Defined.

Lemma signature_rules_witness :
  noFileComment Sample.htmlPage
  /\ V1.generateFileName Sample.htmlPage 0 = str "index.html".
Proof.
  split; [exact htmlPage_noFileComment|].
  exact (proj1 (signature_rules Sample.htmlPage 0 htmlPage_noFileComment)
               eq_refl).
Defined.

(** C4 as stated fails: a block without file comment, without HTML and
    without the two manifest fields, with a CSS signature, is named
    [package.json] because it holds that text. *)
Lemma manifest_by_name :
  noFileComment Sample.styleWithNote
  /\ htmlSig Sample.styleWithNote = false
  /\ manifestFields Sample.styleWithNote = false
  /\ cssSig Sample.styleWithNote = true
  /\ V1.generateFileName Sample.styleWithNote 0 = str "package.json"
  /\ V1.generateFileName Sample.styleWithNote 0 <> str "style.css".
Proof.
  split.
  { intros line. vm_compute. intros [<-|[<-|[]]]; reflexivity. }
  repeat split; try (vm_compute; reflexivity).
  vm_compute. discriminate.
Qed.

(** *** The typing replay *)

(** C5 (amended).  The progress reported by the chunk updates of
    [simulateTyping]: each update reports the share of the text written
    before its chunk, the quotient and the product rounded to doubles
    as the source computes them ([Math.round] of it in the first
    version, [Math.min] of it and 100 in the second).  The values never
    decrease, the first is 0 and none exceeds 100.  In the second
    version every value is below 100, for any length a string can
    have.  In the first version the last value is the rounded share of
    the text before the last chunk: 98 for 46 characters, 100 for 211
    characters (the update at 210 gives 99.526..., which rounds to
    100), 57 at position 345 of 600 (the double is 57.49999999999999,
    that is 8092405580431359 / 2^47; 10 of 23 gives the double
    43.47826086956522, that is 1529755308210087 / 2^45).
    For the empty text no chunk update is made: the first version sets
    nothing, the second sets the buffer to the empty text and leaves
    the progress as it was. *)
Theorem typing_progress (env : Env) (code fileName lang : jsstring)
        (w : World) (st : V1.State) :
  let p0 :=
    V0.typedProgress (traceOf (V0.simulateTyping code fileName lang) w) in
  let p1 :=
    V1.chunkProgress (traceOf (V1.simulateTyping env code fileName lang) w) in
  p0 = map (fun i => V0.mathRound (V0.percent i (length code)))
           (positions (length code) 0 15 (length code))
  /\ nondecreasingZ p0
  /\ Forall (fun p => (0 <= p <= 100)%Z) p0
  /\ (code <> [] -> hd_error p0 = Some 0%Z)
  /\ p1 = map (fun i => V1.mathMin (V1.percent i (length code))
                                   (inject_Z 100))
              (positions (length code) 0 20 (length code))
  /\ nondecreasingQ p1
  /\ Forall (fun p => Qle 0 p /\ Qle p (inject_Z 100)) p1
  /\ ((Z.of_nat (length code) <= 2 ^ 53)%Z ->
      Forall (fun p => Qlt p (inject_Z 100)) p1)
  /\ (code <> [] -> hd_error p1 = Some 0%Q)
  /\ V0.mathRound (V0.percent 45 46) = 98%Z
  /\ V0.mathRound (V0.percent 210 211) = 100%Z
  /\ V0.mathRound (V0.percent 345 600) = 57%Z
  /\ Qeq (V0.percent 345 600) (8092405580431359 # 140737488355328)
  /\ Qeq (V1.percent 10 23) (1529755308210087 # 35184372088832)
  /\ traceOf (V0.simulateTyping [] fileName lang) w = []
  /\ traceOf (V1.simulateTyping env [] fileName lang) w
     = [V1.SetLiveBegin fileName lang]
  /\ V1.lc_content
       (V1.liveCoding (V1.applyEvents st [V1.SetLiveBegin fileName lang]))
     = []
  /\ V1.lc_progress
       (V1.liveCoding (V1.applyEvents st [V1.SetLiveBegin fileName lang]))
     = V1.lc_progress (V1.liveCoding st).
Proof.
  cbv zeta.
  assert (P1 : V1.chunkProgress
                 (traceOf (V1.simulateTyping env code fileName lang) w)
               = map (fun i => V1.mathMin (V1.percent i (length code))
                                          (inject_Z 100))
                     (positions (length code) 0 20 (length code))).
  { unfold V1.simulateTyping. rewrite traceOf_emit_then. simpl.
    apply typingLoop_progress. }
  assert (P0 : V0.typedProgress
                 (traceOf (V0.simulateTyping code fileName lang) w)
               = map (fun j => V0.mathRound (V0.percent j (length code)))
                     (positions (length code) 0 15 (length code))).
  { unfold V0.simulateTyping. apply typingLoop0_progress. }
  rewrite P1, P0.
  split; [reflexivity|]. split.
  { apply nondecreasingZ_positions. intros a b Hab.
    apply mathRound_mono. now apply (percent_mono (length code)). }
  split.
  { apply Forall_forall. intros p Hp. apply in_map_iff in Hp as (j & <- & Hj).
    apply positions_below in Hj. split.
    - change 0%Z with (V0.mathRound 0).
      apply mathRound_mono. apply (percent_nonneg (length code)).
    - change 100%Z with (V0.mathRound (inject_Z 100)).
      apply mathRound_mono. apply (percent_le_100 (length code)). lia. }
  split.
  { intros Hc. destruct code as [|c code]; [now destruct Hc|].
    cbn [length positions Nat.ltb Nat.leb map hd_error].
    change (V0.percent 0 (S (length code)))
      with (V1.percent 0 (S (length code))).
    now rewrite percent_zero. }
  split; [reflexivity|]. split.
  { apply nondecreasingQ_positions. intros a b Hab.
    apply mathMin_mono. now apply percent_mono. }
  split.
  { apply Forall_forall. intros p Hp. apply in_map_iff in Hp as (j & <- & Hj).
    split; [|apply mathMin_le].
    apply mathMin_ge; [apply percent_nonneg | discriminate]. }
  split.
  { intros L. apply Forall_forall. intros p Hp.
    apply in_map_iff in Hp as (j & <- & Hj).
    apply positions_below in Hj.
    apply Qle_lt_trans with (V1.percent j (length code)).
    - apply mathMin_le_l.
    - now apply percent_lt_100. }
  split.
  { intros Hc. destruct code as [|c code]; [now destruct Hc|].
    cbn [length positions Nat.ltb Nat.leb map hd_error].
    now rewrite percent_zero. }
  repeat split; vm_compute; reflexivity.
Qed.

Lemma typing_progress_witness :
  Forall (fun p => Qlt p (inject_Z 100))
    (V1.chunkProgress
       (traceOf (V1.simulateTyping Sample.quiet Sample.text46 (str "a.js")
                                   (str "js")) world0))
  /\ hd_error
       (V0.typedProgress
          (traceOf (V0.simulateTyping Sample.text46 (str "a.js") (str "js"))
                   world0))
     = Some 0%Z.
Proof.
  destruct (typing_progress Sample.quiet Sample.text46 (str "a.js") (str "js")
              world0 V1.initialState)
    as (_ & _ & _ & H0 & _ & _ & _ & H1 & _).
  split.
  - apply H1. vm_compute. discriminate.
  - apply H0. discriminate.
Defined.

(** C5 as stated fails in a round of the first version.  The reply
    holds one block of ten characters: its replay is one chunk update,
    which reports 0, and the round ends with the whole code in the
    buffer and the progress at 0, not at 100.  The reply with an empty
    block hands the file on and makes no chunk update at all: the
    progress is left where it was. *)
Lemma typing_ends_below_100 :
  let '(st', t, _) :=
    V0.submit Sample.coder Sample.props V0.initialState world0 Sample.todo in
  let '(st2, t2, _) :=
    V0.submit Sample.hollow Sample.props V0.initialState world0 Sample.todo in
  V0.typedProgress t = [0%Z]
  /\ V0.lc_content (V0.liveCoding st') = str "let x = 1;"
  /\ V0.lc_progress (V0.liveCoding st') <> 100%Z
  /\ length (V0.filesOf t2) = 1
  /\ V0.typedProgress t2 = []
  /\ V0.lc_progress (V0.liveCoding st2) <> 100%Z.
Proof. vm_compute. repeat split; discriminate. Qed.



(** *** The stages and the request *)

Lemma makeAPICall_starts (env : Env) (ep : string) (p : jsstring) :
  prefixed [V0.Fetch ep p] (V0.makeAPICall env ep p).
Proof.
  intros w. unfold V0.makeAPICall.
  rewrite apiLoop_unfold, traceOf_catch, traceOf_bind.
  simpl. eexists. reflexivity.
Qed.

Lemma stageLoop_run (w : World) :
  traceOf (V0.stageLoop (removelast V0.GENERATION_STAGES) 0) w
  = [ V0.SetCurrentStageIndex 0;
      V0.Log info (Say "Understanding your project needs"); V0.Wait 800;
      V0.SetCurrentStageIndex 1;
      V0.Log info (Say "Creating multi-language structure"); V0.Wait 800;
      V0.SetCurrentStageIndex 2;
      V0.Log info (Say "Creating comprehensive codebase"); V0.Wait 800;
      V0.SetCurrentStageIndex 3;
      V0.Log info (Say "Applying best practices"); V0.Wait 800 ]
  /\ exists a,
      resultOf (V0.stageLoop (removelast V0.GENERATION_STAGES) 0) w = Done a.
Proof. split; [reflexivity | now exists tt]. Qed.

(** C7 (amended).  In generation mode [handleAIResponse] plays the
    scripted stages one after the other, each followed by its delay of
    800 ms, then enters the last stage, and only then sends the
    request: the request is sent after the four delays and after the
    last stage is entered. *)
Theorem stages_before_request (env : Env) (props : V0.Props)
        (st : V0.State) (userInput : jsstring) (w : World) :
  V0.isGenerationMode st = true -> V0.generationComplete st = false ->
  (exists rest,
      traceOf (V0.handleAIResponse env props st userInput) w
      = scripted ++ V0.Fetch "/api/ask" userInput :: rest)
  /\ V0.untilFetch (traceOf (V0.handleAIResponse env props st userInput) w)
     = scripted
  /\ V0.waitsOf scripted = [800; 800; 800; 800]%N
  /\ In (V0.SetCurrentStageIndex (length V0.GENERATION_STAGES - 1)) scripted.
Proof.
  intros Hgm Hgc.
  assert (Ht : exists rest,
             traceOf (V0.handleAIResponse env props st userInput) w
             = scripted ++ V0.Fetch "/api/ask" userInput :: rest).
  { unfold V0.handleAIResponse. rewrite Hgm, Hgc. simpl andb. cbv iota.
    unfold scripted.
    lazymatch goal with
    | |- exists rest, traceOf ?m w = _ =>
        assert (P : prefixed
                      ([V0.SetIsLoading true; V0.SetError None;
                        V0.SetCurrentStageIndex 0]
                       ++ ([ V0.SetCurrentStageIndex 0;
                             V0.Log info (Say "Understanding your project needs");
                             V0.Wait 800; V0.SetCurrentStageIndex 1;
                             V0.Log info (Say "Creating multi-language structure");
                             V0.Wait 800; V0.SetCurrentStageIndex 2;
                             V0.Log info (Say "Creating comprehensive codebase");
                             V0.Wait 800; V0.SetCurrentStageIndex 3;
                             V0.Log info (Say "Applying best practices");
                             V0.Wait 800 ]
                           ++ [V0.SetCurrentStageIndex 4; V0.SetLiveActive true;
                               V0.Fetch "/api/ask" userInput])) m)
    end.
    { simpl app at 1.
      do 3 apply prefixed_emit.
      apply prefixed_finally, prefixed_catch, prefixed_bind.
      apply (prefixed_after
               [ V0.SetCurrentStageIndex 0;
                 V0.Log info (Say "Understanding your project needs");
                 V0.Wait 800; V0.SetCurrentStageIndex 1;
                 V0.Log info (Say "Creating multi-language structure");
                 V0.Wait 800; V0.SetCurrentStageIndex 2;
                 V0.Log info (Say "Creating comprehensive codebase");
                 V0.Wait 800; V0.SetCurrentStageIndex 3;
                 V0.Log info (Say "Applying best practices");
                 V0.Wait 800 ]
               [V0.SetCurrentStageIndex 4; V0.SetLiveActive true;
                V0.Fetch "/api/ask" userInput]);
        [apply stageLoop_run | intros _].
      do 2 apply prefixed_emit.
      apply prefixed_bind, makeAPICall_starts. }
    destruct (P w) as [rest ->]. exists rest.
    simpl. reflexivity. }
  split; [exact Ht|]. split.
  - destruct Ht as [rest ->]. reflexivity.
  - split; [reflexivity | simpl; tauto].
Qed.

Lemma stages_before_request_witness :
  V0.isGenerationMode V0.initialState = true
  /\ V0.generationComplete V0.initialState = false
  /\ V0.untilFetch
       (traceOf (V0.handleAIResponse Sample.quiet Sample.props
                                     V0.initialState Sample.todo) world0)
     = scripted.
Proof.
  split; [reflexivity|]. split; [reflexivity|].
  exact (proj1 (proj2 (stages_before_request Sample.quiet Sample.props
                         V0.initialState Sample.todo world0
                         eq_refl eq_refl))).
Defined.

(** C7 as stated fails: in this run the request is sent after four
    delays of 800 ms, and the last stage, whose progress is 100, is
    entered before the request is sent. *)
Lemma stages_delay_request :
  let t := traceOf (V0.handleAIResponse Sample.quiet Sample.props
                                        V0.initialState Sample.todo)
                   world0 in
  V0.waitsOf (V0.untilFetch t) = [800; 800; 800; 800]%N
  /\ V0.fetchesOf (V0.untilFetch t) = []
  /\ In (V0.SetCurrentStageIndex 4) (V0.untilFetch t)
  /\ option_map V0.progress (nth_error V0.GENERATION_STAGES 4) = Some 100
  /\ V0.fetchesOf t = ["/api/ask"%string].
Proof.
  cbv zeta. repeat split; try (vm_compute; reflexivity).
  vm_compute. tauto.
Qed.
(* ------------------------------------------------------------------ *)
(** *** C10: the mode changes only with a created file *)

(** C10.  In the second version, whatever the submission: when no reply
    of the backend holds a code block the round leaves
    [isGenerationMode] and [generationComplete] as they were; more
    generally the two fields are left as they were unless the round
    appends a message that reports at least one created file, and in
    that case both are set (chat mode, generation complete), the
    message asked for code and the reply read gave at least one
    file. *)
Theorem mode_changes_with_files (env : Env) (h : bool) (st : V1.State)
        (w : World) (message : jsstring) :
  let '(st', t, _) := V1.submit env h st w message in
  ((forall n r, net env n = Reply r ->
                V1.codeBlocksOf (orElse r V1.fallbackGeneration) = []) ->
   V1.isGenerationMode st' = V1.isGenerationMode st
   /\ V1.generationComplete st' = V1.generationComplete st)
  /\ (existsb reportsFiles t = false ->
      V1.isGenerationMode st' = V1.isGenerationMode st
      /\ V1.generationComplete st' = V1.generationComplete st)
  /\ (existsb reportsFiles t = true ->
      V1.isGenerationMode st' = false
      /\ V1.generationComplete st' = true
      /\ V1.isCodeGenerationRequest (trim message) = true
      /\ exists r c n, net env n = Reply r /\ filesFor r c <> []).
Proof.
  unfold V1.submit.
  pose proof (handleSubmit_obs env h st message w) as O.
  cbv zeta in O. unfold traceOf in O.
  destruct (V1.handleSubmit env h st message w) as [[t w'] o].
  simpl fst in O. destruct O as (K & Fl & Hflip).
  rewrite <- Fl.
  split; [|split].
  - intros Hnone.
    destruct (existsb flipEvent t) eqn:E.
    + destruct (Hflip eq_refl) as (_ & _ & r & c & n & Hr & Hfiles).
      destruct Hfiles. apply filesFor_none. exact (Hnone n r Hr).
    + now apply applyEvents_noflip.
  - intros E. now apply applyEvents_noflip.
  - intros E. destruct (Hflip E) as (Hf & Hkw & Hfiles).
    destruct (applyEvents_flipped st t Hf) as [-> ->].
    repeat split; trivial.
Qed.

Lemma mode_changes_with_files_witness :
  (forall n r, net Sample.quiet n = Reply r ->
               V1.codeBlocksOf (orElse r V1.fallbackGeneration) = [])
  /\ let '(st', _, _) :=
       V1.submit Sample.quiet true V1.initialState world0 Sample.todo in
     V1.isGenerationMode st' = true /\ V1.generationComplete st' = false.
Proof.
  assert (Hq : forall n r, net Sample.quiet n = Reply r ->
               V1.codeBlocksOf (orElse r V1.fallbackGeneration) = []).
  { intros n r H. injection H as <-. vm_compute. reflexivity. }
  split; [exact Hq|].
  pose proof (mode_changes_with_files Sample.quiet true V1.initialState
                world0 Sample.todo) as T.
  destruct (V1.submit Sample.quiet true V1.initialState world0 Sample.todo)
    as [[st' t] w'].
  exact (proj1 T Hq).
Defined.
(* ------------------------------------------------------------------ *)
(** *** C8: the retry budget *)




(* ------------------------------------------------------------------ *)
(** *** C2: from generation to chat *)

(** C2.  In the first version a generation round that reads a reply
    sets chat mode and generation complete; from then on every
    submission of the session raises the events of the chat branch
    only (requests to /api/chat, no file handed on) and the two fields
    stay as they are.  In the second version the two fields never go
    back either, but they do not choose the path: a message with one
    of the keywords is handled by [handleFileGeneration] whatever the
    mode, and the files of the reply are handed on (all of them, once,
    when Cancel is not pressed and no call of [onFileGenerated]
    throws). *)
Theorem chat_mode_is_kept (env : Env) (props : V0.Props) (h : bool)
        (st0 : V0.State) (st1 : V1.State) (w : World)
        (message : jsstring) (inputs : list jsstring) :
  (trim message <> [] -> V0.isLoading st0 = false ->
   V0.isGenerationMode st0 = true -> V0.generationComplete st0 = false ->
   forall k r,
     k <= 2 ->
     (forall j, j < k -> failing (net env (fetches w + j))) ->
     net env (fetches w + k) = Reply r ->
     let '(st', _, _) := V0.submit env props st0 w message in
     V0.isGenerationMode st' = false /\ V0.generationComplete st' = true)
  /\ (V0.isGenerationMode st0 && negb (V0.generationComplete st0) = false ->
      let '(st', t, _) := V0.session env props st0 w inputs in
      Forall chatEvent0 t
      /\ V0.filesOf t = []
      /\ V0.isGenerationMode st' = V0.isGenerationMode st0
      /\ V0.generationComplete st' = V0.generationComplete st0)
  /\ (let '(st', t, _) := V1.session env h st1 w inputs in
      Forall keepsMode t
      /\ (V1.isGenerationMode st1 = false -> V1.isGenerationMode st' = false)
      /\ (V1.generationComplete st1 = true ->
          V1.generationComplete st' = true))
  /\ (trim message <> [] -> V1.isLoading st1 = false ->
      V1.isCodeGenerationRequest (trim message) = true ->
      (forall n, click env n = false) -> noThrow env h ->
      forall r,
        net env (fetches w) = Reply r ->
        V1.filesOf (traceOf (V1.handleSubmit env h st1 message) w)
        = if h then filesFor r false else []).
Proof.
  split; [|split; [|split]].
  - intros Hm Hl G C k r Hk F R. unfold V0.submit.
    destruct (handleSubmit0_answered env props st0 message w k r
                Hm Hl Hk F R)
      as (ta & tl & Ht & _ & _ & _ & _ & _ & _ & Hgen).
    rewrite G, C in Hgen. simpl in Hgen.
    destruct Hgen as (In1 & In2 & _).
    pose proof (handleSubmit0_keepsMode env props st0 message w) as K.
    unfold traceOf in Ht, K.
    destruct (V0.handleSubmit env props st0 message w) as [[t w'] o].
    simpl fst in Ht, K.
    destruct (applyEvents0_flip t K st0) as [F1 F2].
    rewrite G, C in Ht. simpl andb in Ht.
    split; [apply F1 | apply F2]; rewrite Ht;
      apply in_or_app; right; apply in_or_app; right;
      apply in_or_app; right; apply in_or_app; left; assumption.
  - intros Hmode. exact (session0_chat env props inputs st0 w Hmode).
  - exact (session_keepsMode env h inputs st1 w).
  - intros Hm Hl Hkw NC NT r R.
    destruct (handleSubmit_answered env h st1 message w 0 r Hm Hl NC NT
                ltac:(lia) ltac:(intros j Hj; lia)
                ltac:(now rewrite Nat.add_0_r))
      as (_ & _ & _ & _ & Hf).
    rewrite Hf, Hkw. reflexivity.
Qed.

Lemma chat_mode_is_kept_witness :
  let '(st', _, _) :=
    V0.submit Sample.coder Sample.props V0.initialState world0 Sample.todo in
  V0.isGenerationMode st' = false /\ V0.generationComplete st' = true.
Proof.
  assert (Hm : trim Sample.todo <> []) by (vm_compute; discriminate).
  pose proof (proj1 (chat_mode_is_kept Sample.coder Sample.props true
                       V0.initialState V1.initialState world0 Sample.todo [])
                Hm eq_refl eq_refl eq_refl 0 (Some Sample.answer)
                (le_0_n 2)
                (fun j (Hj : j < 0) =>
                   match Nat.nlt_0_r j Hj with end)
                eq_refl) as T.
  exact T.
Defined.

(** In the second version the session is in chat mode after the first
    round, and the second message, with a keyword, is again handled by
    [handleFileGeneration]: the request goes to the same endpoint and a
    file is handed to [onFileGenerated]. *)
Lemma chat_mode_generates_again :
  let '(st1, _, w1) :=
    V1.submit Sample.coder true V1.initialState world0 Sample.todo in
  let '(_, t2, _) := V1.submit Sample.coder true st1 w1 Sample.game in
  V1.isGenerationMode st1 = false
  /\ V1.generationComplete st1 = true
  /\ V1.filesOf t2
     = [V1.mkFile (str "script1.js") (Sample.line "let x = 1;") (str "js")]
  /\ In (V1.SetCurrentStage "Generating code...") t2.
Proof. vm_compute. repeat split. auto 20. Qed.
(* ================================================================== *)
(** ** Further properties of the code *)
(* ================================================================== *)

(** *** The routing by keyword *)

Lemma trimStart_keeps (k y : jsstring) :
  forall x,
    k <> [] -> forallb (fun c => negb (isSpace c)) k = true ->
    exists x', trimStart (x ++ k ++ y) = x' ++ k ++ y.
Proof.
  intros x Hk Hs. induction x as [|c x IH].
  - exists []. destruct k as [|c k]; [now destruct Hk|].
    simpl in *. apply andb_true_iff in Hs as [Hc _].
    apply negb_true_iff in Hc. now rewrite Hc.
  - simpl. destruct (isSpace c).
    + exact IH.
    + now exists (c :: x).
Qed.

Lemma trim_keeps (x k y : jsstring) :
  k <> [] -> forallb (fun c => negb (isSpace c)) k = true ->
  exists x' y', trim (x ++ k ++ y) = x' ++ k ++ y'.
Proof.
  intros Hk Hs. unfold trim, trimEnd.
  destruct (trimStart_keeps k y x Hk Hs) as [x' ->].
  rewrite !rev_app_distr, <- app_assoc.
  destruct (trimStart_keeps (rev k) (rev x') (rev y)) as [y' ->].
  - intros E. apply Hk. rewrite <- (rev_involutive k), E. reflexivity.
  - rewrite forallb_forall in *. intros c Hc. apply Hs.
    now apply in_rev.
  - exists x', (rev y').
    now rewrite !rev_app_distr, !rev_involutive, <- app_assoc.
Qed.

Lemma toLowerCase_app (a b : jsstring) :
  toLowerCase (a ++ b) = toLowerCase a ++ toLowerCase b.
Proof. apply flat_map_app. Qed.

Lemma includes_middle (k : jsstring) :
  forall x y, includes k (x ++ k ++ y) = true.
Proof.
  induction x as [|c x IH]; intros y.
  - simpl app. destruct k as [|c k]; [now destruct y|].
    simpl. rewrite N.eqb_refl. simpl.
    rewrite startsWith_app. reflexivity.
  - simpl. rewrite IH. apply orb_true_r.
Qed.

(** [isCodeGenerationRequest] sends a message to the generation path
    as soon as one of the keywords stands anywhere in it, in any
    letter case and also inside a longer word, whatever surrounds
    it. *)
Theorem keyword_anywhere (keyword : string) (a s b : jsstring) :
  In keyword V1.codeKeywords ->
  toLowerCase s = str keyword ->
  V1.isCodeGenerationRequest (a ++ s ++ b) = true.
Proof.
  intros Hin Hs. unfold V1.isCodeGenerationRequest. cbv zeta.
  apply existsb_exists. exists keyword. split; [exact Hin|].
  rewrite !toLowerCase_app, Hs.
  assert (Hall : forallb (fun kw =>
                   negb (eqs (str kw) [])
                   && forallb (fun c => negb (isSpace c)) (str kw))
                   V1.codeKeywords = true) by (vm_compute; reflexivity).
  rewrite forallb_forall in Hall. specialize (Hall keyword Hin).
  apply andb_true_iff in Hall as [Hne Hsp].
  destruct (trim_keeps (toLowerCase a) (str keyword) (toLowerCase b))
    as (x' & y' & ->); trivial.
  - intros E. rewrite E in Hne. discriminate.
  - apply includes_middle.
Qed.

Lemma keyword_anywhere_witness :
  V1.isCodeGenerationRequest
    (str "what is a cob" ++ str "WEB" ++ str "?") = true.
Proof.
  apply (keyword_anywhere "web").
  - simpl. auto 20.
  - reflexivity.
Defined.

(** *** The language of a file name *)

Lemma split_nonempty (sep : N) (s : jsstring) : split sep s <> [].
Proof.
  induction s as [|x s IH]; simpl; [discriminate|].
  destruct (N.eqb x sep); [discriminate|].
  destruct (split sep s); discriminate.
Qed.

Lemma last_split_cons (sep x : N) (s d : jsstring) :
  N.eqb x sep = true ->
  last (split sep (x :: s)) d = last (split sep s) d.
Proof.
  intros E. simpl. rewrite E.
  destruct (split sep s) eqn:S; [now destruct (split_nonempty sep s)|].
  reflexivity.
Qed.

Lemma split_no_sep (sep : N) (e : jsstring) :
  forallb (fun c => negb (N.eqb c sep)) e = true -> split sep e = [e].
Proof.
  induction e as [|x e IH]; simpl; [reflexivity|]. intros H.
  apply andb_true_iff in H as [Hx He]. apply negb_true_iff in Hx.
  now rewrite Hx, (IH He).
Qed.

Lemma last_split_app (sep : N) (b d : jsstring) :
  forall a, last (split sep (a ++ sep :: b)) d = last (split sep b) d.
Proof.
  induction a as [|x a IH].
  - apply last_split_cons, N.eqb_refl.
  - simpl app. destruct (N.eqb x sep) eqn:E.
    + now rewrite last_split_cons.
    + simpl. rewrite E.
      destruct (split sep (a ++ sep :: b)) as [|l ls] eqn:S;
        [now destruct (split_nonempty sep (a ++ sep :: b))|].
      destruct ls as [|l' ls].
      * (* one piece only: impossible, the separator is in the text *)
        exfalso. clear IH.
        assert (Hlen : forall t, 2 <= length (split sep (t ++ sep :: b))).
        { induction t as [|y t IHt]; simpl.
          - rewrite N.eqb_refl. simpl.
            destruct (split sep b) eqn:Sb;
              [now destruct (split_nonempty sep b)|]. simpl. lia.
          - destruct (N.eqb y sep).
            + simpl. lia.
            + destruct (split sep (t ++ sep :: b)); simpl in *; lia. }
        specialize (Hlen a). rewrite S in Hlen. simpl in Hlen. lia.
      * exact IH.
Qed.

Lemma language_of_dotted (stem ext : jsstring) :
  forallb (fun c => negb (N.eqb c 46)) ext = true ->
  V1.getLanguageFromFileName (stem ++ [46%N] ++ ext)
  = V1.getLanguageFromFileName ext
  /\ last (split 46 (stem ++ [46%N] ++ ext)) [] = ext.
Proof.
  intros H. unfold V1.getLanguageFromFileName. cbv zeta.
  simpl app. rewrite last_split_app, (split_no_sep 46 ext H).
  now split.
Qed.

(** [getLanguageFromFileName] reads the text after the last dot only,
    and a name without a dot is taken whole as its extension. *)
Theorem language_by_extension (stem ext : jsstring) :
  forallb (fun c => negb (N.eqb c 46)) ext = true ->
  V1.getLanguageFromFileName (stem ++ [46%N] ++ ext)
  = V1.getLanguageFromFileName ext
  /\ last (split 46 (stem ++ [46%N] ++ ext)) [] = ext.
Proof.
  intros H.
  assert (L : last (split 46 (stem ++ [46%N] ++ ext)) [] = ext).
  { simpl app. now rewrite last_split_app, (split_no_sep 46 ext H). }
  split; [|exact L].
  unfold V1.getLanguageFromFileName. cbv zeta.
  now rewrite L, (split_no_sep 46 ext H).
Qed.

Lemma language_by_extension_witness :
  V1.getLanguageFromFileName (str "archive.tar" ++ [46%N] ++ str "JS")
  = V1.getLanguageFromFileName (str "JS")
  /\ V1.getLanguageFromFileName (str "JS") = str "javascript".
Proof.
  split.
  - apply (language_by_extension (str "archive.tar") (str "JS")).
    reflexivity.
  - reflexivity.
Defined.

(** *** The numbered names *)

Lemma to_uint_nonnil (n : nat) : Nat.to_uint n <> Decimal.Nil.
Proof.
  rewrite <- (DecimalNat.Unsigned.of_to n) at 1.
  rewrite DecimalNat.Unsigned.to_of. apply DecimalFacts.unorm_nonnil.
Qed.

Lemma str_inj (a b : string) : str a = str b -> a = b.
Proof.
  unfold str. intros H.
  rewrite <- (string_of_list_ascii_of_string a),
          <- (string_of_list_ascii_of_string b).
  f_equal. revert H.
  generalize (list_ascii_of_string a) (list_ascii_of_string b).
  induction l as [|x l IH]; intros [|y l'] H; simpl in H;
    try discriminate; [reflexivity|].
  injection H as Hx Hl. f_equal; [|now apply IH].
  rewrite <- (ascii_N_embedding x), <- (ascii_N_embedding y).
  now rewrite Hx.
Qed.

(** The decimal digits of a number determine it. *)
Lemma ofNat_inj (n m : nat) : ofNat n = ofNat m -> n = m.
Proof.
  unfold ofNat. intros H. apply str_inj in H.
  apply DecimalNat.Unsigned.to_uint_inj.
  pose proof (NilZero.usu _ (to_uint_nonnil n)) as Hn.
  pose proof (NilZero.usu _ (to_uint_nonnil m)) as Hm.
  rewrite H in Hn. rewrite Hn in Hm. now injection Hm.
Qed.

Lemma digits_of_uint (d : Decimal.uint) :
  forallb isDigit (str (NilEmpty.string_of_uint d)) = true.
Proof. induction d; simpl; trivial. Qed.

Lemma ofNat_digits (n : nat) : forallb isDigit (ofNat n) = true.
Proof.
  unfold ofNat, NilZero.string_of_uint.
  destruct (Nat.to_uint n); try apply digits_of_uint. reflexivity.
Qed.

(** A text that starts with digits and a dot determines the digits. *)
Lemma digits_dot_inv (d1 d2 e1 e2 : jsstring) :
  forallb isDigit d1 = true -> forallb isDigit d2 = true ->
  d1 ++ 46%N :: e1 = d2 ++ 46%N :: e2 -> d1 = d2 /\ e1 = e2.
Proof.
  revert d2. induction d1 as [|x d1 IH]; intros [|y d2] H1 H2 E;
    simpl in *.
  - injection E as ->. now split.
  - injection E as <- _. discriminate.
  - injection E as -> _. discriminate.
  - apply andb_true_iff in H1 as [_ H1]. apply andb_true_iff in H2 as [_ H2].
    injection E as -> E. destruct (IH d2 H1 H2 E) as [-> ->]. now split.
Qed.

(** The name [generateFileName] gives a block depends on the index of
    the block only through the last two rules.  A block with a file
    comment or one of the first five signatures gets the same name at
    every index, so two such blocks of one reply can share a name (two
    HTML blocks are both index.html); the numbered names of the other
    blocks differ from index to index. *)
Theorem names_and_index (codeBlock : jsstring) (i j : nat) :
  (fixedName codeBlock = true ->
   V1.generateFileName codeBlock i = V1.generateFileName codeBlock j)
  /\ (fixedName codeBlock = false ->
      V1.generateFileName codeBlock i = V1.generateFileName codeBlock j ->
      i = j).
Proof.
  unfold fixedName, V1.generateFileName, htmlSig, manifestSig,
    manifestFields, cssSig, serverSig, classSig. cbv zeta.
  destruct (V1.firstFileMatch (firstn 5 (split NL codeBlock))).
  { split; [reflexivity | discriminate]. }
  destruct (includes (str "<!DOCTYPE html") codeBlock
            || includes (str "<html") codeBlock).
  { split; [reflexivity | discriminate]. }
  destruct (includes (str "package.json") codeBlock
            || includes (V1.quoted "name") codeBlock
               && includes (V1.quoted "version") codeBlock).
  { split; [reflexivity | discriminate]. }
  destruct (includes (str "body {") codeBlock
            || includes (str "@media") codeBlock
            || includes (str "font-family:") codeBlock).
  { split; [reflexivity | discriminate]. }
  destruct (includes (str "const express") codeBlock
            || includes (str "app.listen") codeBlock).
  { split; [reflexivity | discriminate]. }
  destruct (includes (str "class ") codeBlock
            && includes (str "constructor") codeBlock).
  { split; [reflexivity | discriminate]. }
  simpl orb. split; [discriminate|]. intros _ E.
  destruct (includes (str "function ") codeBlock
            || includes (str "const ") codeBlock
            || includes (str "let ") codeBlock);
    apply app_inv_head, app_inv_tail, ofNat_inj in E; lia.
Qed.

Lemma names_and_index_witness :
  fixedName Sample.htmlPage = true
  /\ V1.generateFileName Sample.htmlPage 0
     = V1.generateFileName Sample.htmlPage 1.
Proof.
  split; [reflexivity|].
  apply (proj1 (names_and_index Sample.htmlPage 0 1)). reflexivity.
Defined.

(** The language [getLanguageFromFileName] reads off a name that
    [generateFileName] made from the content of a block: html, json,
    css, javascript or text; the other languages of its table arise
    from file comments only. *)
Theorem generated_name_language (codeBlock : jsstring) (index : nat) :
  noFileComment codeBlock ->
  V1.getLanguageFromFileName (V1.generateFileName codeBlock index)
  = if htmlSig codeBlock then str "html"
    else if manifestSig codeBlock then str "json"
    else if cssSig codeBlock then str "css"
    else if serverSig codeBlock || classSig codeBlock || scriptSig codeBlock
         then str "javascript"
    else str "text".
Proof.
  intros H. rewrite (generateFileName_signatures codeBlock index H).
  destruct (htmlSig codeBlock); [reflexivity|].
  destruct (manifestSig codeBlock); [reflexivity|].
  destruct (cssSig codeBlock); [reflexivity|].
  destruct (serverSig codeBlock); [reflexivity|].
  destruct (classSig codeBlock); [reflexivity|].
  simpl orb.
  destruct (scriptSig codeBlock).
  - change (str "script" ++ ofNat (index + 1) ++ str ".js")
      with (str "script" ++ ofNat (index + 1) ++ [46%N] ++ str "js").
    rewrite app_assoc.
    now rewrite (proj1 (language_of_dotted
                          (str "script" ++ ofNat (index + 1)) (str "js")
                          eq_refl)).
  - change (str "file" ++ ofNat (index + 1) ++ str ".txt")
      with (str "file" ++ ofNat (index + 1) ++ [46%N] ++ str "txt").
    rewrite app_assoc.
    now rewrite (proj1 (language_of_dotted
                          (str "file" ++ ofNat (index + 1)) (str "txt")
                          eq_refl)).
Qed.

Lemma plainScript_noFileComment : noFileComment (str "let x = 1;").
Proof.
  intros line. vm_compute. intros [<-|[]]. reflexivity.
Defined.

Lemma generated_name_language_witness :
  noFileComment (str "let x = 1;")
  /\ V1.getLanguageFromFileName (V1.generateFileName (str "let x = 1;") 4)
     = str "javascript".
Proof.
  split; [exact plainScript_noFileComment|].
  exact (generated_name_language (str "let x = 1;") 4
           plainScript_noFileComment).
Defined.

(** *** The names of [parseCodeBlocks] *)

Lemma numbered_name_inv (i j : nat) (e1 e2 : jsstring) :
  str "generated_file_" ++ ofNat (i + 1) ++ str "." ++ e1
  = str "generated_file_" ++ ofNat (j + 1) ++ str "." ++ e2 ->
  i = j /\ e1 = e2.
Proof.
  intros E. apply app_inv_head in E.
  change (str "." ++ e1) with (46%N :: e1) in E.
  change (str "." ++ e2) with (46%N :: e2) in E.
  apply digits_dot_inv in E; try apply ofNat_digits.
  destruct E as [E ->]. apply ofNat_inj in E. split; [lia | reflexivity].
Qed.

Lemma parseLoop_numbered (fuel : nat) :
  forall content index k b,
    nth_error (V0.parseLoop fuel content index) k = Some b ->
    V0.fileName b
    = str "generated_file_" ++ ofNat (index + k + 1) ++ str "."
      ++ V0.getLanguageExtension (V0.language b).
Proof.
  induction fuel as [|fuel IH]; intros content index k b H; simpl in H.
  - now destruct k.
  - destruct (exec V0.codeBlockRegex [] content) as [mt|]; [|now destruct k].
    destruct k as [|k]; simpl in H.
    + injection H as <-. simpl. now rewrite Nat.add_0_r.
    + rewrite (IH _ _ _ _ H). do 2 f_equal. f_equal. lia.
Qed.

Lemma numbered_NoDup (bs : list V0.CodeBlock) (index : nat) :
  (forall k b, nth_error bs k = Some b ->
               V0.fileName b
               = str "generated_file_" ++ ofNat (index + k + 1) ++ str "."
                 ++ V0.getLanguageExtension (V0.language b)) ->
  NoDup (map V0.fileName bs).
Proof.
  revert index. induction bs as [|b bs IH]; intros index H; simpl.
  - constructor.
  - constructor.
    + intros Hin. apply in_map_iff in Hin as (b' & E & Hin').
      apply In_nth_error in Hin' as [k Hk].
      rewrite (H 0 b eq_refl), (H (S k) b' Hk) in E.
      apply numbered_name_inv in E. lia.
    + apply (IH (S index)). intros k b' Hk.
      rewrite (H (S k) b' Hk). do 2 f_equal. f_equal. lia.
Qed.

Lemma projectFiles_keys (bs : list V0.CodeBlock) :
  V0.projectFiles (map V0.fileName bs) bs
  = map (fun b => (V0.fileName b, (V0.code b, V0.language b))) bs.
Proof. induction bs as [|b bs IH]; simpl; [reflexivity | now rewrite IH]. Qed.

(** The names created are names of blocks, in order; all of them when
    no call throws. *)
Lemma createdFrom_length (env : Env) (blocks : list V0.CodeBlock) :
  forall n, length (createdFrom env n blocks) <= length blocks.
Proof.
  induction blocks as [|b blocks IH]; intros n; simpl; [lia|].
  specialize (IH (S n)). destruct (raises env n); simpl; lia.
Qed.

Lemma createdFrom_all (env : Env) (blocks : list V0.CodeBlock) :
  (forall n, raises env n = None) ->
  forall n, createdFrom env n blocks = map V0.fileName blocks.
Proof.
  intros NT. induction blocks as [|b blocks IH]; intros n; simpl;
    [reflexivity|].
  now rewrite NT, IH.
Qed.

Lemma createdFrom_incl (env : Env) (blocks : list V0.CodeBlock) :
  forall n, incl (createdFrom env n blocks) (map V0.fileName blocks).
Proof.
  induction blocks as [|b blocks IH]; intros n; simpl; [apply incl_refl|].
  destruct (raises env n).
  - apply incl_tl, IH.
  - apply incl_cons; [now left | apply incl_tl, IH].
Qed.

Lemma createdFrom_NoDup (env : Env) (blocks : list V0.CodeBlock) :
  NoDup (map V0.fileName blocks) ->
  forall n, NoDup (createdFrom env n blocks).
Proof.
  induction blocks as [|b blocks IH]; intros Hd n; simpl; [constructor|].
  inversion Hd as [|x l Hx Hl]; subst.
  destruct (raises env n); [now apply IH|].
  constructor; [|now apply IH].
  intros Hin. apply Hx. now apply (createdFrom_incl env blocks (S n)).
Qed.

Lemma createdNames_facts (env : Env) (props : V0.Props) (w : World)
      (blocks : list V0.CodeBlock) :
  length (createdNames env props w blocks) <= length blocks
  /\ incl (createdNames env props w blocks) (map V0.fileName blocks)
  /\ (NoDup (map V0.fileName blocks) ->
      NoDup (createdNames env props w blocks))
  /\ (noThrow env (V0.hasOnFileGenerated props) ->
      createdNames env props w blocks = map V0.fileName blocks).
Proof.
  unfold createdNames, noThrow.
  destruct (V0.hasOnFileGenerated props).
  - split; [apply createdFrom_length|].
    split; [apply createdFrom_incl|].
    split; [intros Hd; now apply createdFrom_NoDup|].
    intros [H|H]; [discriminate | now apply createdFrom_all].
  - rewrite length_map. repeat split; auto using incl_refl.
Qed.

Lemma parsed_NoDup (content : jsstring) :
  NoDup (map V0.fileName (V0.parseCodeBlocks content)).
Proof.
  apply (numbered_NoDup _ 0). intros k b. apply parseLoop_numbered.
Qed.

(** The keys of the object of [saveProject]: the names it is given,
    as far as there are blocks. *)
Lemma projectFiles_fst (files : list jsstring) :
  forall blocks,
    length files <= length blocks ->
    map fst (V0.projectFiles files blocks) = files.
Proof.
  induction files as [|f files IH]; intros [|b blocks] H; simpl in *;
    try reflexivity; try lia.
  now rewrite IH by lia.
Qed.

(** Whatever the reply, [parseCodeBlocks] numbers its blocks from 1 in
    the order of the text and no two of them share a file name.  The
    name ends with what [getLanguageExtension] gives for the tag of the
    block: the extension of the table, [txt] for a tag the object does
    not know, and for a tag that names a member of [Object.prototype]
    the text of that member, as in
    [generated_file_1.function Object() { [native code] }] for the tag
    [constructor].  The names of any part of the blocks handed to
    [saveProject] are distinct keys. *)
Theorem parsed_names_distinct (content : jsstring) (env : Env)
        (props : V0.Props) (w : World) :
  let blocks := V0.parseCodeBlocks content in
  let created := createdNames env props w blocks in
  NoDup (map V0.fileName blocks)
  /\ (forall k b, nth_error blocks k = Some b ->
        V0.fileName b
        = str "generated_file_" ++ ofNat (k + 1) ++ str "."
          ++ V0.getLanguageExtension (V0.language b))
  /\ NoDup (map fst (V0.projectFiles created blocks))
  /\ length (V0.projectFiles created blocks) = length created
  /\ V0.getLanguageExtension (str "python") = str "py"
  /\ V0.getLanguageExtension (str "rust") = str "txt"
  /\ V0.getLanguageExtension (str "constructor")
     = str "function Object() { [native code] }"
  /\ V0.getLanguageExtension (str "toString")
     = str "function toString() { [native code] }"
  /\ V0.getLanguageExtension (str "__proto__") = str "[object Object]"
  /\ map V0.fileName
       (V0.parseCodeBlocks
          (fence ++ Sample.line "constructor" ++ Sample.line "x" ++ fence))
     = [str "generated_file_1.function Object() { [native code] }"].
Proof.
  cbv zeta.
  assert (Hn : forall k b,
             nth_error (V0.parseCodeBlocks content) k = Some b ->
             V0.fileName b
             = str "generated_file_" ++ ofNat (0 + k + 1) ++ str "."
               ++ V0.getLanguageExtension (V0.language b)).
  { intros k b. apply parseLoop_numbered. }
  pose proof (parsed_NoDup content) as Hd.
  destruct (createdNames_facts env props w (V0.parseCodeBlocks content))
    as (Hlen & _ & Hnd & _).
  split; [exact Hd|]. split; [exact Hn|].
  rewrite <- (length_map fst (V0.projectFiles _ _)).
  rewrite (projectFiles_fst _ _ Hlen).
  split; [exact (Hnd Hd)|]. split; [reflexivity|].
  repeat split; vm_compute; reflexivity.
Qed.

Lemma parsed_names_distinct_witness :
  let b := V0.mkBlock (str "js") (str "let x = 1;")
                      (str "generated_file_1.txt") in
  V0.fileName b
  = str "generated_file_" ++ ofNat (0 + 1) ++ str "."
    ++ V0.getLanguageExtension (V0.language b).
Proof.
  apply (proj1 (proj2 (parsed_names_distinct Sample.answer Sample.quiet
                         Sample.props world0))).
  vm_compute. reflexivity.
Defined.

(** *** The error [makeAPICall] throws *)

Lemma apiLoop_last_error (env : Env) (ep : string) (p : jsstring)
      (retries : nat) :
  forall r' attempt w,
    attempt + r' = retries ->
    (forall j, j <= r' -> failing (net env (fetches w + j))) ->
    resultOf (V0.apiLoop env ep p retries (S r') attempt) w
    = Threw (rejection (net env (fetches w + r')))
    /\ length (V0.fetchesOf
                 (traceOf (V0.apiLoop env ep p retries (S r') attempt) w))
       = S r'.
Proof.
  induction r' as [|r' IH]; intros attempt w Ha F.
  - assert (attempt = retries) by lia. subst attempt.
    unfold resultOf, traceOf. rewrite apiLoop_step, Nat.eqb_refl.
    specialize (F 0 (le_n 0)). rewrite Nat.add_0_r in *.
    destruct (net env (fetches w)); simpl; try (now split).
  - assert (Hne : attempt <> retries) by lia. apply Nat.eqb_neq in Hne.
    specialize (IH (S attempt)
                   (mkWorld (S (fetches w)) (awaits w) (cancelled w) (button w)
                            (calls w))
                   ltac:(lia)).
    unfold resultOf, traceOf in *. rewrite apiLoop_step, Hne.
    destruct (V0.apiLoop env ep p retries (S r') (S attempt)
                (mkWorld (S (fetches w)) (awaits w) (cancelled w) (button w)
                            (calls w)))
      as [[t w2] res].
    simpl in IH.
    assert (F' : forall j, j <= r' -> failing (net env (S (fetches w) + j))).
    { intros j Hj. specialize (F (S j) ltac:(lia)).
      now rewrite Nat.add_succ_r in F. }
    destruct (IH F') as [IH1 IH2].
    rewrite Nat.add_succ_r.
    pose proof (F 0 ltac:(lia)) as F0. rewrite Nat.add_0_r in F0.
    destruct (net env (fetches w)); simpl; try (now split; [|f_equal]).
    all: try destruct F0.
Qed.

(** When every request fails, the error [makeAPICall] throws is the
    one of its last request: the status of that response, or the
    reason that request was rejected with; [retries] requests are
    sent.  The error 'Max retries exceeded' is thrown only when
    [retries] is 0, and then no request is sent at all. *)
Theorem makeAPICall_last_error (env : Env) (ep : string) (p : jsstring)
        (retries : nat) (w : World) :
  (forall n, failing (net env n)) ->
  let m := V0.apiLoop env ep p retries retries 1 in
  match retries with
  | 0 => m w = ([], w, Threw MaxRetries)
  | S r =>
      resultOf m w = Threw (rejection (net env (fetches w + r)))
      /\ resultOf m w <> Threw MaxRetries
      /\ length (V0.fetchesOf (traceOf m w)) = retries
  end.
Proof.
  intros F. cbv zeta. destruct retries as [|r]; [reflexivity|].
  destruct (apiLoop_last_error env ep p (S r) r 1 w ltac:(lia)
              (fun j _ => F (fetches w + j))) as [H1 H2].
  rewrite H1. repeat split; trivial.
  specialize (F (fetches w + r)).
  destruct (net env (fetches w + r)); simpl; try discriminate. destruct F.
Qed.

Lemma makeAPICall_last_error_witness :
  resultOf (V0.makeAPICall
              (mkEnv (fun n => Status (500 + N.of_nat n)) (fun _ => false))
              "/api/chat" Sample.todo) world0
  = Threw (HttpError 502).
Proof.
  exact (proj1 (makeAPICall_last_error
                  (mkEnv (fun n => Status (500 + N.of_nat n))
                         (fun _ => false))
                  "/api/chat" Sample.todo 3 world0 (fun _ => I))).
Defined.

(** The progress the second version shows is 0 at every point of every
    session: [currentStage] only ever holds the empty text or
    'Generating code...', and neither is the [id] of a stage of
    [GENERATION_STAGES]. *)
Theorem progress_stays_zero (env : Env) (h : bool) (st : V1.State)
        (w : World) (inputs : list jsstring) (n : nat) :
  sessionState st ->
  let '(_, t, _) := V1.session env h st w inputs in
  V1.currentProgress (V1.applyEvents st (firstn n t)) = 0.
Proof.
  intros Hst. pose proof (session_states env h st w inputs n Hst) as S.
  destruct (V1.session env h st w inputs) as [[st' t] w'].
  destruct S as ([S|S] & _); unfold V1.currentProgress; now rewrite S.
Qed.

Lemma initial_sessionState : sessionState V1.initialState.
Proof. repeat split; auto. Defined.

Lemma progress_stays_zero_witness :
  let '(_, t, _) :=
    V1.session Sample.coder true V1.initialState world0
               [Sample.todo; Sample.game] in
  V1.currentProgress (V1.applyEvents V1.initialState (firstn 9 t)) = 0.
Proof.
  exact (progress_stays_zero Sample.coder true V1.initialState world0
           [Sample.todo; Sample.game] 9 initial_sessionState).
Defined.

(** The live display of the second version is never shown and never
    written to: at every point of every session [liveCoding.isActive]
    is false and the buffer is empty. *)
Theorem live_display_never_shown (env : Env) (h : bool) (st : V1.State)
        (w : World) (inputs : list jsstring) (n : nat) :
  sessionState st ->
  let '(_, t, _) := V1.session env h st w inputs in
  V1.lc_isActive (V1.liveCoding (V1.applyEvents st (firstn n t))) = false
  /\ V1.lc_content (V1.liveCoding (V1.applyEvents st (firstn n t))) = []
  /\ V1.chunkContents t = [].
Proof.
  intros Hst. pose proof (session_states env h st w inputs n Hst) as S.
  pose proof (session_events env h inputs st w) as E.
  destruct (V1.session env h st w inputs) as [[st' t] w'].
  destruct S as (_ & Ha & Hc & _). repeat split; trivial.
  destruct E as [E _]. clear - E.
  induction E as [|e t He Ht IH]; [reflexivity|].
  simpl. rewrite IH. now destruct e.
Qed.

Lemma live_display_never_shown_witness :
  let '(_, t, _) :=
    V1.session Sample.coder true V1.initialState world0
               [Sample.todo; Sample.game] in
  V1.lc_isActive
    (V1.liveCoding (V1.applyEvents V1.initialState (firstn 12 t))) = false
  /\ V1.lc_content
       (V1.liveCoding (V1.applyEvents V1.initialState (firstn 12 t))) = []
  /\ V1.chunkContents t = [].
Proof.
  exact (live_display_never_shown Sample.coder true V1.initialState world0
           [Sample.todo; Sample.game] 12 initial_sessionState).
Defined.

(** The retry counter the second version shows stays within the budget
    of three retries at every point of every session. *)
Theorem retry_count_bounded (env : Env) (h : bool) (st : V1.State)
        (w : World) (inputs : list jsstring) (n : nat) :
  sessionState st ->
  let '(_, t, _) := V1.session env h st w inputs in
  V1.retryCount (V1.applyEvents st (firstn n t)) <= 3
  /\ Forall (fun i => i <= 3) (V1.attemptsOf t).
Proof.
  intros Hst. pose proof (session_states env h st w inputs n Hst) as S.
  pose proof (session_events env h inputs st w) as E.
  destruct (V1.session env h st w inputs) as [[st' t] w'].
  destruct S as (_ & _ & _ & Hr). split; [exact Hr|].
  destruct E as [E _]. clear - E.
  induction E as [|e t He Ht IH]; [constructor|].
  destruct e; simpl; trivial. now constructor.
Qed.

Lemma retry_count_bounded_witness :
  let '(_, t, _) :=
    V1.session Sample.down true V1.initialState world0 [Sample.todo] in
  V1.retryCount (V1.applyEvents V1.initialState (firstn 30 t)) <= 3
  /\ Forall (fun i => i <= 3) (V1.attemptsOf t).
Proof.
  exact (retry_count_bounded Sample.down true V1.initialState world0
           [Sample.todo] 30 initial_sessionState).
Defined.

(** *** After Cancel *)

Lemma attempt_cancelled (env : Env) (h : bool) (input : jsstring)
      (w : World) :
  cancelled w = true ->
  V1.attempt env h input w = ([], w, Threw RequestCancelled).
Proof.
  intros C. unfold V1.attempt. rewrite bind_getWorld, C. reflexivity.
Qed.

Lemma sleep_cancelled (env : Env) (ms : N) (w : World) :
  cancelled w = true ->
  cancelled (worldOf (V1.sleep env ms) w) = true
  /\ V1.fetchesOf (traceOf (V1.sleep env ms) w) = []
  /\ V1.filesOf (traceOf (V1.sleep env ms) w) = []
  /\ V1.errorsOf (traceOf (V1.sleep env ms) w) = []
  /\ V1.waitsOf (traceOf (V1.sleep env ms) w) = [ms]
  /\ V1.attemptsOf (traceOf (V1.sleep env ms) w) = [].
Proof.
  intros C.
  unfold V1.sleep, V1.suspend, V1.cancelGeneration, traceOf, worldOf,
    bind, getWorld, setWorld, emit, ret.
  simpl. destruct (button w && click env (awaits w)); simpl;
    repeat split; trivial.
Qed.

Lemma retryLoop_cancelled (env : Env) (h : bool) (input : jsstring)
      (max : nat) :
  forall r' i w,
    cancelled w = true -> i + r' = max ->
    let m := V1.retryLoop env max (S r') i (V1.attempt env h input) in
    resultOf m w = Threw RequestCancelled
    /\ V1.fetchesOf (traceOf m w) = []
    /\ V1.filesOf (traceOf m w) = []
    /\ V1.errorsOf (traceOf m w) = []
    /\ V1.waitsOf (traceOf m w) = backoff i r'
    /\ V1.attemptsOf (traceOf m w) = seq i (S r').
Proof.
  assert (At : forall w, cancelled w = true ->
            traceOf (V1.attempt env h input) w = []
            /\ resultOf (V1.attempt env h input) w = Threw RequestCancelled
            /\ worldOf (V1.attempt env h input) w = w).
  { intros w C. unfold traceOf, resultOf, worldOf.
    now rewrite attempt_cancelled. }
  induction r' as [|r' IH]; intros i w C Hi; cbv zeta;
    destruct (At w C) as (T0 & R0 & W0);
    rewrite retryLoop_unfold, traceOf_catch, resultOf_catch;
    rewrite traceOf_emit_then, resultOf_emit_then, worldOf_emit_then;
    rewrite T0, R0, W0.
  - assert (i = max) by lia. subst i. rewrite Nat.eqb_refl.
    repeat split; reflexivity.
  - assert (Hne : i <> max) by lia. apply Nat.eqb_neq in Hne. rewrite Hne.
    destruct (sleep_cancelled env (1000 * 2 ^ N.of_nat i) w C)
      as (C1 & F1 & Fi1 & E1 & W1 & A1).
    rewrite traceOf_bind, resultOf_bind, sleep_done.
    specialize (IH (S i) (worldOf (V1.sleep env (1000 * 2 ^ N.of_nat i)) w)
                   C1 ltac:(lia)).
    cbv zeta in IH. destruct IH as (R & F & Fi & E & W & A).
    rewrite R.
    rewrite !fetchesOf_app, !filesOf_app, !errorsOf_app, !waitsOf_app,
      !attemptsOf_app.
    simpl V1.fetchesOf at 1. simpl V1.filesOf at 1. simpl V1.errorsOf at 1.
    simpl V1.waitsOf at 1. simpl V1.attemptsOf at 1.
    rewrite F1, Fi1, E1, W1, A1, F, Fi, E, W, A.
    repeat split; reflexivity.
Qed.

(** The first attempt when Cancel is pressed while its request is in
    flight: the request is not interrupted; the token is cancelled
    when its outcome is read. *)
Lemma attempt_click (env : Env) (h : bool) (input : jsstring) (w : World) :
  cancelled w = false -> button w = true ->
  click env (awaits w) = true ->
  let m := V1.attempt env h input in
  length (V1.fetchesOf (traceOf m w)) = 1
  /\ V1.filesOf (traceOf m w) = []
  /\ V1.errorsOf (traceOf m w) = []
  /\ V1.waitsOf (traceOf m w) = []
  /\ V1.attemptsOf (traceOf m w) = []
  /\ existsb flipEvent (traceOf m w) = false
  /\ cancelled (worldOf m w) = true
  /\ match net env (fetches w) with
     | Reply r =>
         resultOf m w = Done tt
         /\ In (V1.AppendMessage
                  (V1.mkMessage ai
                     (V1.Text (orElse r
                                 (if V1.isCodeGenerationRequest input
                                  then V1.fallbackGeneration
                                  else V1.fallbackChat)))
                     (if V1.isCodeGenerationRequest input
                      then match V1.codeBlocksOf
                                   (orElse r V1.fallbackGeneration) with
                           | [] => TNormal
                           | _ :: _ => TCode
                           end
                      else TNormal)
                     None))
               (traceOf m w)
     | o => resultOf m w = Threw (rejection o)
     end.
Proof.
  intros C B K. cbv zeta.
  unfold V1.attempt. rewrite traceOf_getWorld, resultOf_getWorld,
                       worldOf_getWorld, C.
  destruct (V1.isCodeGenerationRequest input).
  - unfold V1.handleFileGeneration, V1.request, V1.suspend,
      V1.cancelGeneration, traceOf, resultOf, worldOf, bind, getWorld,
      setWorld, emit, ret, throw.
    simpl. rewrite B, K. simpl.
    destruct (net env (fetches w)) as [m|s|m|r]; simpl;
      try (repeat split; reflexivity).
    destruct (V1.codeBlocksOf (orElse r V1.fallbackGeneration)) as [|b bs];
      simpl; repeat split; auto 12.
  - unfold V1.handleChatResponse, V1.request, V1.suspend,
      V1.cancelGeneration, traceOf, resultOf, worldOf, bind, getWorld,
      setWorld, emit, ret, throw.
    simpl. rewrite B, K. simpl.
    destruct (net env (fetches w)) as [m|s|m|r]; simpl;
      repeat split; auto 12.
Qed.

(** The events of [handleAIResponse] around those of its [retry]. *)
Lemma handleAIResponse_trace (env : Env) (h : bool) (input : jsstring)
      (w : World) :
  let w0 := mkWorld (fetches w) (awaits w) false true (calls w) in
  let loop := V1.retryLoop env 3 4 0 (V1.attempt env h input) in
  traceOf (V1.handleAIResponse env h input) w
  = opening ++ traceOf loop w0
    ++ match resultOf loop w0 with
       | Done _ => successEvents
       | Threw e => failureEvents e
       end ++ closing.
Proof.
  cbv zeta. unfold V1.handleAIResponse.
  rewrite !traceOf_emit_then, traceOf_getWorld, traceOf_setWorld.
  rewrite !traceOf_emit_then, traceOf_finally, closing_trace.
  rewrite traceOf_catch, traceOf_bind, resultOf_bind.
  unfold V1.retry.
  destruct (resultOf (V1.retryLoop env 3 4 0 (V1.attempt env h input))
              (mkWorld (fetches w) (awaits w) false true (calls w))) as [[]|e];
    cbv beta iota.
  - rewrite traceOf_emit. unfold opening, successEvents. simpl.
    rewrite <- !app_assoc. reflexivity.
  - rewrite failure_trace. unfold opening. simpl.
    rewrite <- !app_assoc. reflexivity.
Qed.

(** Cancel pressed while the first request is in flight, and the
    request fails: no other request is sent, but the loop of [retry]
    goes through its three remaining attempts, each throwing 'Request
    cancelled' at once, and awaits the three backoff delays between
    them; the round ends with one error message, which carries
    'Request cancelled', and no file is handed on. *)
Theorem cancel_then_failure (env : Env) (h : bool) (input : jsstring)
        (w : World) :
  click env (awaits w) = true ->
  failing (net env (fetches w)) ->
  let t := traceOf (V1.handleAIResponse env h input) w in
  length (V1.fetchesOf t) = 1
  /\ V1.waitsOf t = [1000; 2000; 4000]%N
  /\ V1.attemptsOf t = [0; 1; 2; 3]
  /\ V1.errorsOf t = [errorMessage RequestCancelled]
  /\ V1.filesOf t = [].
Proof.
  intros K F. cbv zeta. rewrite handleAIResponse_trace. cbv zeta.
  set (w0 := mkWorld (fetches w) (awaits w) false true (calls w)).
  destruct (attempt_click env h input w0 eq_refl eq_refl K)
    as (A1 & A2 & A3 & A4 & A5 & _ & A7 & A8).
  cbv zeta in *.
  assert (R0 : exists e, resultOf (V1.attempt env h input) w0 = Threw e).
  { change (fetches w0) with (fetches w) in A8.
    destruct (net env (fetches w)); try (eexists; exact A8). destruct F. }
  destruct R0 as [e0 R0].
  rewrite retryLoop_unfold, traceOf_catch, resultOf_catch.
  rewrite traceOf_emit_then, resultOf_emit_then, worldOf_emit_then, R0.
  change (0 =? 3) with false. cbv iota.
  rewrite traceOf_bind, resultOf_bind, sleep_done.
  set (w1 := worldOf (V1.attempt env h input) w0) in *.
  destruct (sleep_cancelled env (1000 * 2 ^ N.of_nat 0) w1 A7)
    as (C1 & F1 & Fi1 & E1 & W1 & At1).
  destruct (retryLoop_cancelled env h input 3 2 1
              (worldOf (V1.sleep env (1000 * 2 ^ N.of_nat 0)) w1)
              C1 eq_refl) as (R & Fe & Fi & Er & Wa & At).
  cbv zeta in R, Fe, Fi, Er, Wa, At.
  rewrite R.
  change (V1.SetRetryCount 0 :: traceOf (V1.attempt env h input) w0)
    with ([V1.SetRetryCount 0] ++ traceOf (V1.attempt env h input) w0).
  rewrite !fetchesOf_app, !waitsOf_app, !attemptsOf_app, !errorsOf_app,
    !filesOf_app.
  rewrite F1, Fi1, E1, W1, At1, Fe, Fi, Er, Wa, At, A2, A3, A4, A5.
  change (V1.fetchesOf opening) with (@nil string).
  change (V1.fetchesOf [V1.SetRetryCount 0]) with (@nil string).
  change (V1.fetchesOf (failureEvents RequestCancelled)) with (@nil string).
  change (V1.fetchesOf closing) with (@nil string).
  rewrite !app_nil_r, !app_nil_l, A1.
  repeat split; reflexivity.
Qed.

Lemma cancel_then_failure_witness :
  V1.errorsOf (traceOf (V1.handleAIResponse
                          (mkEnv (fun _ => Status 503) (fun n => n =? 0))
                          true Sample.todo) world0)
  = [errorMessage RequestCancelled].
Proof.
  destruct (cancel_then_failure
              (mkEnv (fun _ => Status 503) (fun n => n =? 0))
              true Sample.todo world0 eq_refl I) as (_ & _ & _ & E & _).
  exact E.
Defined.

(** Cancel pressed while the first request is in flight, and the
    request is answered: the reply is still appended as a message and
    the round is logged as completed, without any retry; but no file of
    the reply is handed on, the message reports none, and the mode is
    left as it was. *)
Theorem cancel_during_answered_request (env : Env) (h : bool)
        (input : jsstring) (w : World) (r : option jsstring) :
  click env (awaits w) = true ->
  net env (fetches w) = Reply r ->
  let t := traceOf (V1.handleAIResponse env h input) w in
  length (V1.fetchesOf t) = 1
  /\ V1.waitsOf t = []
  /\ V1.attemptsOf t = [0]
  /\ V1.filesOf t = []
  /\ V1.errorsOf t = []
  /\ existsb flipEvent t = false
  /\ In (V1.AppendMessage
           (V1.mkMessage ai
              (V1.Text (orElse r
                          (if V1.isCodeGenerationRequest input
                           then V1.fallbackGeneration
                           else V1.fallbackChat)))
              (if V1.isCodeGenerationRequest input
               then match V1.codeBlocksOf
                            (orElse r V1.fallbackGeneration) with
                    | [] => TNormal
                    | _ :: _ => TCode
                    end
               else TNormal)
              None)) t
  /\ In (V1.Log success (Say "Processing completed successfully!")) t.
Proof.
  intros K R. cbv zeta. rewrite handleAIResponse_trace. cbv zeta.
  set (w0 := mkWorld (fetches w) (awaits w) false true (calls w)).
  destruct (attempt_click env h input w0 eq_refl eq_refl K)
    as (A1 & A2 & A3 & A4 & A5 & A6 & _ & A8).
  cbv zeta in *. change (fetches w0) with (fetches w) in A8.
  rewrite R in A8. destruct A8 as [R0 Hin].
  rewrite retryLoop_unfold, traceOf_catch, resultOf_catch.
  rewrite traceOf_emit_then, resultOf_emit_then, worldOf_emit_then, R0.
  rewrite app_nil_r.
  change (V1.SetRetryCount 0 :: traceOf (V1.attempt env h input) w0)
    with ([V1.SetRetryCount 0] ++ traceOf (V1.attempt env h input) w0).
  rewrite !fetchesOf_app, !waitsOf_app, !attemptsOf_app, !errorsOf_app,
    !filesOf_app, !existsb_app.
  rewrite A2, A3, A4, A5, A6.
  change (V1.fetchesOf opening) with (@nil string).
  change (V1.fetchesOf [V1.SetRetryCount 0]) with (@nil string).
  change (V1.fetchesOf successEvents) with (@nil string).
  change (V1.fetchesOf closing) with (@nil string).
  rewrite !app_nil_r, !app_nil_l, A1.
  repeat split; try reflexivity.
  - apply in_or_app. right. apply in_or_app. left.
    apply in_or_app. right. exact Hin.
  - apply in_or_app. right. apply in_or_app. right. simpl. auto.
Qed.

Lemma cancel_during_answered_request_witness :
  V1.filesOf
    (traceOf (V1.handleAIResponse
                (mkEnv (fun _ => Reply (Some Sample.answer))
                       (fun n => n =? 0))
                true Sample.todo) world0) = []
  /\ V1.filesOf (traceOf (V1.handleAIResponse Sample.coder true Sample.todo)
                   world0) <> [].
Proof.
  split.
  - destruct (cancel_during_answered_request
                (mkEnv (fun _ => Reply (Some Sample.answer))
                       (fun n => n =? 0))
                true Sample.todo world0 (Some Sample.answer)
                eq_refl eq_refl) as (_ & _ & _ & E & _).
    exact E.
  - vm_compute. discriminate.
Defined.

(** *** Every input of a session is handled *)

Lemma usersOf_app (a b : list V1.Event) :
  usersOf (a ++ b) = usersOf a ++ usersOf b.
Proof. apply flat_map_app. Qed.

Lemma usersOf0_app (a b : list V0.Event) :
  usersOf0 (a ++ b) = usersOf0 a ++ usersOf0 b.
Proof. apply flat_map_app. Qed.

Lemma roundEvent_users (t : list V1.Event) :
  Forall roundEvent t -> usersOf t = [].
Proof.
  induction 1 as [|e t He Ht IH]; [reflexivity|].
  simpl. rewrite IH. destruct e; simpl in *; trivial. now rewrite He.
Qed.

Lemma roundEvent0_users (t : list V0.Event) :
  Forall roundEvent0 t -> usersOf0 t = [].
Proof.
  induction 1 as [|e t He Ht IH]; [reflexivity|].
  simpl. rewrite IH. destruct e; simpl in *; trivial. now rewrite He.
Qed.

Lemma handleAIResponse0_round (env : Env) (props : V0.Props)
      (st : V0.State) (input : jsstring) :
  holds (Forall roundEvent0) (V0.handleAIResponse env props st input).
Proof.
  unfold V0.handleAIResponse.
  repeat every_step0; simpl; auto.
Qed.

(** The state after the events of a round: the [finally] has run. *)
Lemma applyEvents_closing (st : V1.State) (t : list V1.Event) :
  V1.isLoading (V1.applyEvents st (t ++ closing)) = false.
Proof. rewrite applyEvents_app. reflexivity. Qed.

Lemma applyEvents0_closing (st : V0.State) (t : list V0.Event) :
  V0.isLoading (V0.applyEvents st (t ++ closing0)) = false.
Proof. rewrite applyEvents0_app. reflexivity. Qed.

Lemma submit_handled (env : Env) (h : bool) (st : V1.State) (w : World)
      (message : jsstring) :
  V1.isLoading st = false ->
  let '(st', t, _) := V1.submit env h st w message in
  V1.isLoading st' = false
  /\ usersOf t = if nonblank message then [V1.Text (trim message)] else [].
Proof.
  intros Hl. unfold V1.submit, nonblank.
  destruct (trim message) as [|c s] eqn:E.
  - pose proof (handleSubmit_idle env h st message w (or_introl E)) as T.
    unfold traceOf in T.
    destruct (V1.handleSubmit env h st message w) as [[t w'] o].
    simpl in T. subst t. now split.
  - assert (Hm : trim message <> []) by (rewrite E; discriminate).
    pose proof (handleSubmit_trace env h st message w Hm Hl) as T.
    pose proof (handleAIResponse_every env roundEvent (fun e He => He)
                  h (trim message) w) as R.
    rewrite handleAIResponse_trace in T. cbv zeta in T.
    unfold traceOf at 1 in T.
    destruct (V1.handleSubmit env h st message w) as [[t w'] o].
    simpl fst in T. subst t. split.
    + rewrite !app_assoc. apply applyEvents_closing.
    + rewrite <- handleAIResponse_trace, usersOf_app.
      rewrite (roundEvent_users _ R). unfold userEvents. rewrite E.
      reflexivity.
Qed.

Lemma submit0_handled (env : Env) (props : V0.Props) (st : V0.State)
      (w : World) (message : jsstring) :
  V0.isLoading st = false ->
  let '(st', t, _) := V0.submit env props st w message in
  V0.isLoading st' = false
  /\ usersOf0 t = if nonblank message then [V0.Text (trim message)] else [].
Proof.
  intros Hl. unfold V0.submit, nonblank.
  destruct (trim message) as [|c s] eqn:E.
  - pose proof (handleSubmit0_idle env props st message w (or_introl E)) as T.
    unfold traceOf in T.
    destruct (V0.handleSubmit env props st message w) as [[t w'] o].
    simpl in T. subst t. now split.
  - assert (Hm : trim message <> []) by (rewrite E; discriminate).
    pose proof (handleSubmit0_trace env props st message w Hm Hl) as T.
    pose proof (handleAIResponse0_round env props st (trim message) w) as R.
    destruct (handleAIResponse0_shape env props st (trim message) w)
      as (tl & Hs & _).
    cbv zeta in Hs.
    unfold traceOf at 1 in T.
    destruct (V0.handleSubmit env props st message w) as [[t w'] o].
    simpl fst in T. subst t. split.
    + rewrite Hs, !app_assoc. apply applyEvents0_closing.
    + rewrite usersOf0_app, (roundEvent0_users _ R). unfold userEvents0.
      rewrite E. reflexivity.
Qed.

Lemma session0_handled (env : Env) (props : V0.Props)
      (inputs : list jsstring) :
  forall st0 w,
    V0.isLoading st0 = false ->
    let '(st', t, _) := V0.session env props st0 w inputs in
    V0.isLoading st' = false
    /\ usersOf0 t = map (fun m => V0.Text (trim m)) (filter nonblank inputs).
Proof.
  induction inputs as [|message rest IH]; intros st0 w Hl; simpl.
  - now split.
  - pose proof (submit0_handled env props st0 w message Hl) as S.
    destruct (V0.submit env props st0 w message) as [[s1 t1] w1].
    destruct S as [Hl1 U1].
    specialize (IH s1 w1 Hl1).
    destruct (V0.session env props s1 w1 rest) as [[s2 t2] w2].
    destruct IH as [Hl2 U2]. split; [exact Hl2|].
    rewrite usersOf0_app, U1, U2. now destruct (nonblank message).
Qed.

Lemma session_handled (env : Env) (h : bool) (inputs : list jsstring) :
  forall st1 w,
    V1.isLoading st1 = false ->
    let '(st', t, _) := V1.session env h st1 w inputs in
    V1.isLoading st' = false
    /\ usersOf t = map (fun m => V1.Text (trim m)) (filter nonblank inputs).
Proof.
  induction inputs as [|message rest IH]; intros st1 w Hl; simpl.
  - now split.
  - pose proof (submit_handled env h st1 w message Hl) as S.
    destruct (V1.submit env h st1 w message) as [[s1 t1] w1].
    destruct S as [Hl1 U1].
    specialize (IH s1 w1 Hl1).
    destruct (V1.session env h s1 w1 rest) as [[s2 t2] w2].
    destruct IH as [Hl2 U2]. split; [exact Hl2|].
    rewrite usersOf_app, U1, U2. now destruct (nonblank message).
Qed.

(** In a session, where each message is submitted when the round of
    the one before is over, no message is dropped: every round leaves
    [isLoading] false, so the log receives the trimmed text of every
    message that is not blank, in the order of the session, and
    nothing for the blank ones.  Both versions. *)
Theorem every_input_is_handled (env : Env) (props : V0.Props) (h : bool)
        (inputs : list jsstring) (st0 : V0.State) (st1 : V1.State)
        (w : World) :
  V0.isLoading st0 = false -> V1.isLoading st1 = false ->
  (let '(st', t, _) := V0.session env props st0 w inputs in
   V0.isLoading st' = false
   /\ usersOf0 t = map (fun m => V0.Text (trim m)) (filter nonblank inputs))
  /\ (let '(st', t, _) := V1.session env h st1 w inputs in
      V1.isLoading st' = false
      /\ usersOf t
         = map (fun m => V1.Text (trim m)) (filter nonblank inputs)).
Proof.
  intros Hl0 Hl1. split;
    [now apply session0_handled | now apply session_handled].
Qed.

Lemma every_input_is_handled_witness :
  V0.isLoading V0.initialState = false
  /\ V1.isLoading V1.initialState = false
  /\ let '(st', t, _) :=
       V1.session Sample.down true V1.initialState world0
                  [Sample.todo; str "   "; Sample.game] in
     V1.isLoading st' = false
     /\ usersOf t
        = map (fun m => V1.Text (trim m))
              (filter nonblank [Sample.todo; str "   "; Sample.game]).
Proof.
  split; [reflexivity|]. split; [reflexivity|].
  apply (every_input_is_handled Sample.down Sample.props true
           [Sample.todo; str "   "; Sample.game]
           V0.initialState V1.initialState world0).
  all: reflexivity.
Defined.

(** *** The end of a generation round of the first version *)

Lemma typingLoop_value (chunks f l : jsstring) :
  forall fuel i cur w,
    resultOf (V0.typingLoop fuel i chunks cur f l) w = Done tt
    /\ createsOf (traceOf (V0.typingLoop fuel i chunks cur f l) w) = [].
Proof.
  induction fuel as [|fuel IH]; intros i cur w; simpl; [now split|].
  destruct (i <? length chunks); [|now split].
  rewrite !resultOf_emit_then, !traceOf_emit_then. simpl.
  apply IH.
Qed.

Lemma createsOf_app (a b : list V0.Event) :
  createsOf (a ++ b) = createsOf a ++ createsOf b.
Proof. apply flat_map_app. Qed.

Lemma errorsOf0_typing (c f l : jsstring) (w : World) :
  V0.errorsOf (traceOf (V0.simulateTyping c f l) w) = [].
Proof.
  unfold V0.simulateTyping. generalize (@nil N) at 1. generalize 0.
  induction (length c) as [|fuel IH]; intros i cur; simpl; [reflexivity|].
  destruct (i <? length c); [|reflexivity].
  rewrite !traceOf_emit_then. simpl. apply IH.
Qed.

Lemma createsOf_typing (c f l : jsstring) (w : World) :
  createsOf (traceOf (V0.simulateTyping c f l) w) = [].
Proof. unfold V0.simulateTyping. apply typingLoop_value. Qed.

(** The loop of [processGeneratedFiles]: it returns the names of the
    blocks whose call of [onFileGenerated] did not throw, and neither
    calls [createProject] nor appends a message. *)
Lemma processLoop_value (env : Env) (props : V0.Props) :
  forall blocks acc w,
    resultOf (V0.processLoop env props blocks acc) w
    = Done (acc ++ createdNames env props w blocks)
    /\ createsOf (traceOf (V0.processLoop env props blocks acc) w) = []
    /\ V0.errorsOf (traceOf (V0.processLoop env props blocks acc) w) = [].
Proof.
  unfold createdNames.
  induction blocks as [|b blocks IH]; intros acc w.
  - simpl. destruct (V0.hasOnFileGenerated props); rewrite app_nil_r;
      now repeat split.
  - pose proof (createsOf_typing (V0.code b) (V0.fileName b) (V0.language b)
                  world0) as T1.
    pose proof (errorsOf0_typing (V0.code b) (V0.fileName b) (V0.language b)
                  world0) as T2.
    cbn [V0.processLoop]. unfold resultOf, traceOf, bind.
    rewrite processBlock_run.
    destruct (V0.hasOnFileGenerated props) eqn:Hh.
    + cbn [createdFrom].
      destruct (raises env (calls w)) as [e|];
        match goal with
        | |- context [V0.processLoop env props blocks ?a ?w1] =>
            destruct (IH a w1) as (Hr & Hc & He);
            unfold traceOf, resultOf in Hr, Hc, He;
            destruct (V0.processLoop env props blocks a w1) as [[t2 w2] r2]
        end; simpl in Hr, Hc, He; subst r2; cbn [fst snd].
      * simpl. now repeat split.
      * split; [now rewrite <- app_assoc|].
        unfold createsOf, V0.errorsOf, traceOf in *.
        rewrite !flat_map_app. cbn [flat_map app].
        rewrite !flat_map_app, Hc, He, T1, T2. now split.
    + destruct (IH (acc ++ [V0.fileName b]) w) as (Hr & Hc & He).
      unfold traceOf, resultOf in Hr, Hc, He.
      destruct (V0.processLoop env props blocks (acc ++ [V0.fileName b]) w)
        as [[t2 w2] r2].
      simpl in Hr, Hc, He. subst r2. cbn [fst snd].
      split; [now rewrite <- app_assoc|].
      unfold createsOf, V0.errorsOf, traceOf in *.
      rewrite !flat_map_app, Hc, He, T1, T2. now split.
Qed.

Lemma processGeneratedFiles_value (env : Env) (props : V0.Props)
      (r u : jsstring) (w : World) :
  resultOf (V0.processGeneratedFiles env props r u) w
  = Done (createdNames env props w (V0.parseCodeBlocks r))
  /\ createsOf (traceOf (V0.processGeneratedFiles env props r u) w) = [].
Proof.
  unfold V0.processGeneratedFiles.
  destruct (V0.parseCodeBlocks r) as [|b bs] eqn:E.
  - unfold createdNames. simpl.
    destruct (V0.hasOnFileGenerated props); now split.
  - rewrite resultOf_emit_then, traceOf_emit_then.
    destruct (processLoop_value env props (b :: bs) [] w) as (-> & C & _).
    split; [reflexivity|]. simpl. exact C.
Qed.

(** [makeAPICall] calls no callback. *)
Lemma apiLoop_calls (env : Env) (ep : string) (p : jsstring) (retries : nat) :
  forall remaining attempt w,
    calls (worldOf (V0.apiLoop env ep p retries remaining attempt) w)
    = calls w.
Proof.
  induction remaining as [|remaining IH]; intros attempt w; [reflexivity|].
  rewrite apiLoop_unfold.
  unfold worldOf, catch, bind, V0.request, emit, throw, ret.
  destruct (net env (fetches w)); cbv beta iota;
    try reflexivity;
    (destruct (attempt =? retries); cbv beta iota; [reflexivity|]);
    match goal with
    | |- context [V0.apiLoop env ep p retries remaining ?a ?w1] =>
        specialize (IH a w1); unfold worldOf in IH;
        destruct (V0.apiLoop env ep p retries remaining a w1)
          as [[t2 w2] r2]
    end; exact IH.
Qed.

Lemma createdNames_calls (env : Env) (props : V0.Props) (w w' : World)
      (blocks : list V0.CodeBlock) :
  calls w' = calls w ->
  createdNames env props w' blocks = createdNames env props w blocks.
Proof. unfold createdNames. now intros ->. Qed.

(** [saveProject]: nothing is saved for a visitor who is not signed
    in, and nothing when no file was created; a [createProject] that
    rejects is logged and goes no further. *)
Lemma saveProject_trace (props : V0.Props) (files : list jsstring)
      (blocks : list V0.CodeBlock) (u : jsstring) (w : World) :
  resultOf (V0.saveProject props files blocks u) w = Done tt
  /\ createsOf (traceOf (V0.saveProject props files blocks u) w)
     = (if V0.signedIn props && negb (length files =? 0)
        then [V0.projectFiles files blocks] else [])
  /\ V0.errorsOf (traceOf (V0.saveProject props files blocks u) w) = [].
Proof.
  unfold V0.saveProject.
  destruct (V0.signedIn props); simpl; [|now repeat split].
  destruct (length files =? 0); simpl; [now repeat split|].
  destruct (V0.createProjectFails props); now repeat split.
Qed.

Lemma handleAIResponse0_generation (env : Env) (props : V0.Props)
      (st : V0.State) (input : jsstring) (w : World) (r : option jsstring) :
  V0.isGenerationMode st = true -> V0.generationComplete st = false ->
  resultOf (V0.makeAPICall env "/api/ask" input) w = Done r ->
  let blocks := V0.parseCodeBlocks (orElse r V0.fallbackResponse) in
  let created := createdNames env props w blocks in
  exists tp ts,
    traceOf (V0.handleAIResponse env props st input) w
    = scripted ++ traceOf (V0.makeAPICall env "/api/ask" input) w ++ tp
      ++ [V0.SetLiveActive false; V0.SetGenerationComplete true;
          V0.SetIsGenerationMode false]
      ++ ts
      ++ [V0.AppendMessage (completionMessage props created);
          V0.Log success
            (Say "Switched to chat mode for follow-up questions");
          V0.Log success (Say "Processing completed successfully!")]
      ++ closing0
    /\ createsOf tp = []
    /\ createsOf ts
       = (if V0.signedIn props && negb (length created =? 0)
          then [V0.projectFiles created blocks] else [])
    /\ V0.errorsOf ts = [].
Proof.
  intros G C A. cbv zeta. unfold V0.handleAIResponse.
  rewrite G, C. simpl andb. cbv iota.
  pose proof (apiLoop_calls env "/api/ask" input 3 3 1 w) as Hcalls.
  unfold traceOf, resultOf, worldOf, finally, catch, bind, emit in *.
  cbv beta iota.
  rewrite stageLoop_eq. cbv beta iota.
  unfold V0.makeAPICall in *.
  destruct (V0.apiLoop env "/api/ask" input 3 3 1 w) as [[ta wa] ra].
  simpl in A, Hcalls. subst ra. cbv beta iota.
  pose proof (processGeneratedFiles_value env props
                (orElse r V0.fallbackResponse) input wa) as [Pv Pc].
  rewrite (createdNames_calls env props w wa _ Hcalls) in Pv.
  unfold traceOf, resultOf in Pv, Pc.
  destruct (V0.processGeneratedFiles env props (orElse r V0.fallbackResponse)
              input wa) as [[tp wp] rp].
  simpl in Pv, Pc. subst rp. cbv beta iota.
  set (created := createdNames env props w
                    (V0.parseCodeBlocks (orElse r V0.fallbackResponse))).
  pose proof (saveProject_trace props created
                (V0.parseCodeBlocks (orElse r V0.fallbackResponse))
                input wp) as (Sv & Sc & Se).
  unfold traceOf, resultOf in Sv, Sc, Se.
  destruct (V0.saveProject props created
              (V0.parseCodeBlocks (orElse r V0.fallbackResponse))
              input wp) as [[ts ws] rs].
  simpl in Sv, Sc, Se. subst rs. cbv beta iota.
  exists tp, ts.
  split; [|now repeat split].
  unfold scripted, closing0, completionMessage. simpl.
  rewrite <- !app_assoc. simpl. rewrite <- !app_assoc.
  reflexivity.
Qed.

Lemma apiEvent0_creates (t : list V0.Event) :
  Forall apiEvent0 t -> createsOf t = [].
Proof.
  induction 1 as [|e t He Ht IH]; [reflexivity|].
  simpl. rewrite IH. destruct e; simpl in *; now try destruct He.
Qed.

(** A generation round of the first version that reads a reply always
    ends with the completion message.  The message counts the names in
    [filesCreated]: those of the blocks of the reply whose call of
    [onFileGenerated] did not throw, which are all the blocks when the
    callback is not given or never throws.  It reports the project as
    saved whenever the visitor is signed in: also when no file was
    created, so that [createProject] is not called at all, and also
    when [createProject] rejects.  No error message is appended in any
    of these cases, whatever the callback throws.  [createProject] is
    called at most once, with the names created as keys, no two of
    them the same; the k-th name is paired with the code of the k-th
    block of the reply, which is its own block when no call throws. *)
Theorem completion_message_after_reply (env : Env) (props : V0.Props)
        (st : V0.State) (message : jsstring) (w : World) (k : nat)
        (r : option jsstring) :
  trim message <> [] -> V0.isLoading st = false ->
  V0.isGenerationMode st = true -> V0.generationComplete st = false ->
  k <= 2 ->
  (forall j, j < k -> failing (net env (fetches w + j))) ->
  net env (fetches w + k) = Reply r ->
  let t := traceOf (V0.handleSubmit env props st message) w in
  let blocks := V0.parseCodeBlocks (orElse r V0.fallbackResponse) in
  let created := createdNames env props w blocks in
  In (V0.AppendMessage (completionMessage props created)) t
  /\ V0.content (completionMessage props created)
     = V0.Completion (length created) (V0.signedIn props)
  /\ V0.errorsOf t = []
  /\ createsOf t
     = (if V0.signedIn props && negb (length created =? 0)
        then [V0.projectFiles created blocks] else [])
  /\ map fst (V0.projectFiles created blocks) = created
  /\ NoDup created
  /\ length created <= length blocks
  /\ (noThrow env (V0.hasOnFileGenerated props) ->
      created = map V0.fileName blocks
      /\ V0.projectFiles created blocks
         = map (fun b => (V0.fileName b, (V0.code b, V0.language b))) blocks).
Proof.
  intros Hm Hl G C Hk F R. cbv zeta.
  destruct (handleSubmit0_answered env props st message w k r Hm Hl Hk F R)
    as (_ & _ & _ & He & _).
  rewrite (handleSubmit0_trace env props st message w Hm Hl).
  rewrite (handleSubmit0_trace env props st message w Hm Hl) in He.
  destruct (makeAPICall_answered env "/api/ask" (trim message) w k r Hk F R)
    as (Ra & Fa & _).
  cbv zeta in Ra, Fa.
  destruct (handleAIResponse0_generation env props st (trim message) w r
              G C Ra) as (tp & ts & Ht & Cp & Cs & Es).
  cbv zeta in Cs, Ht. rewrite Ht in He. rewrite Ht.
  destruct (createdNames_facts env props w
              (V0.parseCodeBlocks (orElse r V0.fallbackResponse)))
    as (Hlen & _ & Hnd & Hall).
  split; [|split; [reflexivity|split; [|split; [|split; [|split;
    [|split]]]]]].
  - apply in_or_app. right.
    do 5 (apply in_or_app; right). simpl. auto.
  - exact He.
  - rewrite !createsOf_app, Cp, Cs, (apiEvent0_creates _ Fa).
    simpl. now rewrite app_nil_r.
  - now apply projectFiles_fst.
  - apply Hnd, parsed_NoDup.
  - exact Hlen.
  - intros NT. rewrite (Hall NT). split; [reflexivity|].
    apply projectFiles_keys.
Qed.

Lemma completion_message_after_reply_witness :
  In (V0.AppendMessage
        (V0.mkMessage ai (V0.Completion 0 true) TAnalysis (Some [])))
     (traceOf (V0.handleSubmit Sample.quiet Sample.props V0.initialState
                 Sample.todo) world0)
  /\ createsOf (traceOf (V0.handleSubmit Sample.quiet Sample.props
                           V0.initialState Sample.todo) world0) = [].
Proof.
  assert (Hm : trim Sample.todo <> []) by (vm_compute; discriminate).
  destruct (completion_message_after_reply Sample.quiet Sample.props
              V0.initialState Sample.todo world0 0 None Hm
              eq_refl eq_refl eq_refl (le_0_n 2)
              (fun j (Hj : j < 0) => match Nat.nlt_0_r j Hj with end)
              eq_refl) as (H1 & _ & _ & H4 & _).
  split; [exact H1 | exact H4].
Defined.

(** *** What the replay writes *)

Lemma firstn_plus {A} (l : list A) (i k : nat) :
  firstn (i + k) l = firstn i l ++ firstn k (skipn i l).
Proof.
  revert l. induction i as [|i IH]; intros [|x l]; simpl; trivial.
  - now destruct k.
  - now rewrite IH.
Qed.

Lemma slice_next (i step : nat) (l : jsstring) :
  firstn i l ++ V0.slice i (i + step) l = firstn (i + step) l.
Proof.
  unfold V0.slice. replace (i + step - i) with step by lia.
  symmetry. apply firstn_plus.
Qed.

Lemma typingLoop0_contents (chunks f l : jsstring) :
  forall fuel i w,
    typedContents
      (traceOf (V0.typingLoop fuel i chunks (firstn i chunks) f l) w)
    = map (fun j => firstn (j + V0.CHUNK_SIZE) chunks)
          (positions fuel i V0.CHUNK_SIZE (length chunks)).
Proof.
  induction fuel as [|fuel IH]; intros i w; simpl; [reflexivity|].
  destruct (i <? length chunks); [|reflexivity].
  rewrite traceOf_emit_then. simpl. rewrite slice_next. f_equal.
  rewrite traceOf_emit_then. simpl. apply IH.
Qed.

Lemma buffers_prefixes (chunks : jsstring) :
  forall fuel i,
    buffers fuel i chunks (firstn i chunks)
    = map (fun j => firstn (j + 20) chunks)
          (positions fuel i 20 (length chunks)).
Proof.
  induction fuel as [|fuel IH]; intros i; simpl; [reflexivity|].
  destruct (i <? length chunks); [|reflexivity].
  rewrite slice_next. simpl map. f_equal. apply IH.
Qed.

(** With fuel enough to reach the end, the last buffer is the text. *)
Lemma last_prefix (chunks : jsstring) (step : nat) :
  0 < step ->
  forall fuel i,
    i < length chunks -> length chunks <= i + fuel * step ->
    last (map (fun j => firstn (j + step) chunks)
              (positions fuel i step (length chunks))) []
    = chunks.
Proof.
  intros Hs. induction fuel as [|fuel IH]; intros i Hi Hf.
  - simpl in Hf. lia.
  - simpl. apply Nat.ltb_lt in Hi as Hi'. rewrite Hi'.
    destruct (i + step <? length chunks) eqn:E.
    + apply Nat.ltb_lt in E.
      specialize (IH (i + step) E ltac:(simpl in Hf; lia)).
      simpl map.
      destruct (map (fun j => firstn (j + step) chunks)
                    (positions fuel (i + step) step (length chunks)))
        as [|b bs] eqn:M.
      * destruct fuel; simpl in M; [simpl in Hf; lia|].
        apply Nat.ltb_lt in E. rewrite E in M. discriminate.
      * exact IH.
    + apply Nat.ltb_ge in E.
      assert (P : positions fuel (i + step) step (length chunks) = []).
      { destruct fuel; simpl; [reflexivity|].
        apply Nat.ltb_ge in E. now rewrite E. }
      rewrite P. simpl. apply firstn_all2. exact E.
Qed.

(** The replay of [simulateTyping] writes the prefixes of the code of
    lengths 15, 30, ... (20, 40, ... in the second version), one for
    each chunk; for a code that is not empty the last buffer written is
    the whole code, so the display ends on the complete text whatever
    the progress it shows. *)
Theorem replay_writes_whole_code (env : Env) (code fileName lang : jsstring)
        (w : World) :
  let t0 := traceOf (V0.simulateTyping code fileName lang) w in
  let t1 := traceOf (V1.simulateTyping env code fileName lang) w in
  typedContents t0
  = map (fun j => firstn (j + 15) code)
        (positions (length code) 0 15 (length code))
  /\ V1.chunkContents t1
     = map (fun j => firstn (j + 20) code)
           (positions (length code) 0 20 (length code))
  /\ (code <> [] ->
      last (typedContents t0) [] = code
      /\ last (V1.chunkContents t1) [] = code).
Proof.
  cbv zeta.
  assert (H0 : typedContents
                 (traceOf (V0.simulateTyping code fileName lang) w)
               = map (fun j => firstn (j + 15) code)
                     (positions (length code) 0 15 (length code))).
  { unfold V0.simulateTyping.
    exact (typingLoop0_contents code fileName lang (length code) 0 w). }
  assert (H1 : V1.chunkContents
                 (traceOf (V1.simulateTyping env code fileName lang) w)
               = map (fun j => firstn (j + 20) code)
                     (positions (length code) 0 20 (length code))).
  { unfold V1.simulateTyping. rewrite traceOf_emit_then. simpl.
    rewrite typingLoop_contents.
    exact (buffers_prefixes code (length code) 0). }
  split; [exact H0|]. split; [exact H1|].
  intros Hne. rewrite H0, H1.
  assert (Hl : 0 < length code) by (destruct code; [easy | simpl; lia]).
  split; apply last_prefix; lia.
Qed.

Lemma replay_writes_whole_code_witness :
  last (typedContents
          (traceOf (V0.simulateTyping Sample.text46 (str "a.js") (str "js"))
             world0)) []
  = Sample.text46.
Proof.
  apply (replay_writes_whole_code Sample.quiet Sample.text46
           (str "a.js") (str "js") world0).
  discriminate.
Defined.

(** *** The console of the right panel *)

Lemma console_adding (lines : list (LogMsg * option LogKind)) :
  forall c, fold_left Panel.step (Panel.adding lines) c
            = c ++ Panel.entries lines.
Proof.
  induction lines as [|l lines IH]; intros c; simpl.
  - now rewrite app_nil_r.
  - rewrite IH. unfold Panel.addToConsole. now rewrite <- app_assoc.
Qed.

(** The console shows one header line, '$ Ready' before the first
    clearing and '$ Console cleared' after one, followed by the lines
    added since, in the order they were added; a clearing discards
    whatever came before it, and the console is never empty. *)
Theorem console_since_clear (ops : list Panel.ConsoleOp)
        (lines : list (LogMsg * option LogKind)) :
  Panel.run (ops ++ Panel.Clear :: Panel.adding lines)
  = Panel.mkEntry (Say "$ Console cleared") info :: Panel.entries lines
  /\ Panel.run (Panel.adding lines)
     = Panel.mkEntry (Say "$ Ready") success :: Panel.entries lines
  /\ Panel.run ops <> [].
Proof.
  unfold Panel.run. split; [|split].
  - rewrite fold_left_app. simpl. now rewrite console_adding.
  - now rewrite console_adding.
  - induction ops as [|op ops IH] using rev_ind; [discriminate|].
    rewrite fold_left_app. simpl. destruct op; simpl; [discriminate|].
    unfold Panel.addToConsole. intros E. now apply app_eq_nil in E as [_ E].
Qed.

(** *** The chat as the right panel mounts it *)

Lemma handleSubmit_no_callback (env : Env) (st : V1.State)
      (message : jsstring) (w : World) :
  V1.filesOf (traceOf (V1.handleSubmit env false st message) w) = [].
Proof.
  destruct (handleSubmit_dec st message) as [Hi|[Hm Hl]].
  - now rewrite (handleSubmit_idle env false st message w Hi).
  - rewrite (handleSubmit_trace env false st message w Hm Hl).
    rewrite filesOf_app. simpl.
    assert (NO : networkOnly env false) by (left; now left).
    destruct (handleAIResponse_cases env false (trim message) w) as [Hf|Hs].
    + destruct (failedRun_obs _ _ _ Hf) as (_ & Hfi & _). exact (Hfi NO).
    + destruct (succeededRun_obs _ _ _ _ Hs)
        as (_ & _ & _ & k & r & c & tn & tl & _ & _ & _ & _ & Hl' & Hn & ->
            & _).
      rewrite filesOf_app, (Hn NO), Hl'. now rewrite andb_false_r.
Qed.

Lemma handleSubmit0_no_callback (env : Env) (props : V0.Props)
      (st : V0.State) (message : jsstring) (w : World) :
  V0.hasOnFileGenerated props = false ->
  V0.filesOf (traceOf (V0.handleSubmit env props st message) w) = [].
Proof.
  intros Hp.
  destruct (trim message) as [|c s] eqn:E.
  { now rewrite (handleSubmit0_idle env props st message w (or_introl E)). }
  destruct (V0.isLoading st) eqn:Hl.
  { now rewrite (handleSubmit0_idle env props st message w (or_intror Hl)). }
  assert (Hm : trim message <> []) by (rewrite E; discriminate).
  rewrite (handleSubmit0_trace env props st message w Hm Hl).
  destruct (handleAIResponse0_shape env props st (trim message) w)
    as (tl & -> & Hr).
  cbv zeta in Hr.
  pose proof (apiLoop_cases env
                (endpoint0 (V0.isGenerationMode st
                            && negb (V0.generationComplete st)))
                (trim message) 3 2 1 w eq_refl) as [Ha _].
  cbv zeta in Ha. fold (V0.makeAPICall env
                (endpoint0 (V0.isGenerationMode st
                            && negb (V0.generationComplete st)))
                (trim message)) in Ha.
  destruct (apiEvent0_obs _ Ha) as [_ Fa].
  destruct (intro0_obs (V0.isGenerationMode st
                        && negb (V0.generationComplete st)))
    as (_ & Fi & _).
  rewrite !filesOf0_app, Fa, Fi.
  assert (Ft : V0.filesOf tl = []).
  { destruct (resultOf _ w) as [r|e] in Hr.
    - destruct Hr as [_ Hr].
      destruct (V0.isGenerationMode st && negb (V0.generationComplete st)).
      + destruct Hr as (_ & _ & ->). now rewrite Hp.
      + now destruct Hr as [-> _].
    - now subst tl. }
  now rewrite Ft.
Qed.

(** The right panel mounts the chat with [project] and [onConsoleLog]
    only.  Without [onFileGenerated] no file of any reply is handed on
    in any session of either version, whatever the replies hold; the
    rounds go on all the same, and the messages still report the files
    as created. *)
Theorem panel_chat_hands_on_no_file (env : Env) (props : V0.Props)
        (inputs : list jsstring) (st0 : V0.State) (st1 : V1.State)
        (w : World) :
  V0.hasOnFileGenerated props = Panel.hasOnFileGenerated ->
  (let '(_, t, _) := V0.session env props st0 w inputs in
   V0.filesOf t = [])
  /\ (let '(_, t, _) :=
        V1.session env Panel.hasOnFileGenerated st1 w inputs in
      V1.filesOf t = []).
Proof.
  intros Hp. split.
  - revert st0 w. induction inputs as [|message rest IH]; intros st0 w;
      simpl; [reflexivity|].
    unfold V0.submit.
    pose proof (handleSubmit0_no_callback env props st0 message w Hp) as F.
    unfold traceOf in F.
    destruct (V0.handleSubmit env props st0 message w) as [[t1 w1] o1].
    simpl fst in F.
    specialize (IH (V0.applyEvents st0 t1) w1).
    destruct (V0.session env props (V0.applyEvents st0 t1) w1 rest)
      as [[s2 t2] w2].
    now rewrite filesOf0_app, F, IH.
  - revert st1 w. induction inputs as [|message rest IH]; intros st1 w;
      simpl; [reflexivity|].
    unfold V1.submit.
    pose proof (handleSubmit_no_callback env st1 message w) as F.
    unfold traceOf in F. unfold Panel.hasOnFileGenerated.
    destruct (V1.handleSubmit env false st1 message w) as [[t1 w1] o1].
    simpl fst in F.
    specialize (IH (V1.applyEvents st1 t1) w1).
    unfold Panel.hasOnFileGenerated in IH.
    destruct (V1.session env false (V1.applyEvents st1 t1) w1 rest)
      as [[s2 t2] w2].
    now rewrite filesOf_app, F, IH.
Qed.

Lemma panel_chat_hands_on_no_file_witness :
  let '(_, t, _) :=
    V1.session Sample.coder Panel.hasOnFileGenerated V1.initialState world0
               [Sample.todo] in
  V1.filesOf t = [].
Proof.
  apply (panel_chat_hands_on_no_file Sample.coder
           (V0.mkProps true false None) [Sample.todo]
           V0.initialState V1.initialState world0).
  reflexivity.
Defined.

(** *** The error the second version reports *)

Section LastError.

Variable env : Env.
Hypothesis noClick : forall n, click env n = false.

Lemma attempt_rejection (h : bool) (input : jsstring) (w : World) :
  cancelled w = false -> failing (net env (fetches w)) ->
  exists t a,
    V1.attempt env h input w
    = (t, mkWorld (S (fetches w)) a false (button w) (calls w),
       Threw (rejection (net env (fetches w)))).
Proof.
  intros C F. unfold V1.attempt. rewrite bind_getWorld, C.
  destruct (V1.isCodeGenerationRequest input).
  - unfold V1.handleFileGeneration, bind, emit. cbv beta iota.
    destruct (request_noclick env noClick "/api/claude-proxy" input w)
      as [a ->].
    rewrite C.
    destruct (net env (fetches w)); [| | |destruct F];
      do 2 eexists; reflexivity.
  - unfold V1.handleChatResponse, bind, emit. cbv beta iota.
    destruct (request_noclick env noClick "/api/claude-proxy" input w)
      as [a ->].
    rewrite C.
    destruct (net env (fetches w)); [| | |destruct F];
      do 2 eexists; reflexivity.
Qed.

Lemma retryLoop_last_error (h : bool) (input : jsstring) (max : nat) :
  forall r' i w,
    i + r' = max -> cancelled w = false ->
    (forall j, j <= r' -> failing (net env (fetches w + j))) ->
    resultOf (V1.retryLoop env max (S r') i (V1.attempt env h input)) w
    = Threw (rejection (net env (fetches w + r'))).
Proof.
  induction r' as [|r' IH]; intros i w Hi C F.
  - assert (i = max) by lia. subst i.
    destruct (attempt_rejection h input w C) as (t & a & Ha).
    { rewrite <- (Nat.add_0_r (fetches w)). apply F. lia. }
    rewrite retryLoop_unfold, Nat.eqb_refl.
    unfold resultOf, catch, bind, emit, throw. cbv beta iota.
    rewrite Ha. cbv beta iota. now rewrite Nat.add_0_r.
  - assert (Hne : i <> max) by lia. apply Nat.eqb_neq in Hne.
    destruct (attempt_rejection h input w C) as (t & a & Ha).
    { rewrite <- (Nat.add_0_r (fetches w)). apply F. lia. }
    set (w1 := mkWorld (S (fetches w)) a false (button w) (calls w)) in *.
    set (w2 := mkWorld (fetches w1) (S (awaits w1)) (cancelled w1)
                       (button w1) (calls w1)).
    specialize (IH (S i) w2 ltac:(lia) eq_refl).
    assert (F2 : forall j, j <= r' -> failing (net env (fetches w2 + j))).
    { intros j Hj. specialize (F (S j) ltac:(lia)).
      unfold w2, w1. simpl. now rewrite Nat.add_succ_r in F. }
    specialize (IH F2).
    rewrite (retryLoop_unfold env max (S r')), Hne.
    unfold resultOf, catch, bind, emit in *. cbv beta iota.
    rewrite Ha. cbv beta iota.
    rewrite (sleep_noclick env noClick). cbv beta iota. fold w2.
    destruct (V1.retryLoop env max (S r') (S i) (V1.attempt env h input) w2)
      as [[tr wr] res].
    simpl in IH. subst res. simpl.
    unfold w2, w1. simpl. now rewrite Nat.add_succ_r.
Qed.

End LastError.

(** When every request fails and Cancel is not pressed, the one error
    message the second version appends carries the error of the fourth
    and last request: its status, or the reason it was rejected
    with. *)
Theorem reported_error_is_last (env : Env) (h : bool) (input : jsstring)
        (w : World) :
  (forall n, click env n = false) ->
  (forall n, failing (net env n)) ->
  V1.errorsOf (traceOf (V1.handleAIResponse env h input) w)
  = [errorMessage (rejection (net env (fetches w + 3)))].
Proof.
  intros NC F. rewrite handleAIResponse_trace. cbv zeta.
  set (w0 := mkWorld (fetches w) (awaits w) false true (calls w)).
  rewrite (retryLoop_last_error env NC h input 3 3 0 w0 eq_refl eq_refl
             (fun j _ => F (fetches w0 + j))).
  pose proof (retryLoop_cases env h input 3 3 0 w0 eq_refl) as R.
  rewrite (retryLoop_last_error env NC h input 3 3 0 w0 eq_refl eq_refl
             (fun j _ => F (fetches w0 + j))) in R.
  destruct R as (Hn & _).
  destruct (retryEvent_obs _ Hn) as (E & _).
  rewrite !errorsOf_app, E. reflexivity.
Qed.

Lemma reported_error_is_last_witness :
  V1.errorsOf
    (traceOf (V1.handleAIResponse
                (mkEnv (fun n => Status (500 + N.of_nat n)) (fun _ => false))
                true Sample.todo) world0)
  = [errorMessage (HttpError 503)].
Proof.
  exact (reported_error_is_last
           (mkEnv (fun n => Status (500 + N.of_nat n)) (fun _ => false))
           true Sample.todo world0 (fun _ => eq_refl) (fun _ => I)).
Defined.
